(** * Claims automation: status write-back and row orchestration

    A shallow embedding of the two JavaScript modules that carry the
    behaviour of the claims automation:

    - [reportGenerator.js]: [aggregateStatus] and [updateOriginalExcel],
      the status aggregator and the spreadsheet write-back;
    - [index.js]: the session flags, [clickClaimsOnce],
      [clickCustomIdFilter], [processPatientClaim], [processRow] and the
      main loop, written over an abstract browser driver.

    JavaScript strings are modelled by [string] (byte strings; case
    conversion and trimming act on the ASCII range), arrays by [list],
    the [Map] of results by a [gmap], thrown [Error]s by their message. *)

From Stdlib Require Import Ascii.
From stdpp Require Import gmap strings list pretty.
Open Scope string_scope.
Open Scope nat_scope.
Open Scope list_scope.

(** ** JavaScript string helpers *)

(** [c.toLowerCase()] on one ASCII character. *)
Definition ascii_lower (c : ascii) : ascii :=
  let n := nat_of_ascii c in
  if (65 <=? n) && (n <=? 90) then ascii_of_nat (n + 32) else c.

(** [c.toUpperCase()] on one ASCII character. *)
Definition ascii_upper (c : ascii) : ascii :=
  let n := nat_of_ascii c in
  if (97 <=? n) && (n <=? 122) then ascii_of_nat (n - 32) else c.

Fixpoint toLowerCase (s : string) : string :=
  match s with
  | EmptyString => EmptyString
  | String c t => String (ascii_lower c) (toLowerCase t)
  end.

Fixpoint toUpperCase (s : string) : string :=
  match s with
  | EmptyString => EmptyString
  | String c t => String (ascii_upper c) (toUpperCase t)
  end.

(** White space removed by [String.prototype.trim] (ASCII range): tab,
    line feed, vertical tab, form feed, carriage return, space. *)
Definition is_space (c : ascii) : bool :=
  let n := nat_of_ascii c in
  ((9 <=? n) && (n <=? 13)) || (n =? 32).

Fixpoint trimStart (s : string) : string :=
  match s with
  | EmptyString => EmptyString
  | String c t => if is_space c then trimStart t else s
  end.

(** [trimEnd] keeps a character when it is not white space or when
    something is left after it. *)
Fixpoint trimEnd (s : string) : string :=
  match s with
  | EmptyString => EmptyString
  | String c t =>
      match trimEnd t with
      | EmptyString => if is_space c then EmptyString else String c EmptyString
      | t' => String c t'
      end
  end.

Definition trim (s : string) : string := trimEnd (trimStart s).

(** Truthiness of a JavaScript string: only the empty string is falsy.
    A missing ([undefined]) string property is modelled by [""], which
    is falsy as well. *)
Definition truthy (s : string) : bool := negb (String.eqb s "").

(** [a || b] on strings. *)
Definition or_else (a b : string) : string := if truthy a then a else b.

(** [a.includes(b)] / a match of the literal [b] anywhere in [a]. *)
Fixpoint includesStr (a b : string) : bool :=
  String.prefix b a ||
  match a with
  | EmptyString => false
  | String _ t => includesStr t b
  end.

(** [l.join(sep)]. *)
Definition join (sep : string) (l : list string) : string := String.concat sep l.

(** [arr.findIndex(p)]; [None] stands for [-1]. *)
Fixpoint findIndex {A} (p : A → bool) (l : list A) : option nat :=
  match l with
  | [] => None
  | x :: t => if p x then Some 0 else S <$> findIndex p t
  end.

(** [[...new Set(l)]]: the distinct elements in order of first
    insertion.  [setAdd] is [Set.prototype.add] on the insertion-ordered
    content of the set. *)
Definition setAdd (acc : list string) (x : string) : list string :=
  if bool_decide (x ∈ acc) then acc else acc ++ [x].

Definition newSet (l : list string) : list string := foldl setAdd [] l.

(** * reportGenerator.js *)

(** A result object, as built by [processPatientClaim], [processRow] and
    the main loop.  Wall-clock fields ([processingTime], [timestamp]) and
    the copied input columns that no function below reads are left out.
    [rowNumber = 0] models a falsy row number. *)
Record PatientResult := mkResult {
  rowNumber : nat;
  mrn : string;
  patientIndex : nat;
  totalPatients : nat;
  status : string;
  billingStatus : string;
  errorMessage : string;
  notes : string
}.

(** [results.map(r => r.status || 'Unknown')] *)
Definition statusesOf (results : list PatientResult) : list string :=
  map (λ r, or_else (status r) "Unknown") results.

(** [[...new Set(statuses)]] *)
Definition uniqueStatuses (results : list PatientResult) : list string :=
  newSet (statusesOf results).

(** [statuses.filter(s => s === 'Failed').length] *)
Definition failedCount (results : list PatientResult) : nat :=
  length (filter (λ s, s = "Failed") (statusesOf results)).

(** [`${label} (${n} patients)`] *)
Definition withPatients (label : string) (n : nat) : string :=
  label +:+ " (" +:+ pretty n +:+ " patients)".

(** [`Failed (${k}/${n} patients)`] *)
Definition failedOf (k n : nat) : string :=
  "Failed (" +:+ pretty k +:+ "/" +:+ pretty n +:+ " patients)".

(** [aggregateStatus], reportGenerator.js lines 195-231. *)
Definition aggregateStatus (results : list PatientResult) : string :=
  if length results =? 0 then "Unknown" else
  let statuses := statusesOf results in
  let uniqueStatuses := newSet statuses in
  if bool_decide ("Billed" ∈ uniqueStatuses) then
    if length uniqueStatuses =? 1 then "Billed"
    else withPatients "Billed" (length results)
  else if bool_decide ("Appt. Cancelled" ∈ uniqueStatuses) then
    if length uniqueStatuses =? 1 then "Appt. Cancelled"
    else withPatients "Appt. Cancelled" (length results)
  else if bool_decide ("Success" ∈ uniqueStatuses) then
    if length uniqueStatuses =? 1 then "Success"
    else withPatients "Success" (length results)
  else if bool_decide ("Failed" ∈ uniqueStatuses) then
    let failedCount := length (filter (λ s, s = "Failed") statuses) in
    if failedCount =? length results then "Failed"
    else failedOf failedCount (length results)
  else if 1 <? length uniqueStatuses then join ", " uniqueStatuses
  else default "undefined" (uniqueStatuses !! 0).

(** ** The sheet, as [XLSX.utils.sheet_to_json(sheet, {header: 1, defval: ''})]
    returns it *)

(** A cell value.  The option [header: 1] yields raw values, so a cell is
    a string, a number or a boolean; [defval: ''] turns every missing
    cell of the sheet range into [CStr ""].  Numbers are represented by
    integers: the code only tests their truthiness and prints them. *)
Inductive Cell :=
| CStr (s : string)
| CNum (n : Z)
| CBool (b : bool).

#[global] Instance Cell_eq_dec : EqDecision Cell.
Proof. solve_decision. Defined.

(** JavaScript truthiness of a cell value: [''], [0] and [false] are
    falsy. *)
Definition cellTruthy (c : Cell) : bool :=
  match c with
  | CStr s => truthy s
  | CNum n => negb (n =? 0)%Z
  | CBool b => b
  end.

(** [c.toString()] *)
Definition cellToString (c : Cell) : string :=
  match c with
  | CStr s => s
  | CNum n => pretty n
  | CBool true => "true"
  | CBool false => "false"
  end.

(** The predicate of line 156-158:
    [h => h && h.toString().toLowerCase() === 'status']. *)
Definition isStatusHeader (h : Cell) : bool :=
  cellTruthy h && String.eqb (toLowerCase (cellToString h)) "status".

(** The test of line 252: [!cell || cell === '']. *)
Definition cellIsEmpty (c : Cell) : bool :=
  negb (cellTruthy c) || bool_decide (c = CStr "").

(** [while (row.length < n) row.push('')] *)
Definition padTo (n : nat) (row : list Cell) : list Cell :=
  row ++ replicate (n - length row) (CStr "").

(** The header row [rows[0]]. *)
Definition headerOf (rows : list (list Cell)) : list Cell := default [] (rows !! 0).

(** Lines 155-167: look for a Status header; when it is found before the
    last position, remove that column from every row and forget the
    index.  [headers] is [rows[0]], the same array object as the first
    row, so the [splice] of line 164 changes the header too.
    [delete k] removes the element at [k] and leaves a shorter row alone,
    as [splice(k, 1)] does.  [None] stands for [-1]. *)
Definition removeMisplaced (rows : list (list Cell)) : list (list Cell) * option nat :=
  let headers := headerOf rows in
  match findIndex isStatusHeader headers with
  | Some k =>
      if k + 1 <? length headers
      then (delete k <$> rows, None)
      else (rows, Some k)
  | None => (rows, None)
  end.

(** Lines 170-179: append a Status header and pad the data rows. *)
Definition appendStatus (rows : list (list Cell)) : list (list Cell) * nat :=
  match rows with
  | [] => ([], 0)
  | headers :: data =>
      let headers' := headers ++ [CStr "Status"] in
      (headers' :: (padTo (length headers') <$> data), length headers)
  end.

(** Lines 154-179: find or create the Status column; the result is the
    new rows and [statusColumnIndex]. *)
Definition locateStatusColumn (rows : list (list Cell)) : list (list Cell) * nat :=
  match removeMisplaced rows with
  | (rows, Some k) => (rows, k)
  | (rows, None) => appendStatus rows
  end.

(** Line 184: [result.rowNumber || result._rowNumber].  No result object
    has a [_rowNumber] property, so the second operand is [undefined]:
    the value is [rowNumber] when that is truthy and falsy otherwise,
    which [0] stands for. *)
Definition rowNumOf (r : PatientResult) : nat := rowNumber r.

(** Lines 182-191: the [Map] from row number to the results of that row,
    in the order of [results]. *)
Definition addResult (resultsMap : gmap nat (list PatientResult)) (result : PatientResult)
  : gmap nat (list PatientResult) :=
  let rowNum := rowNumOf result in
  if rowNum =? 0 then resultsMap
  else <[rowNum := default [] (resultsMap !! rowNum) ++ [result]]> resultsMap.

Definition buildResultsMap (results : list PatientResult) : gmap nat (list PatientResult) :=
  foldl addResult ∅ results.

(** Lines 235-255: the body of the loop for the row at index [i] of
    [rows] ([i >= 1]). *)
Definition updateRow (resultsMap : gmap nat (list PatientResult))
    (statusColumnIndex i : nat) (row : list Cell) : list Cell :=
  let excelRowNumber := i + 1 in
  let row := padTo (statusColumnIndex + 1) row in
  match resultsMap !! excelRowNumber with
  | Some rowResults =>
      if 0 <? length rowResults
      then <[statusColumnIndex := CStr (aggregateStatus rowResults)]> row
      else if cellIsEmpty (default (CStr "") (row !! statusColumnIndex))
           then <[statusColumnIndex := CStr "Not Processed"]> row
           else row
  | None =>
      if cellIsEmpty (default (CStr "") (row !! statusColumnIndex))
      then <[statusColumnIndex := CStr "Not Processed"]> row
      else row
  end.

(** Lines 154-256 on the array of rows: locate or create the column, then
    update every data row. *)
Definition updateRows (rows : list (list Cell)) (results : list PatientResult)
  : list (list Cell) * nat :=
  let '(rows, statusColumnIndex) := locateStatusColumn rows in
  let resultsMap := buildResultsMap results in
  match rows with
  | [] => ([], statusColumnIndex)
  | headers :: data =>
      (headers :: imap (λ j row, updateRow resultsMap statusColumnIndex (S j) row) data,
       statusColumnIndex)
  end.

(** An entry of the sheet's ['!cols'] array: the width in characters and
    the remaining properties of the column, summarised by [hidden]. *)
Record ColInfo := mkCol { wch : nat; hidden : bool }.

(** [{ wch: 15 }] *)
Definition defaultCol : ColInfo := mkCol 15 false.

(** Lines 261-275: the column widths of the updated sheet. *)
Definition updateCols (cols : option (list ColInfo)) (headers : list Cell)
    (statusColumnIndex : nat) : list ColInfo :=
  match cols with
  | Some cols =>
      if length cols <=? statusColumnIndex
      then cols ++ [defaultCol]
      else <[statusColumnIndex := defaultCol]> cols
  | None =>
      <[statusColumnIndex := defaultCol]> ((λ _, defaultCol) <$> headers)
  end.

(** The worksheet: the array of rows and the ['!cols'] property. *)
Record Sheet := mkSheet {
  sheetRows : list (list Cell);
  sheetCols : option (list ColInfo)
}.

(** [updateOriginalExcel], lines 147-278, on the sheet it selected: fails
    with the message of line 151 on a sheet without rows, otherwise
    returns the sheet that replaces it in the workbook.  Reading and
    writing the file is left to the XLSX library. *)
Definition updateOriginalExcel (sheet : Sheet) (results : list PatientResult)
  : string + Sheet :=
  let rows := sheetRows sheet in
  if length rows =? 0 then inl "No data found in sheet" else
  let '(rows, statusColumnIndex) := updateRows rows results in
  let headers := default [] (rows !! 0) in
  inr (mkSheet rows (Some (updateCols (sheetCols sheet) headers statusColumnIndex))).

(** The number of Status columns of a header row. *)
Definition statusColumns (headers : list Cell) : nat :=
  length (filter (λ h, isStatusHeader h = true) headers).

(** The content of the last column (the column under the last header) in
    every data row. *)
Definition lastColumn (rows : list (list Cell)) : list (option Cell) :=
  let k := length (headerOf rows) - 1 in
  (λ row : list Cell, row !! k) <$> drop 1 rows.

(** A rectangular array: every row is as long as the header row, which
    is what [sheet_to_json] returns under [defval: '']. *)
Definition rectangular (rows : list (list Cell)) : Prop :=
  Forall (λ row, length row = length (headerOf rows)) rows.

(** ** Notions used to state the properties of the report generator *)

(** The four statuses of the priority order. *)
Definition priorityStatuses : list string :=
  ["Billed"; "Appt. Cancelled"; "Success"; "Failed"].

Definition hasPriorityStatus (results : list PatientResult) : Prop :=
  ∃ s, s ∈ priorityStatuses ∧ s ∈ statusesOf results.

(** The header row that [locateStatusColumn] leaves. *)
Definition locatedHeader (h : list Cell) : list Cell :=
  match findIndex isStatusHeader h with
  | None => h ++ [CStr "Status"]
  | Some k => if k + 1 <? length h then delete k h ++ [CStr "Status"] else h
  end.

(** Lines 252-254 on the content [c] of the cell. *)
Definition notProcessedOr (c : Cell) : Cell :=
  if cellIsEmpty c then CStr "Not Processed" else c.

(** Lines 244-255: what the loop leaves in the Status cell of the row at
    index [i] when the cell held [c]. *)
Definition statusValue (resultsMap : gmap nat (list PatientResult)) (i : nat) (c : Cell) : Cell :=
  match resultsMap !! (i + 1) with
  | Some rowResults =>
      if 0 <? length rowResults then CStr (aggregateStatus rowResults)
      else notProcessedOr c
  | None => notProcessedOr c
  end.

(** Whether the sheet keeps its Status column: the first Status header is
    the last header. *)
Definition keptColumn (rows : list (list Cell)) : bool :=
  match findIndex isStatusHeader (headerOf rows) with
  | Some k => negb (k + 1 <? length (headerOf rows))
  | None => false
  end.

(** The content of the Status cell of a data row before the loop of
    lines 234-256: the cell of the kept column, or the empty string of a
    column that was appended. *)
Definition priorCell (rows : list (list Cell)) (row : list Cell) : Cell :=
  if keptColumn rows
  then default (CStr "") (row !! (length (headerOf rows) - 1))
  else CStr "".

(** * index.js *)

(** ** Input rows, session flags, driver calls *)

(** A row object of [excelData.validRows]: the row number given by the
    reader and the string-valued properties, looked up by name.  A
    property that is absent reads as [""], falsy like [undefined]. *)
Record Row := mkRow {
  _rowNumber : nat;
  fields : gmap string string
}.

Definition field (row : Row) (k : string) : string := default "" (fields row !! k).

(** [row._rowNumber || rowIndex + 1] *)
Definition rowNumberOr (row : Row) (rowIndex : nat) : nat :=
  if _rowNumber row =? 0 then rowIndex + 1 else _rowNumber row.

(** The module-level flags of lines 22-25. *)
Record Flags := mkFlags {
  claimsClickedOnce : bool;
  accountsPageNavigated : bool;
  entitySourceFilterApplied : bool;
  assessmentResourceFilterApplied : bool
}.

Definition initialFlags : Flags := mkFlags false false false false.

(** A located element (a Playwright locator). *)
Definition Handle := nat.

(** The interactions with the browser.  Each stands for the [await]ed
    Playwright calls of the lines given; it either completes with a value
    or throws. *)
Inductive Action :=
| ALogin                                   (* 348-368 startQHSLabSession *)
| AClaimsButton                            (* 93-97 *)
| AWaitClaimsHeading                       (* 114-115 *)
| ACustomIdStrategy (i : nat)              (* 123-269, strategy number i *)
| AWaitVisible (h : Handle)                (* 276 *)
| AClick (h : Handle)                      (* 277 *)
| AGotoAccounts                            (* 1256-1260 *)
| AOperations                              (* 1273-1278 *)
| AWait (ms : nat)                         (* page.waitForTimeout(ms) *)
| AEntitySource                            (* 1296-1301 *)
| AAssessment                              (* 1314-1393 *)
| AFillCustomId (v : string)               (* 1411-1417 *)
| AFillMrn (v : string)                    (* 1430-1436 *)
| AApptDate (v endDate : string)           (* 1455-1611 *)
| ACountRows                               (* 1623-1628 *)
| AOpenRecord (patientIndex : nat)         (* 398-427 *)
| AOpenForm                                (* 430-456 *)
| AFillDos (v : string)                    (* 478-530 *)
| AFillIcd (v : string)                    (* 543-1005 *)
| ASaveVisible                             (* 1021, 1138 *)
| ASelectBillingStatus (target : string)   (* 1052-1114 *)
| ASave                                    (* 1126-1127 *)
| ACloseForm                               (* 1141-1145 *)
| AWaitTable                               (* 1164-1165 *)
| ACloseModal.                             (* 1200-1204 *)

#[global] Instance Action_eq_dec : EqDecision Action.
Proof. solve_decision. Defined.

(** The value an interaction completes with: the located filter, the
    number of matching rows, [billingStatusSet], visibility of the Save
    button. *)
Definition Res (a : Action) : Type :=
  match a with
  | ACustomIdStrategy _ => Handle
  | ACountRows => nat
  | ASelectBillingStatus _ => bool
  | ASaveVisible => bool
  | _ => unit
  end.

(** The console lines that report an outcome, by source line. *)
Inductive LogMsg :=
| LClaimsAlreadyClicked                    (* 89 *)
| LClaimsClicked                           (* 99 *)
| LClaimsFailed (e : string)               (* 101 *)
| LClaimsHeadingMissing                    (* 117 *)
| LTrying (i : nat)                        (* 274 *)
| LStrategyOk (i : nat)                    (* 278 *)
| LStrategyFailed (i : nat) (e : string)   (* 281 *)
| LCancelled (billing : string)            (* 471 *)
| LDosFailed (e : string)                  (* 532 *)
| LNoDos                                   (* 536 *)
| LIcdFailed (e : string)                  (* 1007 *)
| LNoIcd                                   (* 1011 *)
| LFormClosed                              (* 1023 *)
| LBillingTarget (target : string)         (* 1039, 1043, 1048 *)
| LFormClosedAfterSave                     (* 1147, 1151 *)
| LTableMissing (e : string)               (* 1168 *)
| LPatientDone (status : string)           (* 1191 *)
| LPatientFailed (e : string)              (* 1196 *)
| LDryRun                                  (* 1227 *)
| LAlreadyOnClaims                         (* 1267 *)
| LOperationsIssue (e : string)            (* 1282 *)
| LEntitySourceApplied                     (* 1303 *)
| LEntitySourceFailed (e : string)         (* 1305 *)
| LAssessmentApplied                       (* 1395 *)
| LAssessmentFailed (e : string)           (* 1397 *)
| LCustomIdUpdated                         (* 1418 *)
| LCustomIdFailed (e : string)             (* 1420 *)
| LNoCustomId                              (* 1424 *)
| LMrnUpdated                              (* 1437 *)
| LApptDateUpdated                         (* 1613 *)
| LApptDateFailed (e : string)             (* 1615 *)
| LNoApptDate                              (* 1619 *)
| LFound (patientCount : nat)              (* 1630 *)
| LNoPatients                              (* 1633 *)
| LCompleted (patientCount : nat)          (* 1664 *)
| LRowFailed (e : string)                  (* 1668 *)
| LPageClosed                              (* 1751 *)
| LMainLoopError (e : string)              (* 1778 *)
| LStopping                                (* 1799 *)
| LContinuing.                             (* 1804 *)

(** What an observer of the run sees: a driver call with the message it
    threw ([None] when it completed), or a console line. *)
Inductive Event :=
| Did (a : Action) (error : option string)
| Log (m : LogMsg).

#[global] Instance LogMsg_eq_dec : EqDecision LogMsg.
Proof. solve_decision. Defined.

#[global] Instance Event_eq_dec : EqDecision Event.
Proof. solve_decision. Defined.

(** The environment of a run: the browser driver (the state of the page,
    what each interaction does to it, [page.isClosed()]), the
    configuration flag [CONFIG.DRY_RUN] and [formatDate] of
    excelReader.js on the string form of a date. *)
Record Env := mkEnv {
  Page : Type;
  perform : ∀ a : Action, Page → (string + Res a) * Page;
  isClosed : Page → bool;
  DRY_RUN : bool;
  formatDate : string → string
}.

(** The state a run threads: the page, the module-level flags, and the
    mutable locals [result] of [processPatientClaim], [allResults] of
    [processRow] and [results] of the main function. *)
Record World (env : Env) := mkWorld {
  page : Page env;
  flags : Flags;
  result : PatientResult;
  allResults : list PatientResult;
  results : list PatientResult
}.

Arguments mkWorld {env}.
Arguments page {env}.
Arguments flags {env}.
Arguments result {env}.
Arguments allResults {env}.
Arguments results {env}.

(** ** Computations that may throw *)

(** What running an asynchronous function body gives: a thrown message
    ([inl]) or a value ([inr]), the state it leaves, and the events it
    produced, in order. *)
Record Run (env : Env) (A : Type) := mkRun {
  outcome : string + A;
  after : World env;
  events : list Event
}.

Arguments mkRun {env A}.
Arguments outcome {env A}.
Arguments after {env A}.
Arguments events {env A}.

Definition M (env : Env) (A : Type) : Type := World env → Run env A.

Definition ret {env A} (a : A) : M env A := λ w, mkRun (inr a) w [].

(** Sequencing: a throw skips what follows. *)
Definition bindM {env A B} (m : M env A) (k : A → M env B) : M env B := λ w,
  let r := m w in
  match outcome r with
  | inr a =>
      let r' := k a (after r) in
      mkRun (outcome r') (after r') (events r ++ events r')
  | inl e => mkRun (inl e) (after r) (events r)
  end.

Declare Scope js_scope.
Delimit Scope js_scope with js.
Bind Scope js_scope with M.
Notation "x <- m ;; k" := (bindM m (λ x, k))
  (at level 100, m at next level, k at level 200, right associativity) : js_scope.
Notation "m ;; k" := (bindM m (λ _, k))
  (at level 100, k at level 200, right associativity) : js_scope.
Open Scope js_scope.

(** [throw new Error(e)] *)
Definition throw {env A} (e : string) : M env A := λ w, mkRun (inl e) w [].

(** [try { m } catch (error) { h(error) }]: the state changes made before
    the throw stay. *)
Definition try_catch {env A} (m : M env A) (h : string → M env A) : M env A := λ w,
  let r := m w in
  match outcome r with
  | inl e =>
      let r' := h e (after r) in
      mkRun (outcome r') (after r') (events r ++ events r')
  | inr a => r
  end.

Definition errorOf {A} (r : string + A) : option string :=
  match r with inl e => Some e | inr _ => None end.

Section Automation.
Context {env : Env}.

Definition setPage (p : Page env) (w : World env) : World env :=
  mkWorld p (flags w) (result w) (allResults w) (results w).

Definition setFlags (f : Flags) (w : World env) : World env :=
  mkWorld (page w) f (result w) (allResults w) (results w).

Definition setResult (r : PatientResult) (w : World env) : World env :=
  mkWorld (page w) (flags w) r (allResults w) (results w).

Definition setAllResults (l : list PatientResult) (w : World env) : World env :=
  mkWorld (page w) (flags w) (result w) l (results w).

Definition setResults (l : list PatientResult) (w : World env) : World env :=
  mkWorld (page w) (flags w) (result w) (allResults w) l.

(** Reading and changing the state. *)
Definition gets {A} (f : World env → A) : M env A := λ w, mkRun (inr (f w)) w [].

Definition modify (f : World env → World env) : M env unit := λ w, mkRun (inr tt) (f w) [].

(** [await] of a driver interaction; the call and its outcome are
    observed. *)
Definition call (a : Action) : M env (Res a) := λ w,
  let '(r, p) := perform env a (page w) in
  mkRun r (setPage p w) [Did a (errorOf r)].

(** [console.log] / [console.error] *)
Definition log (m : LogMsg) : M env unit := λ w, mkRun (inr tt) w [Log m].

(** [page.isClosed()] *)
Definition pageIsClosed : M env bool := gets (λ w, isClosed env (page w)).

(** ** Claims button, lines 87-104 *)

Definition setClaimsClickedOnce (f : Flags) : Flags :=
  mkFlags true (accountsPageNavigated f) (entitySourceFilterApplied f)
    (assessmentResourceFilterApplied f).

Definition setAccountsPageNavigated (f : Flags) : Flags :=
  mkFlags (claimsClickedOnce f) true (entitySourceFilterApplied f)
    (assessmentResourceFilterApplied f).

Definition setEntitySourceFilterApplied (f : Flags) : Flags :=
  mkFlags (claimsClickedOnce f) (accountsPageNavigated f) true
    (assessmentResourceFilterApplied f).

Definition setAssessmentResourceFilterApplied (f : Flags) : Flags :=
  mkFlags (claimsClickedOnce f) (accountsPageNavigated f)
    (entitySourceFilterApplied f) true.

Definition clickClaimsOnce : M env unit :=
  clicked <- gets (λ w, claimsClickedOnce (flags w));;
  if clicked then log LClaimsAlreadyClicked
  else
    try_catch
      (call AClaimsButton;;
       modify (λ w, setFlags (setClaimsClickedOnce (flags w)) w);;
       log LClaimsClicked)
      (λ error, log (LClaimsFailed error);; throw error).

(** ** Custom ID filter, lines 109-287 *)

(** One turn of the loop of lines 272-286 for the strategy at index [i]
    of [n]: [true] when the function returned from inside [try]. *)
Definition tryStrategy (strategy : M env Handle) (i n : nat) : M env bool :=
  try_catch
    (log (LTrying (i + 1));;
     filter <- strategy;;
     call (AWaitVisible filter);;
     call (AClick filter);;
     log (LStrategyOk (i + 1));;
     ret true)
    (λ error,
       log (LStrategyFailed (i + 1) error);;
       if i =? n - 1
       then throw ("All strategies failed to find Custom ID filter. Last error: " +:+ error)
       else ret false).

(** The loop of lines 272-286 from index [i], over the strategies that
    are left; [n] is [strategies.length]. *)
Fixpoint tryStrategiesFrom (strategies : list (M env Handle)) (i n : nat) : M env unit :=
  match strategies with
  | [] => ret tt
  | strategy :: rest =>
      returned <- tryStrategy strategy i n;;
      if returned then ret tt else tryStrategiesFrom rest (S i) n
  end.

Definition tryStrategies (strategies : list (M env Handle)) : M env unit :=
  tryStrategiesFrom strategies 0 (length strategies).

(** The five strategies of lines 121-270. *)
Definition customIdStrategies : list (M env Handle) :=
  (λ i, call (ACustomIdStrategy i) : M env Handle) <$> [1; 2; 3; 4; 5].

Definition clickCustomIdFilter : M env unit :=
  try_catch (call AWaitClaimsHeading) (λ _, log LClaimsHeadingMissing);;
  tryStrategies customIdStrategies.

(** ** One patient entry, lines 374-1213 *)

(** Lines 459-466. *)
Definition excelBillingStatus (excelRow : Row) : string :=
  trim
    (or_else (field excelRow "billingStatus")
    (or_else (field excelRow "billing status")
    (or_else (field excelRow "billingstatus")
    (or_else (field excelRow "qhs billing status")
    (or_else (field excelRow "qhsbillingstatus") ""))))).

(** Line 468. *)
Definition isCancelledAppointment (excelRow : Row) : bool :=
  negb (String.eqb (toUpperCase (excelBillingStatus excelRow)) "QHSLAB").

(** Lines 475, 540. *)
Definition dosValue (excelRow : Row) : string :=
  or_else (field excelRow "dosFormatted") (or_else (field excelRow "dos") "").

Definition icdValue (excelRow : Row) : string :=
  or_else (field excelRow "icd")
    (or_else (field excelRow "icd code") (or_else (field excelRow "icd codes") "")).

(** Lines 474-1012: the branch for an appointment that is not
    cancelled. *)
Definition fillServiceFields (excelRow : Row) : M env unit :=
  (if truthy (dosValue excelRow)
   then try_catch (call (AFillDos (dosValue excelRow))) (λ error, log (LDosFailed error))
   else log LNoDos);;
  (if truthy (icdValue excelRow)
   then try_catch (call (AFillIcd (icdValue excelRow))) (λ error, log (LIcdFailed error))
   else log LNoIcd).

(** Lines 1033-1049. *)
Definition targetBillingStatus (excelRow : Row) : string :=
  if String.eqb (toUpperCase (excelBillingStatus excelRow)) "QHSLAB" then "Billed"
  else if truthy (excelBillingStatus excelRow) then "Appt. Cancelled"
  else "Appt. Cancelled".

Definition patientLabel (r : PatientResult) (total : nat) : string :=
  "Patient " +:+ pretty (patientIndex r) +:+ "/" +:+ pretty total.

(** Lines 1176-1190: the status and notes of a saved entry. *)
Definition savedResult (r : PatientResult) (total : nat) (billingStatusSet : bool)
  : PatientResult :=
  let label := patientLabel r total in
  let '(status, notes) :=
    if billingStatusSet then
      if String.eqb (billingStatus r) "Billed"
      then ("Billed", label +:+ " processed successfully - Marked as Bill ed")
      else if String.eqb (billingStatus r) "Appt. Cancelled"
      then ("Appt. Cancelled", label +:+ " processed successfully - Marked as Appt. Cancelled")
      else ("Success", label +:+ " processed successfully")
    else ("Success", label +:+ " processed successfully (billing status not set)") in
  mkResult (rowNumber r) (mrn r) (patientIndex r) (totalPatients r)
    status (billingStatus r) (errorMessage r) notes.

Definition withBillingStatus (target : string) (r : PatientResult) : PatientResult :=
  mkResult (rowNumber r) (mrn r) (patientIndex r) (totalPatients r)
    (status r) target (errorMessage r) (notes r).

(** Lines 1194-1195. *)
Definition failedResult (error : string) (r : PatientResult) : PatientResult :=
  mkResult (rowNumber r) (mrn r) (patientIndex r) (totalPatients r)
    "Failed" (billingStatus r) error (notes r).

(** The [try] block of lines 394-1191. *)
Definition patientSteps (excelRow : Row) (patientIndex totalPatients : nat) : M env unit :=
  call (AOpenRecord patientIndex);;
  call AOpenForm;;
  (if isCancelledAppointment excelRow
   then log (LCancelled (excelBillingStatus excelRow))
   else fillServiceFields excelRow);;
  closed <- pageIsClosed;;
  (if closed then throw "Page closed before setting billing status" else ret tt);;
  formStillOpen <- try_catch (call ASaveVisible) (λ _, ret false);;
  (if formStillOpen then ret tt else log LFormClosed);;
  let targetBillingStatus := targetBillingStatus excelRow in
  log (LBillingTarget targetBillingStatus);;
  billingStatusSet <- call (ASelectBillingStatus targetBillingStatus);;
  modify (λ w, setResult (withBillingStatus targetBillingStatus (result w)) w);;
  closed <- pageIsClosed;;
  (if closed then throw "Page closed before clicking Save button" else ret tt);;
  try_catch (call ASave)
    (λ saveError,
       closed <- pageIsClosed;;
       if closed then throw "Page closed during save" else throw saveError);;
  try_catch
    (formStillOpen <- try_catch (call ASaveVisible) (λ _, ret false);;
     if formStillOpen then call ACloseForm else log LFormClosedAfterSave)
    (λ _, log LFormClosedAfterSave);;
  call (AWait 2000);;
  closed <- pageIsClosed;;
  (if closed then throw "Page closed after save" else ret tt);;
  try_catch (call AWaitTable) (λ error, log (LTableMissing error));;
  modify (λ w, setResult (savedResult (result w) totalPatients billingStatusSet) w);;
  st <- gets (λ w, status (result w));;
  log (LPatientDone st).

Definition processPatientClaim (excelRow : Row) (patientIndex totalPatients : nat)
  : M env PatientResult :=
  modify (setResult
    (mkResult (_rowNumber excelRow) (field excelRow "mrn") (patientIndex + 1)
       totalPatients "Unknown" "" "" ""));;
  try_catch (patientSteps excelRow patientIndex totalPatients)
    (λ error,
       modify (λ w, setResult (failedResult error (result w)) w);;
       log (LPatientFailed error);;
       try_catch (call ACloseModal) (λ _, ret tt));;
  gets result.

(** ** One row, lines 1219-1688 *)

(** [allResults.push(r)] *)
Definition pushAllResults (r : PatientResult) : M env unit :=
  modify (λ w, setAllResults (allResults w ++ [r]) w).

(** The row-level result objects of lines 1228-1243, 1634-1649,
    1669-1684, 1753-1768 and 1780-1795. *)
Definition rowResult (row : Row) (rowIndex : nat) (status errorMessage notes : string)
  : PatientResult :=
  mkResult (rowNumberOr row rowIndex) (field row "mrn") 0 0 status "" errorMessage notes.

(** Lines 1253-1268. *)
Definition navigateToAccountsOnce : M env unit :=
  navigated <- gets (λ w, accountsPageNavigated (flags w));;
  if navigated then log LAlreadyOnClaims
  else
    try_catch
      (call AGotoAccounts;;
       modify (λ w, setFlags (setAccountsPageNavigated (flags w)) w))
      (λ error, throw ("Failed to navigate to Accounts page: " +:+ error)).

(** Lines 1271-1288. *)
Definition openClaimsOnce : M env unit :=
  clicked <- gets (λ w, claimsClickedOnce (flags w));;
  if clicked then call (AWait 1000)
  else
    try_catch
      (call AOperations;;
       clickClaimsOnce;;
       call (AWait 1000))
      (λ error, log (LOperationsIssue error)).

(** Lines 1293-1308. *)
Definition applyEntitySourceOnce : M env unit :=
  applied <- gets (λ w, entitySourceFilterApplied (flags w));;
  if applied then ret tt
  else
    try_catch
      (call AEntitySource;;
       modify (λ w, setFlags (setEntitySourceFilterApplied (flags w)) w);;
       log LEntitySourceApplied)
      (λ error, log (LEntitySourceFailed error)).

(** Lines 1311-1400. *)
Definition applyAssessmentOnce : M env unit :=
  applied <- gets (λ w, assessmentResourceFilterApplied (flags w));;
  if applied then ret tt
  else
    try_catch
      (call AAssessment;;
       modify (λ w, setFlags (setAssessmentResourceFilterApplied (flags w)) w);;
       log LAssessmentApplied)
      (λ error, log (LAssessmentFailed error)).

(** Lines 1409-1418: the [try] block of step 1. *)
Definition customIdFilterSteps (row : Row) : M env unit :=
  clickCustomIdFilter;;
  call (AFillCustomId (trim (field row "customId")));;
  log LCustomIdUpdated.

(** Lines 1407-1425: step 1, the Custom ID filter. *)
Definition updateCustomIdFilter (row : Row) : M env unit :=
  if truthy (field row "customId") && truthy (trim (field row "customId"))
  then try_catch (customIdFilterSteps row) (λ error, log (LCustomIdFailed error))
  else log LNoCustomId.

(** Lines 1428-1440: step 2, the MRN filter. *)
Definition updateMrnFilter (row : Row) : M env unit :=
  try_catch
    (call (AFillMrn (or_else (field row "mrn") ""));;
     log LMrnUpdated)
    (λ error, throw ("Failed to apply MRN filter: " +:+ error)).

(** Lines 1444-1448. *)
Definition appointmentDateValue (row : Row) : string :=
  or_else (field row "appointmentDateFormatted")
  (or_else (field row "orig appt. date")
  (or_else (field row "orig appt date")
  (or_else (field row "original appointment date")
     (if truthy (field row "appointmentDate")
      then formatDate env (field row "appointmentDate") else "")))).

(** Lines 1452-1613: the [try] block of step 3. *)
Definition appointmentDateFilterSteps (row : Row) : M env unit :=
  let value := appointmentDateValue row in
  call (AApptDate value (or_else (field row "appointmentDateFormatted") value));;
  log LApptDateUpdated.

(** Lines 1450-1620: step 3, the Appointment Date filter. *)
Definition updateAppointmentDateFilter (row : Row) : M env unit :=
  if truthy (appointmentDateValue row)
  then try_catch (appointmentDateFilterSteps row) (λ error, log (LApptDateFailed error))
  else log LNoApptDate.

(** Lines 1654-1662: the loop over the matched entries, from index [i]
    with [todo] turns left. *)
Fixpoint patientsLoop (row : Row) (i todo patientCount : nat) : M env unit :=
  match todo with
  | 0 => ret tt
  | S todo =>
      r <- processPatientClaim row i patientCount;;
      pushAllResults r;;
      (if i <? patientCount - 1 then call (AWait 1000) else ret tt);;
      patientsLoop row (S i) todo patientCount
  end.

(** Lines 1622-1664: count the matching entries and process each. *)
Definition processPatients (row : Row) (rowIndex : nat) : M env unit :=
  patientCount <- call ACountRows;;
  log (LFound patientCount);;
  if patientCount =? 0
  then
    log LNoPatients;;
    pushAllResults
      (rowResult row rowIndex "Skipped" "No patients found with this MRN"
         "No matching patients in table")
  else
    patientsLoop row 0 patientCount patientCount;;
    log (LCompleted patientCount).

(** Lines 1402-1664: the three filters of the row and its entries. *)
Definition filterAndProcess (row : Row) (rowIndex : nat) : M env unit :=
  updateCustomIdFilter row;;
  updateMrnFilter row;;
  updateAppointmentDateFilter row;;
  processPatients row rowIndex.

(** The [try] block of lines 1223-1665 when automation runs. *)
Definition rowSteps (row : Row) (rowIndex : nat) : M env unit :=
  closed <- pageIsClosed;;
  (if closed then throw "Page was closed unexpectedly. Cannot continue processing."
   else ret tt);;
  navigateToAccountsOnce;;
  openClaimsOnce;;
  applyEntitySourceOnce;;
  applyAssessmentOnce;;
  filterAndProcess row rowIndex.

(** [processRow(page, row, rowIndex)]; [havePage] is false when [page] is
    [null]. *)
Definition processRow (havePage : bool) (row : Row) (rowIndex : nat)
  : M env (list PatientResult) :=
  modify (setAllResults []);;
  try_catch
    (if DRY_RUN env || negb havePage
     then
       log LDryRun;;
       pushAllResults
         (rowResult row rowIndex "Skipped (Dry Run)" ""
            "Dry run mode - no automation executed")
     else rowSteps row rowIndex)
    (λ error,
       log (LRowFailed error);;
       pushAllResults
         (rowResult row rowIndex "Failed" error ("Error processing MRN: " +:+ error)));;
  gets allResults.

(** ** The main loop, lines 1736-1806 *)

(** [results.push(...l)] *)
Definition pushResults (l : list PatientResult) : M env unit :=
  modify (λ w, setResults (results w ++ l) w).

(** One turn for the row at index [i] of [n]; [true] when the loop is
    left by [break]. *)
Definition rowTurn (row : Row) (i n : nat) : M env bool :=
  try_catch
    (if DRY_RUN env
     then
       rowResults <- processRow false row i;;
       pushResults rowResults;;
       ret false
     else
       closed <- pageIsClosed;;
       if negb closed
       then
         rowResults <- processRow true row i;;
         pushResults rowResults;;
         (if i <? n - 1 then call (AWait 2000) else ret tt);;
         ret false
       else
         log LPageClosed;;
         pushResults
           [rowResult row i "Failed" "Page closed unexpectedly"
              "Page closed - cannot continue processing"];;
         ret true)
    (λ error,
       log (LMainLoopError error);;
       pushResults [rowResult row i "Failed" error ("Error in main loop: " +:+ error)];;
       closed <- pageIsClosed;;
       if negb (DRY_RUN env) && closed
       then log LStopping;; ret true
       else log LContinuing;; ret false).

Fixpoint rowsLoop (rows : list Row) (i n : nat) : M env unit :=
  match rows with
  | [] => ret tt
  | row :: rest =>
      stop <- rowTurn row i n;;
      if stop then ret tt else rowsLoop rest (S i) n
  end.

(** The result object of a row that failed validation, lines 1710-1725. *)
Definition invalidResult (row : Row) (errors : list string) : PatientResult :=
  mkResult (_rowNumber row) (field row "mrn") 0 0 "Skipped" ""
    (join "; " errors) "Row validation failed".

(** Lines 1697-1806: from the loaded rows to the results handed to
    [updateOriginalExcel]. *)
Definition main (validRows : list Row) (invalidRows : list (Row * list string))
  : M env (list PatientResult) :=
  modify (setResults []);;
  if length validRows =? 0 then gets results
  else
    pushResults ((λ x, invalidResult x.1 x.2) <$> invalidRows);;
    (if DRY_RUN env then ret tt else call ALogin);;
    rowsLoop validRows 0 (length validRows);;
    gets results.

End Automation.

(** The state in which a run starts: no flag set, nothing recorded. *)
Definition initialWorld {env : Env} (p : Page env) : World env :=
  mkWorld p initialFlags (mkResult 0 "" 0 0 "" "" "" "") [] [].

(** ** Scripted drivers

    A driver whose page has no state: an interaction throws the message
    that [fails] gives for it, or completes; [ACountRows] finds
    [patientCount] entries, a strategy for the Custom ID filter locates
    the element of its own number, the billing status gets set and the
    Save button is not visible after saving.  The page never closes and
    [formatDate] is the identity. *)
Definition scriptedRes (patientCount : nat) (a : Action) : Res a :=
  match a return Res a with
  | ACustomIdStrategy i => i
  | ACountRows => patientCount
  | ASelectBillingStatus _ => true
  | ASaveVisible => false
  | _ => tt
  end.

Definition scriptedEnv (fails : Action → option string) (patientCount : nat)
    (dryRun : bool) : Env :=
  mkEnv unit
    (λ a p,
       match fails a with
       | Some e => (inl e, p)
       | None => (inr (scriptedRes patientCount a), p)
       end)
    (λ _, false) dryRun (λ d, d).

(** ** Notions used to state the properties of the automation *)

(** A property [R] of the state before, the state after and the events
    of a computation holds of every run of [m]. *)
Definition respects {env A} (R : World env → World env → list Event → Prop)
    (m : M env A) : Prop :=
  ∀ w, R w (after (m w)) (events (m w)).

(** The session gates and, for each, the flag that records it and the
    interaction it guards. *)
Inductive Gate := GAccounts | GClaims | GEntitySource | GAssessment.

Definition gateFlag (g : Gate) (f : Flags) : bool :=
  match g with
  | GAccounts => accountsPageNavigated f
  | GClaims => claimsClickedOnce f
  | GEntitySource => entitySourceFilterApplied f
  | GAssessment => assessmentResourceFilterApplied f
  end.

Definition gateAction (g : Gate) : Action :=
  match g with
  | GAccounts => AGotoAccounts
  | GClaims => AClaimsButton
  | GEntitySource => AEntitySource
  | GAssessment => AAssessment
  end.

(** Whether an event is an attempt of the interaction [a], and whether
    it is an attempt that completed. *)
Definition isAttempt (a : Action) (ev : Event) : bool :=
  match ev with
  | Did a' _ => bool_decide (a' = a)
  | Log _ => false
  end.

Definition isCompletion (a : Action) (ev : Event) : bool :=
  match ev with
  | Did a' None => bool_decide (a' = a)
  | _ => false
  end.

(** The number of times the interaction [a] was attempted, and the
    number of times it completed, among the events [evs]. *)
Definition attempts (a : Action) (evs : list Event) : nat :=
  length (filter (λ ev, isAttempt a ev = true) evs).

Definition completions (a : Action) (evs : list Event) : nat :=
  length (filter (λ ev, isCompletion a ev = true) evs).

(** A property of runs that holds of the empty run and of two runs put
    one after the other. *)
Class Sequential {env} (R : World env → World env → list Event → Prop) := {
  seq_nil : ∀ w, R w w [];
  seq_app : ∀ w1 w2 w3 e1 e2, R w1 w2 e1 → R w2 w3 e2 → R w1 w3 (e1 ++ e2)
}.

(** Every event of the run satisfies [S]. *)
Definition emitsOnly {env} (S : Event → Prop) : World env → World env → list Event → Prop :=
  λ _ _ evs, Forall S evs.


Definition isLog (ev : Event) : bool :=
  match ev with Did _ _ => false | Log _ => true end.

(** The console lines among the events. *)
Definition consoleOf (evs : list Event) : list Event :=
  filter (λ ev, isLog ev = true) evs.



(** No flag that is set gets cleared. *)
Definition flagsKept {env} : World env → World env → list Event → Prop :=
  λ w w' _, ∀ g, gateFlag g (flags w) = true → gateFlag g (flags w') = true.

(** What a run does about the gate [g]: with the flag set it leaves it
    set and does not attempt the guarded interaction; with the flag
    clear it either leaves it clear, and then the interaction never
    completed, or sets it, and then the interaction completed once and
    was not attempted again. *)
Definition gateSummary {env} (g : Gate) : World env → World env → list Event → Prop :=
  λ w w' evs,
    if gateFlag g (flags w)
    then gateFlag g (flags w') = true ∧ attempts (gateAction g) evs = 0
    else if gateFlag g (flags w')
    then ∃ e1 e2, evs = e1 ++ Did (gateAction g) None :: e2 ∧
           completions (gateAction g) e1 = 0 ∧ attempts (gateAction g) e2 = 0
    else completions (gateAction g) evs = 0.

(** The run leaves [allResults] as it is. *)
Definition allResultsKept {env} : World env → World env → list Event → Prop :=
  λ w w' _, allResults w' = allResults w.



Definition isMrnEvent (ev : Event) : bool :=
  match ev with
  | Did (AFillMrn _) _ => true
  | Log LMrnUpdated => true
  | _ => false
  end.







Definition mrnFilterFails (a : Action) : option string :=
  match a with
  | AFillMrn _ => Some "Timeout 5000ms exceeded"
  | _ => None
  end.

Definition nothingFails (a : Action) : option string := None.

(** Rows for the examples. *)
Definition billableRow : Row :=
  mkRow 2 (list_to_map [("mrn", "1001"); ("billing status", "QHSLAB")]).

Definition cancelledRow : Row :=
  mkRow 3 (list_to_map [("mrn", "1002"); ("dos", "01/15/2026"); ("icd", "F33.1");
                        ("billing status", "No Show")]).

Definition fullRow : Row :=
  mkRow 4 (list_to_map [("mrn", "1003"); ("customId", "C-7"); ("dosFormatted", "01/15/2026");
                        ("icd", "F33.1"); ("billing status", " qhslab ")]).

(** The run emits events of the class [c] only and leaves [allResults]
    as it is. *)
Definition quietly {env} (c : Event → bool) : World env → World env → list Event → Prop :=
  λ w w' evs, Forall (λ ev, c ev = true) evs ∧ allResults w' = allResults w.




(** ** Data for the examples *)

Definition exampleResult (status : string) : PatientResult :=
  mkResult 2 "1001" 1 2 status "" "" "".

(** A row of two entries, one billed and one failed. *)
Definition billedAndFailed : list PatientResult :=
  [exampleResult "Billed"; exampleResult "Failed"].

(** A sheet whose Status column comes first. *)
Definition misplacedStatusSheet : Sheet :=
  mkSheet [[CStr "status"; CStr "MRN"];
           [CStr "old"; CStr "1001"];
           [CStr ""; CStr "1002"]] None.

(** A result for the row of the sheet that holds MRN 1002. *)
Definition resultsForRow3 : list PatientResult :=
  [mkResult 3 "1002" 1 1 "Billed" "Billed" "" ""].

(** A sheet with two Status columns. *)
Definition twoStatusSheet : Sheet :=
  mkSheet [[CStr "Status"; CStr "Status"]; [CStr "a"; CStr "b"]] None.

(** A sheet whose Status cells hold the number 0 and the text "0". *)
Definition zeroStatusSheet : Sheet :=
  mkSheet [[CStr "MRN"; CStr "Status"];
           [CStr "1001"; CNum 0];
           [CStr "1002"; CStr "0"]] None.


Definition mrnFilterFailsEnv : Env := scriptedEnv mrnFilterFails 1 false.
Definition nothingFailsEnv : Env := scriptedEnv nothingFails 1 false.

(** ** Further notions for the report generator *)

(** The results that refer to the row with Excel number [n], in the
    order of [results]. *)
Definition resultsOfRow (results : list PatientResult) (n : nat) : list PatientResult :=
  filter (λ r, rowNumber r = n) results.

(** A row without the cell of the first Status column of the header [h],
    when there is one. *)
Definition withoutStatusCell (h : list Cell) (row : list Cell) : list Cell :=
  match findIndex isStatusHeader h with
  | Some k => delete k row
  | None => row
  end.

(** A sheet with rows of different lengths and a Status column in the
    middle. *)
Definition raggedSheet : Sheet :=
  mkSheet [[CStr "MRN"; CStr "STATUS"; CStr "DOS"];
           [CStr "1001"];
           [CStr "1002"; CBool false; CStr "01/15/2026"; CStr "extra"]] None.

(** ** Further notions for the automation *)

(** The run of [m] from [w] returns a value and ends in a state, with
    events, that satisfy [Q], or throws a message and ends in a state,
    with events, that satisfy [E]. *)
Definition wp {env A} (m : M env A) (Q : A → World env → list Event → Prop)
    (E : string → World env → list Event → Prop) (w : World env) : Prop :=
  match outcome (m w) with
  | inr a => Q a (after (m w)) (events (m w))
  | inl e => E e (after (m w)) (events (m w))
  end.

(** A result refers to the row [row] at index [rowIndex]: it has the MRN
    of the row and its row number, which for a result of the row as a
    whole falls back on the index. *)
Definition belongsTo (row : Row) (rowIndex : nat) (r : PatientResult) : Prop :=
  mrn r = field row "mrn" ∧
  (rowNumber r = _rowNumber row ∨ rowNumber r = rowNumberOr row rowIndex).

(** Only the page changes: flags and recorded results stay. *)
Definition onlyPage {env} : World env → World env → list Event → Prop :=
  λ w w' _, flags w' = flags w ∧ result w' = result w ∧
            allResults w' = allResults w ∧ results w' = results w.

(** The results recorded by the main function stay. *)
Definition resultsKept {env} : World env → World env → list Event → Prop :=
  λ w w' _, results w' = results w.

(** The invariant of [result] in [processPatientClaim]: the row number,
    the MRN and the position stay, the billing status is empty or the
    target of the row, and a status Billed or Appt. Cancelled is the
    target of the row. *)
Definition entryInvariant (excelRow : Row) (r r' : PatientResult) : Prop :=
  rowNumber r' = rowNumber r ∧ mrn r' = mrn r ∧
  patientIndex r' = patientIndex r ∧ totalPatients r' = totalPatients r ∧
  ((billingStatus r = "" ∨ billingStatus r = targetBillingStatus excelRow) →
   (status r = "Billed" → targetBillingStatus excelRow = "Billed") →
   (status r = "Appt. Cancelled" → targetBillingStatus excelRow = "Appt. Cancelled") →
   (billingStatus r' = "" ∨ billingStatus r' = targetBillingStatus excelRow) ∧
   (status r' = "Billed" → targetBillingStatus excelRow = "Billed") ∧
   (status r' = "Appt. Cancelled" → targetBillingStatus excelRow = "Appt. Cancelled")).

Definition keepsEntry {env} (excelRow : Row) : World env → World env → list Event → Prop :=
  λ w w' _, entryInvariant excelRow (result w) (result w') ∧
            allResults w' = allResults w ∧ results w' = results w ∧ flags w' = flags w.


Definition dryRunEnv : Env := scriptedEnv nothingFails 1 true.

(** The result of a row in a dry run, lines 1228-1243. *)
Definition dryRunResult (row : Row) (rowIndex : nat) : PatientResult :=
  rowResult row rowIndex "Skipped (Dry Run)" "" "Dry run mode - no automation executed".

(** No event reports the completion of a row (line 1664). *)
Definition noCompleted (evs : list Event) : Prop :=
  Forall (λ ev, ∀ n, ev ≠ Log (LCompleted n)) evs.

(** The run does not report a completed row and leaves the recorded
    results as they are. *)
Definition rowQuiet {env} : World env → World env → list Event → Prop :=
  λ w w' evs, noCompleted evs ∧ allResults w' = allResults w ∧ results w' = results w.

(** The results of the [n] entries of a row, in the order of the
    listing: the positions are 1 to [n] and each result knows that there
    are [n]. *)
Definition oneResultPerEntry (n : nat) (res : list PatientResult) : Prop :=
  patientIndex <$> res = seq 1 n ∧ Forall (λ r, totalPatients r = n) res.

(** What holds when the steps of a row have completed, and when they
    have thrown; [rs] is what the main function had recorded before. *)
Definition rowDone {env} (row : Row) (rowIndex : nat) (rs : list PatientResult)
  : unit → World env → list Event → Prop :=
  λ _ w' evs,
    allResults w' ≠ [] ∧ Forall (belongsTo row rowIndex) (allResults w') ∧
    results w' = rs ∧
    (∀ n, Log (LCompleted n) ∈ evs → oneResultPerEntry n (allResults w')).

Definition rowThrew {env} (row : Row) (rowIndex : nat) (rs : list PatientResult)
  : string → World env → list Event → Prop :=
  λ _ w' evs,
    Forall (belongsTo row rowIndex) (allResults w') ∧ results w' = rs ∧ noCompleted evs.

(** The results of the rows that failed validation, as the main function
    records them (lines 1709-1726). *)
Definition invalidResults (invalidRows : list (Row * list string)) : list PatientResult :=
  (λ x, invalidResult x.1 x.2) <$> invalidRows.

(** The results [res] are those of the rows [rows], row by row: one
    group per row that was reached, in the order of the rows, each with a
    result at least, all of them results of that row; [i] is the index
    of the first row. *)
Definition groupedByRow (rows : list Row) (i : nat) (groups : list (list PatientResult))
  : Prop :=
  length groups ≤ length rows ∧
  ∀ j g, groups !! j = Some g →
    ∃ row, rows !! j = Some row ∧ g ≠ [] ∧ Forall (belongsTo row (i + j)) g.

(** A listing with two entries on which nothing fails. *)
Definition twoEntriesEnv : Env := scriptedEnv nothingFails 2 false.


(** A sheet with the two rows of the examples. *)
Definition twoRowSheet : Sheet :=
  mkSheet [[CStr "MRN"; CStr "Billing Status"];
           [CStr "1001"; CStr "QHSLAB"];
           [CStr "1002"; CStr "No Show"]] None.


(** A driver whose page is closed. *)
Definition closedPageEnv : Env :=
  mkEnv unit (λ a p, (inr (scriptedRes 1 a), p)) (λ _, true) false (λ d, d).

(** The result of the row at which the main loop finds the page closed,
    lines 1753-1768. *)
Definition pageClosedResult (row : Row) (i : nat) : PatientResult :=
  rowResult row i "Failed" "Page closed unexpectedly"
    "Page closed - cannot continue processing".

(** ** The two summaries *)

Record Summary := mkSummary {
  total : nat;
  success : nat;
  failed : nat;
  skipped : nat
}.

(** index.js, lines 1824-1829: the summary on the console. *)
Definition summary (results : list PatientResult) : Summary :=
  mkSummary (length results)
    (length (filter (λ r, status r = "Success") results))
    (length (filter (λ r, status r = "Failed") results))
    (length (filter (λ r, status r = "Skipped" ∨ includesStr (status r) "Skipped" = true)
               results)).

(** reportGenerator.js, lines 58-64: the counts of the Summary sheet of
    [generateReport]. *)
Definition reportSummary (results : list PatientResult) : Summary :=
  mkSummary (length results)
    (length (filter (λ r, status r = "Success") results))
    (length (filter (λ r, status r = "Failed") results))
    (length (filter (λ r, status r = "Skipped") results)).

(** The results that no count of the console summary covers. *)
Definition uncounted (results : list PatientResult) : list PatientResult :=
  filter (λ r, status r ≠ "Success" ∧ status r ≠ "Failed" ∧
               includesStr (status r) "Skipped" = false) results.

(** * excelReader.js *)

Module excelReader.

(** ** [parseCPTCodes], lines 285-291 *)

(** A character of the class [[,\s]] (ASCII range). *)
Definition isCptSeparator (c : ascii) : bool := Ascii.eqb c "," || is_space c.

(** [s.split(/[sep]+/)] for a class [isSep] of characters: the pieces
    between the runs of separators, with an empty piece before a run at
    the start and after a run at the end.  [inSep] tells that the
    character before was a separator, so that a run splits once. *)
Fixpoint splitRuns (isSep : ascii → bool) (inSep : bool) (s : string) : list string :=
  match s with
  | EmptyString => [""]
  | String c t =>
      if isSep c then
        if inSep then splitRuns isSep true t else "" :: splitRuns isSep true t
      else
        match splitRuns isSep false t with
        | piece :: rest => String c piece :: rest
        | [] => [String c ""]
        end
  end.

Definition parseCPTCodes (cptStr : string) : list string :=
  if negb (truthy cptStr) then []
  else filter (λ code, 0 < String.length code)
         (trim <$> splitRuns isCptSeparator false cptStr).

(** A string without any character of the class. *)
Definition freeOf (isSep : ascii → bool) (s : string) : Prop :=
  Forall (λ c, isSep c = false) (String.list_ascii_of_string s).

(** ** [findExcelFile], lines 341-383 *)

(** [s.endsWith(suffix)] *)
Fixpoint endsWith (s suffix : string) : bool :=
  String.eqb s suffix ||
  match s with
  | EmptyString => false
  | String _ t => endsWith t suffix
  end.

(** The two tests of lines 345-348 on a file name. *)
Definition isExcel (f : string) : bool :=
  let lower := toLowerCase f in
  endsWith lower ".xlsx" || endsWith lower ".xls".

Definition isReport (f : string) : bool :=
  let lower := toLowerCase f in
  includesStr lower "report" || includesStr lower "claims_processing_report".

(** [arr.sort(cmp)]: a stable sort, by insertion.  An element goes
    before the first element of the sorted rest that it does not have to
    come after. *)
Fixpoint insertBy {A} (cmp : A → A → Z) (x : A) (l : list A) : list A :=
  match l with
  | [] => [x]
  | y :: t => if (cmp x y <=? 0)%Z then x :: y :: t else y :: insertBy cmp x t
  end.

Definition sortBy {A} (cmp : A → A → Z) (l : list A) : list A :=
  foldr (insertBy cmp) [] l.

(** An entry of [fileStats], lines 375-379; [mtime] in milliseconds. *)
Record FileStat := mkFileStat {
  fileName : string;
  filePath : string;
  mtime : Z
}.

Section Directory.
(** The file system: [path.join] and the modification time of a file of
    the directory, by name. *)
Variable pathJoin : string → string → string.
Variable mtimeOf : string → Z.

(** [findExcelFile(directory, preferredName)], where [files] is what
    [fs.readdirSync(directory)] returns and an absent [preferredName] is
    the empty string. *)
Definition findExcelFile (files : list string) (directory preferredName : string)
  : string + string :=
  let xlsxFiles := filter (λ f, isExcel f && negb (isReport f) = true) files in
  let allXlsxFiles := filter (λ f, isExcel f = true) files in
  if (length xlsxFiles =? 0) && (length allXlsxFiles =? 0)
  then inl "No Excel files found in directory"
  else
    let xlsxFiles := if length xlsxFiles =? 0 then xlsxFiles ++ allXlsxFiles else xlsxFiles in
    let preferred :=
      if truthy preferredName
      then List.find (λ f, String.eqb (toLowerCase f) (toLowerCase preferredName) ||
                           includesStr (toLowerCase f) (toLowerCase preferredName))
             xlsxFiles
      else None in
    let fileStats :=
      sortBy (λ a b, mtime b - mtime a)%Z
        ((λ f, mkFileStat f (pathJoin directory f) (mtimeOf f)) <$> xlsxFiles) in
    let newest :=
      match fileStats with
      | first :: _ => inr (filePath first)
      | [] => inl "Cannot read properties of undefined (reading 'path')"
      end in
    match preferred with
    | Some f => if truthy f then inr (pathJoin directory f) else newest
    | None => newest
    end.

End Directory.

(** The files that [findExcelFile] chooses from: the Excel files that
    are no reports or, when there is none, all Excel files. *)
Definition candidates (files : list string) : list string :=
  match filter (λ f, isExcel f && negb (isReport f) = true) files with
  | [] => filter (λ f, isExcel f = true) files
  | l => l
  end.

(** A directory for the examples, with modification times. *)
Definition exampleFiles : list string :=
  ["notes.txt"; "claims_processing_report_2026.xlsx"; "january.xlsx"; "February.XLS"].

Definition exampleMtime (f : string) : Z :=
  if String.eqb f "january.xlsx" then 100%Z
  else if String.eqb f "February.XLS" then 200%Z
  else 300%Z.

Definition examplePathJoin (directory f : string) : string := directory +:+ "/" +:+ f.

(** ** Dates, lines 214-280 *)

(** What the code reads of a [Date]: the year, the month (0 to 11) and
    the day of the month, in local time. *)
Record JsDate := mkJsDate {
  getFullYear : Z;
  getMonth : Z;
  getDate : Z
}.

#[global] Instance JsDate_eq_dec : EqDecision JsDate.
Proof. solve_decision. Defined.

Definition isLeapYear (y : Z) : bool :=
  ((y mod 4 =? 0) && negb (y mod 100 =? 0) || (y mod 400 =? 0))%Z.

(** The number of days of the month with index [m] (0 to 11). *)
Definition daysInMonth (y m : Z) : Z :=
  if (m =? 1)%Z then (if isLeapYear y then 29 else 28)%Z
  else if (m =? 3)%Z || (m =? 5)%Z || (m =? 8)%Z || (m =? 10)%Z then 30%Z
  else 31%Z.

Definition previousMonth (y m : Z) : Z * Z :=
  if (m =? 0)%Z then ((y - 1)%Z, 11%Z) else (y, (m - 1)%Z).

Definition nextMonth (y m : Z) : Z * Z :=
  if (m =? 11)%Z then ((y + 1)%Z, 0%Z) else (y, (m + 1)%Z).

(** A day of the month that lies before the first or after the last day
    is carried into the months before or after, month by month. *)
Fixpoint carryDays (fuel : nat) (y m d : Z) : JsDate :=
  match fuel with
  | O => mkJsDate y m d
  | S fuel =>
      if (d <? 1)%Z then
        let '(y', m') := previousMonth y m in
        carryDays fuel y' m' (d + daysInMonth y' m')
      else if (daysInMonth y m <? d)%Z then
        let '(y', m') := nextMonth y m in
        carryDays fuel y' m' (d - daysInMonth y m)
      else mkJsDate y m d
  end.

(** [new Date(year, monthIndex, day)], as the getters show it: a year
    from 0 to 99 stands for 1900 + year, months outside 0 to 11 are
    carried into the year and days outside the month into the months.
    The regular expressions of [parseDate] allow two digits for the day,
    which four carries cover.  The local time zone is taken not to skip
    a calendar day. *)
Definition newDate (year monthIndex day : Z) : JsDate :=
  let year := if (0 <=? year)%Z && (year <=? 99)%Z then (1900 + year)%Z else year in
  carryDays 5 (year + monthIndex / 12) (monthIndex mod 12) day.

(** [\d] and [^\d+$] *)
Definition isDigit (c : ascii) : bool :=
  let n := nat_of_ascii c in (48 <=? n) && (n <=? 57).

Definition allDigits (s : string) : bool :=
  forallb isDigit (String.list_ascii_of_string s).

(** [parseInt(s, 10)] on a string of digits. *)
Fixpoint parseDigits (acc : nat) (s : string) : nat :=
  match s with
  | EmptyString => acc
  | String c t => parseDigits (10 * acc + (nat_of_ascii c - 48)) t
  end.

Definition parseInt (s : string) : Z := Z.of_nat (parseDigits 0 s).

(** The pieces of [s] between the occurrences of the character [sep]. *)
Fixpoint splitChar (sep : ascii) (s : string) : list string :=
  match s with
  | EmptyString => [""]
  | String c t =>
      if Ascii.eqb c sep then "" :: splitChar sep t
      else
        match splitChar sep t with
        | piece :: rest => String c piece :: rest
        | [] => [String c ""]
        end
  end.

(** [\d{lo,hi}] matches the whole of [s]. *)
Definition digitGroup (lo hi : nat) (s : string) : bool :=
  allDigits s && (lo <=? String.length s) && (String.length s <=? hi).

(** [/^(\d{1,2})\/(\d{1,2})\/(\d{4})$/.exec(str)]: the three groups. *)
Definition matchMDY (str : string) : option (string * string * string) :=
  match splitChar "/" str with
  | [a; b; c] =>
      if digitGroup 1 2 a && digitGroup 1 2 b && digitGroup 4 4 c
      then Some (a, b, c) else None
  | _ => None
  end.

(** [/^(\d{4})-(\d{1,2})-(\d{1,2})$/.exec(str)]: the three groups. *)
Definition matchYMD (str : string) : option (string * string * string) :=
  match splitChar "-" str with
  | [a; b; c] =>
      if digitGroup 4 4 a && digitGroup 1 2 b && digitGroup 1 2 c
      then Some (a, b, c) else None
  | _ => None
  end.

(** Lines 226-229 and 238-241: the date is kept when the getters give
    back what was asked for. *)
Definition checkedDate (year month day : Z) : option JsDate :=
  let date := newDate year (month - 1) day in
  if (getFullYear date =? year)%Z && (getMonth date =? month - 1)%Z &&
     (getDate date =? day)%Z
  then Some date else None.

(** [s.padStart(n, c)] *)
Definition padStart (n : nat) (c : ascii) (s : string) : string :=
  String.string_of_list_ascii (replicate (n - String.length s) c) +:+ s.

(** Lines 276-279. *)
Definition formatJsDate (date : JsDate) : string :=
  padStart 2 "0" (pretty (getMonth date + 1)%Z) +:+ "/" +:+
  padStart 2 "0" (pretty (getDate date)) +:+ "/" +:+
  pretty (getFullYear date).

(** The argument of [formatDate]: a string or a [Date]. *)
Inductive DateArg :=
| DateString (s : string)
| DateObject (d : JsDate).

Section Dates.
(** What is left to the engine and to the time zone: [new Date(str)],
    [None] for an invalid date, and the local date of the Excel serial
    number [n], lines 249-250. *)
Variable nativeParse : string → option JsDate.
Variable serialDate : Z → JsDate.

Definition parseDate (dateStr : string) : option JsDate :=
  if negb (truthy dateStr) then None else
  let str := trim dateStr in
  if negb (truthy str) then None else
  let mmddyyyy :=
    match matchMDY str with
    | Some (m, d, y) => checkedDate (parseInt y) (parseInt m) (parseInt d)
    | None => None
    end in
  match mmddyyyy with
  | Some date => Some date
  | None =>
      let yyyymmdd :=
        match matchYMD str with
        | Some (y, m, d) => checkedDate (parseInt y) (parseInt m) (parseInt d)
        | None => None
        end in
      match yyyymmdd with
      | Some date => Some date
      | None =>
          if allDigits str && (0 <? parseInt str)%Z && (parseInt str <? 1000000)%Z
          then Some (serialDate (parseInt str))
          else nativeParse str
      end
  end.

Definition formatDate (date : DateArg) : string :=
  match date with
  | DateString s =>
      if negb (truthy s) then ""
      else match parseDate s with
           | None => s
           | Some parsed => formatJsDate parsed
           end
  | DateObject d => formatJsDate d
  end.

End Dates.

(** A calendar date: a month from 1 to 12 and a day of that month. *)
Definition validDate (year month day : Z) : Prop :=
  (1 ≤ month ≤ 12 ∧ 1 ≤ day ≤ daysInMonth year (month - 1))%Z.

(** An engine that takes day 30 of February for the first of March, and
    one that rejects it. *)
Definition lenientParse (str : string) : option JsDate :=
  if String.eqb str "02/30/2024" then Some (mkJsDate 2024 2 1) else None.

Definition strictParse (str : string) : option JsDate := None.

Definition exampleSerialDate (n : Z) : JsDate := mkJsDate 1900 0 1.

(** ** [readExcelFile], lines 422-451 *)

(** The keys that line 445-447 keeps out of the copied columns. *)
Definition excludedKeys : list string :=
  ["mrn"; "customid"; "custom id"; "dos"; "date of service";
   "appointmentdate"; "appointment date"; "orig appt. date"; "orig appt date";
   "original appointment date";
   "cpt"; "cpt code"; "cpt codes"; "icd"; "icd code"; "icd codes"; "_rownumber"].

(** Lines 435-451: from a row with normalized column names to the row
    with the expected field names: the six named fields and the copied
    columns.  The copied columns come after the named fields in the
    object literal, so they win where the names meet. *)
Definition namedFields (row : Row) : list (string * string) :=
  let get := field row in
  [("mrn", or_else (get "mrn") (or_else (get "patient mrn") ""));
   ("customId", or_else (get "customid") (or_else (get "custom id") ""));
   ("dos", or_else (get "dos") (or_else (get "date of service") ""));
   ("appointmentDate",
      or_else (get "appointmentdate")
     (or_else (get "appointment date")
     (or_else (get "orig appt. date")
     (or_else (get "orig appt date")
     (or_else (get "original appointment date") "")))));
   ("cpt",
      or_else (get "cpt")
     (or_else (get "cpt code")
     (or_else (get "cpt codes")
     (or_else (get "cpt(s)")
     (or_else (get "cpts") "")))));
   ("icd", or_else (get "icd") (or_else (get "icd code") (or_else (get "icd codes") "")))].

Definition mapRow (row : Row) : Row :=
  mkRow (_rowNumber row)
    (filter (λ kv, kv.1 ∉ excludedKeys) (fields row) ∪ list_to_map (namedFields row)).

Section Reading.
(** [normalizeColumnName], lines 200-209, is a chain of regular
    expression replacements; what follows holds for any such function. *)
Variable normalizeColumnName : string → string.

(** Lines 423-432: the object with normalized column names for the row
    at [index], from its entries in the order of the columns; a later
    column overwrites an earlier one of the same normalized name. *)
Definition normalizeRow (index : nat) (entries : list (string * string)) : Row :=
  mkRow (index + 2)
    (foldl (λ normalized kv, <[normalizeColumnName kv.1 := kv.2]> normalized) ∅ entries).

(** Lines 416-456 on the rows that [sheet_to_json(sheet, {raw: false})]
    returned. *)
Definition readRows (rows : list (list (string * string))) : string + list Row :=
  if length rows =? 0 then inl "No data rows found in sheet"
  else inr (imap (λ index entries, mapRow (normalizeRow index entries)) rows).

End Reading.

(** ** [validateRow] and [loadExcelData], lines 296-336 and 480-492 *)

(** The double quote character (code 34). *)
Definition quote : string := String "034" EmptyString.

Record Validation := mkValidation {
  isValid : bool;
  errors : list string
}.

(** A row after [validateRow]: the row with the string fields that were
    added, the [Date] objects and the codes that were stored in it, and
    the validation.  [appointmentDateObject] stands for the [Date] that
    line 321 stores under [appointmentDate]. *)
Record ValidatedRow := mkValidatedRow {
  validatedRow : Row;
  dosDate : option JsDate;
  appointmentDateObject : option JsDate;
  cptCodes : list string;
  validation : Validation
}.

Definition setField (k v : string) (row : Row) : Row :=
  mkRow (_rowNumber row) (<[k := v]> (fields row)).

Section Validating.
Variable nativeParse : string → option JsDate.
Variable serialDate : Z → JsDate.

(** Line 314. *)
Definition appointmentDateOf (row : Row) : string :=
  or_else (field row "appointmentdate")
 (or_else (field row "appointment date")
 (or_else (field row "orig appt. date")
 (or_else (field row "orig appt date")
 (or_else (field row "original appointment date") "")))).

Definition validateRow (row : Row) : ValidatedRow :=
  let errors : list string := [] in
  let errors :=
    if negb (truthy (field row "mrn")) || negb (truthy (trim (field row "mrn")))
    then errors ++ ["MRN is required"] else errors in
  let '(row1, dosDate, errors) :=
    if truthy (field row "dos") then
      match parseDate nativeParse serialDate (field row "dos") with
      | None =>
          (row, None,
           errors ++ ["DOS " +:+ quote +:+ field row "dos" +:+ quote +:+ " is not a valid date"])
      | Some dosDate =>
          (setField "dosFormatted" (formatJsDate dosDate) row, Some dosDate, errors)
      end
    else (row, None, errors) in
  let appointmentDateValue := appointmentDateOf row1 in
  let '(row2, apptDate, errors) :=
    if truthy appointmentDateValue then
      match parseDate nativeParse serialDate appointmentDateValue with
      | None =>
          (row1, None,
           errors ++ ["Appointment Date " +:+ quote +:+ appointmentDateValue +:+ quote +:+
                      " is not a valid date"])
      | Some apptDate =>
          (setField "appointmentDateFormatted" (formatJsDate apptDate) row1,
           Some apptDate, errors)
      end
    else (row1, None, errors) in
  let cptCodes := if truthy (field row2 "cpt") then parseCPTCodes (field row2 "cpt") else [] in
  mkValidatedRow row2 dosDate apptDate cptCodes
    (mkValidation (length errors =? 0) errors).

(** Lines 480-492: the valid rows and the invalid rows with their
    errors, as the main function uses them. *)
Definition loadExcelData (rows : list Row) : list Row * list (Row * list string) :=
  let validatedRows := validateRow <$> rows in
  (validatedRow <$> filter (λ v, isValid (validation v) = true) validatedRows,
   (λ v, (validatedRow v, errors (validation v))) <$>
     filter (λ v, isValid (validation v) = false) validatedRows).

End Validating.

(** The texts [m/d/y] and [y-m-d] of three groups of digits. *)
Definition slashDate (m d y : string) : string := m +:+ "/" +:+ d +:+ "/" +:+ y.
Definition dashDate (y m d : string) : string := y +:+ "-" +:+ m +:+ "-" +:+ d.

(** A row of the sheet, by its normalized columns, whose appointment
    date is no date. *)
Definition rowWithBadAppointmentDate : Row :=
  mkRow 2 (list_to_map [("mrn", "1001"); ("appointment date", "not a date")]).

End excelReader.

(** * Properties of the embedding *)

(** * Properties of the status aggregator *)

Section NewSet.
Implicit Types (l acc : list string) (x : string).

Lemma elem_of_setAdd acc x y : y ∈ setAdd acc x ↔ y ∈ acc ∨ y = x.
Proof.
  unfold setAdd. case_bool_decide as Hin.
  - split; [auto | intros [? | ->]; auto].
  - rewrite elem_of_app, list_elem_of_singleton. tauto.
Qed.

Lemma NoDup_setAdd acc x : NoDup acc → NoDup (setAdd acc x).
Proof.
  intros Hnd. unfold setAdd. case_bool_decide as Hin; [done |].
  apply NoDup_app. split_and!; [done | | apply NoDup_singleton].
  intros y Hy Hy'. apply list_elem_of_singleton in Hy'. by subst.
Qed.

Lemma elem_of_foldl_setAdd l acc y : y ∈ foldl setAdd acc l ↔ y ∈ acc ∨ y ∈ l.
Proof.
  revert acc. induction l as [| x l IH]; intros acc; simpl.
  - rewrite elem_of_nil. tauto.
  - rewrite IH, elem_of_setAdd, elem_of_cons. tauto.
Qed.

Lemma NoDup_foldl_setAdd l acc : NoDup acc → NoDup (foldl setAdd acc l).
Proof.
  revert acc. induction l as [| x l IH]; intros acc Hnd; simpl; [done |].
  by apply IH, NoDup_setAdd.
Qed.

Lemma elem_of_newSet l y : y ∈ newSet l ↔ y ∈ l.
Proof. unfold newSet. rewrite elem_of_foldl_setAdd, elem_of_nil. tauto. Qed.

Lemma NoDup_newSet l : NoDup (newSet l).
Proof. apply NoDup_foldl_setAdd, NoDup_nil_2. Qed.

Lemma newSet_Permutation l1 l2 : l1 ≡ₚ l2 → newSet l1 ≡ₚ newSet l2.
Proof.
  intros Hp. apply NoDup_Permutation; [apply NoDup_newSet .. |].
  intros y. rewrite !elem_of_newSet. by rewrite Hp.
Qed.

Lemma newSet_nil_inv l : newSet l = [] → l = [].
Proof.
  destruct l as [| x l]; [done |]. intros Hnil.
  assert (x ∈ newSet (x :: l)) as Hin by (apply elem_of_newSet; left).
  rewrite Hnil in Hin. by apply elem_of_nil in Hin.
Qed.

(** A set with one element comes from a list that repeats it. *)
Lemma newSet_singleton_inv l s : newSet l = [s] → Forall (λ y, y = s) l.
Proof.
  intros Hs. apply Forall_forall. intros y Hy.
  apply (proj2 (elem_of_newSet l y)) in Hy. rewrite Hs in Hy.
  by apply list_elem_of_singleton in Hy.
Qed.

Lemma newSet_all_equal l s : l ≠ [] → Forall (λ y, y = s) l → newSet l = [s].
Proof.
  intros Hne Hall.
  assert (∀ y, y ∈ newSet l → y = s) as Hsub.
  { intros y Hy. rewrite elem_of_newSet in Hy.
    rewrite Forall_forall in Hall. by apply Hall. }
  pose proof (NoDup_newSet l) as Hnd.
  destruct (newSet l) as [| a [| b u]] eqn:E.
  - by apply newSet_nil_inv in E.
  - f_equal. apply Hsub. left.
  - exfalso. assert (a = s) as -> by (apply Hsub; left).
    assert (b = s) as -> by (apply Hsub; right; left).
    apply NoDup_cons in Hnd as [Hnotin _]. apply Hnotin. left.
Qed.

End NewSet.

Lemma filter_length_all {A} (P : A → Prop) `{!∀ x, Decision (P x)} (l : list A) :
  length (filter P l) = length l → Forall P l.
Proof.
  induction l as [| x l IH]; [constructor |].
  rewrite filter_cons. destruct (decide (P x)) as [Hx | Hx]; simpl; intros Hlen.
  - constructor; [done |]. apply IH. lia.
  - pose proof (length_filter P l). lia.
Qed.

Lemma filter_all_length {A} (P : A → Prop) `{!∀ x, Decision (P x)} (l : list A) :
  Forall P l → length (filter P l) = length l.
Proof.
  induction 1 as [| x l Hx _ IH]; [done |].
  rewrite filter_cons. destruct (decide (P x)); [simpl; lia | done].
Qed.

Lemma statusesOf_length results : length (statusesOf results) = length results.
Proof. unfold statusesOf. apply length_map. Qed.

Lemma statusesOf_nil_inv results : statusesOf results = [] → results = [].
Proof. destruct results; [done | discriminate]. Qed.

(** The aggregate of a row in which every status is the same. *)
Lemma aggregateStatus_single results s :
  uniqueStatuses results = [s] → aggregateStatus results = s.
Proof.
  unfold uniqueStatuses. intros HU.
  assert (results ≠ []) as Hne.
  { intros ->. discriminate HU. }
  unfold aggregateStatus. destruct (length results =? 0) eqn:Hlen.
  { apply Nat.eqb_eq in Hlen. by destruct results. }
  cbv zeta. rewrite HU. simpl length. simpl (1 =? 1). cbv iota.
  repeat case_bool_decide;
    repeat match goal with
      | H : _ ∈ [s] |- _ => apply list_elem_of_singleton in H
      end; subst; try done.
  - (* Failed *)
    apply newSet_singleton_inv in HU.
    rewrite (filter_all_length _ _ HU), statusesOf_length, Nat.eqb_refl. done.
Qed.

(** The aggregate of a row with several distinct statuses. *)
Lemma aggregateStatus_mixed results :
  1 < length (uniqueStatuses results) →
  aggregateStatus results =
    if bool_decide ("Billed" ∈ uniqueStatuses results)
    then withPatients "Billed" (length results)
    else if bool_decide ("Appt. Cancelled" ∈ uniqueStatuses results)
    then withPatients "Appt. Cancelled" (length results)
    else if bool_decide ("Success" ∈ uniqueStatuses results)
    then withPatients "Success" (length results)
    else if bool_decide ("Failed" ∈ uniqueStatuses results)
    then failedOf (failedCount results) (length results)
    else join ", " (uniqueStatuses results).
Proof.
  unfold uniqueStatuses, failedCount. intros HU.
  unfold aggregateStatus. destruct (length results =? 0) eqn:Hlen.
  { apply Nat.eqb_eq in Hlen. destruct results; [simpl in HU; lia | done]. }
  cbv zeta.
  assert ((length (newSet (statusesOf results)) =? 1) = false) as ->
    by (apply Nat.eqb_neq; lia).
  assert ((1 <? length (newSet (statusesOf results))) = true) as ->
    by (apply Nat.ltb_lt; lia).
  repeat case_bool_decide; try done.
  destruct (_ =? length results) eqn:Hall; [| done].
  exfalso. apply Nat.eqb_eq in Hall. rewrite <- statusesOf_length in Hall.
  apply filter_length_all in Hall.
  rewrite (newSet_all_equal _ "Failed") in HU; [simpl in HU; lia | | done].
  intros Hnil. apply statusesOf_nil_inv in Hnil. subst. discriminate.
Qed.

(** C1. For a non-empty list of results of one row, with [U] the distinct
    statuses and [N] the number of results: a single distinct status is
    returned as it is; among several, the first present of Billed,
    Appt. Cancelled, Success wins as "<Status> (N patients)", a winning
    Failed is shown as "Failed (failedCount/N patients)", and without
    any of the four the distinct statuses are joined with ", ".  The five
    examples of the specification hold. *)
Theorem aggregateStatus_priority_format (results : list PatientResult) :
  results ≠ [] →
  let U := uniqueStatuses results in
  let N := pretty (length results) in
  let F := pretty (failedCount results) in
  (NoDup U ∧ ∀ s, s ∈ U ↔ s ∈ statusesOf results) ∧
  (∀ s, U = [s] → aggregateStatus results = s) ∧
  (1 < length U → "Billed" ∈ U →
     aggregateStatus results = "Billed (" +:+ N +:+ " patients)") ∧
  (1 < length U → "Billed" ∉ U → "Appt. Cancelled" ∈ U →
     aggregateStatus results = "Appt. Cancelled (" +:+ N +:+ " patients)") ∧
  (1 < length U → "Billed" ∉ U → "Appt. Cancelled" ∉ U → "Success" ∈ U →
     aggregateStatus results = "Success (" +:+ N +:+ " patients)") ∧
  (1 < length U → "Billed" ∉ U → "Appt. Cancelled" ∉ U → "Success" ∉ U →
     "Failed" ∈ U →
     aggregateStatus results = "Failed (" +:+ F +:+ "/" +:+ N +:+ " patients)") ∧
  (1 < length U → "Billed" ∉ U → "Appt. Cancelled" ∉ U → "Success" ∉ U →
     "Failed" ∉ U →
     aggregateStatus results = join ", " U) ∧
  (∀ r1 r2, status r1 = "Billed" → status r2 = "Billed" →
     aggregateStatus [r1; r2] = "Billed") ∧
  (∀ r1 r2, status r1 = "Billed" → status r2 = "Failed" →
     aggregateStatus [r1; r2] = "Billed (2 patients)") ∧
  (∀ r1 r2, status r1 = "Failed" → status r2 = "Failed" →
     aggregateStatus [r1; r2] = "Failed") ∧
  (∀ r1 r2, status r1 = "Failed" → status r2 = "Success" →
     aggregateStatus [r1; r2] = "Success (2 patients)") ∧
  (∀ r1, status r1 = "Failed" → aggregateStatus [r1] = "Failed").
Proof.
  intros Hne U N F.
  split; [split; [apply NoDup_newSet | intros s; apply elem_of_newSet] |].
  split; [intros s; apply aggregateStatus_single |].
  repeat match goal with
    | |- (1 < length U → _) ∧ _ => split
    end.
  1-5: intros HU; rewrite (aggregateStatus_mixed _ HU); fold U; intros;
       repeat case_bool_decide; done.
  unfold aggregateStatus, statusesOf.
  repeat split; intros; simpl; repeat match goal with
    | H : status _ = _ |- _ => rewrite H; clear H
    end; reflexivity.
Qed.

(** A row of one Billed and one Failed patient. *)
Lemma aggregateStatus_priority_format_witness :
  billedAndFailed ≠ [] ∧ aggregateStatus billedAndFailed = "Billed (2 patients)".
Proof.
  split; [discriminate |].
  destruct (aggregateStatus_priority_format billedAndFailed) as (_ & _ & HB & _);
    [discriminate |].
  apply HB; [vm_compute; lia | vm_compute; left].
Defined.

Lemma statusesOf_Permutation l1 l2 : l1 ≡ₚ l2 → statusesOf l1 ≡ₚ statusesOf l2.
Proof. unfold statusesOf. apply fmap_Permutation. Qed.

Lemma uniqueStatuses_Permutation l1 l2 :
  l1 ≡ₚ l2 → uniqueStatuses l1 ≡ₚ uniqueStatuses l2.
Proof. intros Hp. by apply newSet_Permutation, statusesOf_Permutation. Qed.

Lemma failedCount_Permutation l1 l2 : l1 ≡ₚ l2 → failedCount l1 = failedCount l2.
Proof.
  intros Hp. unfold failedCount.
  apply Permutation_length, filter_Permutation. by apply statusesOf_Permutation.
Qed.

Lemma hasPriorityStatus_unique results :
  hasPriorityStatus results ↔
  "Billed" ∈ uniqueStatuses results ∨ "Appt. Cancelled" ∈ uniqueStatuses results ∨
  "Success" ∈ uniqueStatuses results ∨ "Failed" ∈ uniqueStatuses results.
Proof.
  unfold hasPriorityStatus, priorityStatuses, uniqueStatuses. split.
  - intros (s & Hs & Hin). rewrite <- elem_of_newSet in Hin.
    rewrite !elem_of_cons, elem_of_nil in Hs.
    destruct Hs as [-> | [-> | [-> | [-> | []]]]]; tauto.
  - rewrite !elem_of_newSet.
    intros [H | [H | [H | H]]]; eexists; (split; [| exact H]);
      rewrite !elem_of_cons; tauto.
Qed.

(** C5, as the code has it.  On two lists of results that are
    permutations of each other the aggregator finds the same distinct
    statuses, up to their order, and returns the same string whenever one
    of the four priority statuses is present or at most one distinct
    status is; otherwise each result is the join of the distinct statuses
    in the order of their first occurrence in that list. *)
Theorem aggregateStatus_permutation (l1 l2 : list PatientResult) :
  l1 ≡ₚ l2 →
  uniqueStatuses l1 ≡ₚ uniqueStatuses l2 ∧
  (hasPriorityStatus l1 ∨ length (uniqueStatuses l1) ≤ 1 →
     aggregateStatus l1 = aggregateStatus l2) ∧
  (¬ hasPriorityStatus l1 → 1 < length (uniqueStatuses l1) →
     aggregateStatus l1 = join ", " (uniqueStatuses l1) ∧
     aggregateStatus l2 = join ", " (uniqueStatuses l2)).
Proof.
  intros Hp.
  pose proof (uniqueStatuses_Permutation _ _ Hp) as HU.
  pose proof (Permutation_length HU) as HlenU.
  pose proof (Permutation_length Hp) as Hlen.
  pose proof (failedCount_Permutation _ _ Hp) as HF.
  assert (∀ s, s ∈ uniqueStatuses l1 ↔ s ∈ uniqueStatuses l2) as Hmem
    by (intros s; by rewrite HU).
  split; [done |]. split.
  - intros Hcase.
    destruct (decide (length (uniqueStatuses l1) ≤ 1)) as [Hle | Hgt].
    + destruct (uniqueStatuses l1) as [| s [| ? ?]] eqn:E1; [| | simpl in Hle; lia].
      * apply newSet_nil_inv, statusesOf_nil_inv in E1. subst l1.
        apply Permutation_nil_l in Hp. by subst l2.
      * rewrite (aggregateStatus_single l1 s E1).
        symmetry. apply aggregateStatus_single.
        symmetry in HU. by apply Permutation_singleton_r in HU.
    + destruct Hcase as [Hprio | ?]; [| lia].
      rewrite !aggregateStatus_mixed by lia.
      apply hasPriorityStatus_unique in Hprio.
      rewrite <- Hlen, <- HF.
      rewrite <- !(bool_decide_ext _ _ (Hmem _)).
      repeat case_bool_decide; try reflexivity. tauto.
  - intros Hno Hgt.
    rewrite hasPriorityStatus_unique in Hno.
    rewrite !aggregateStatus_mixed by lia.
    rewrite <- !(bool_decide_ext _ _ (Hmem _)).
    repeat case_bool_decide; tauto.
Qed.

(** The rows [Skipped, Failed] and [Failed, Skipped]. *)
Lemma aggregateStatus_permutation_witness :
  [exampleResult "Skipped"; exampleResult "Failed"] ≡ₚ
    [exampleResult "Failed"; exampleResult "Skipped"] ∧
  aggregateStatus [exampleResult "Skipped"; exampleResult "Failed"] =
    aggregateStatus [exampleResult "Failed"; exampleResult "Skipped"].
Proof.
  split; [apply Permutation_swap |].
  apply (aggregateStatus_permutation
           [exampleResult "Skipped"; exampleResult "Failed"]
           [exampleResult "Failed"; exampleResult "Skipped"]);
    [apply Permutation_swap |].
  left. exists "Failed". split; [unfold priorityStatuses | simpl];
    rewrite !elem_of_cons; tauto.
Defined.

(** C5 as stated fails: two results of one row with statuses Skipped and
    Unknown aggregate to "Skipped, Unknown" in one order and to
    "Unknown, Skipped" in the other. *)
Lemma aggregateStatus_order_dependent :
  [exampleResult "Skipped"; exampleResult "Unknown"] ≡ₚ
    [exampleResult "Unknown"; exampleResult "Skipped"] ∧
  aggregateStatus [exampleResult "Skipped"; exampleResult "Unknown"] = "Skipped, Unknown" ∧
  aggregateStatus [exampleResult "Unknown"; exampleResult "Skipped"] = "Unknown, Skipped" ∧
  aggregateStatus [exampleResult "Skipped"; exampleResult "Unknown"] ≠
    aggregateStatus [exampleResult "Unknown"; exampleResult "Skipped"].
Proof.
  split; [apply Permutation_swap |].
  split; [reflexivity |]. split; [reflexivity |]. discriminate.
Qed.

(** * Properties of the status writer *)

Section FindIndex.
Context {A : Type} (p : A → bool).

Lemma findIndex_Some l k :
  findIndex p l = Some k →
  (∃ x, l !! k = Some x ∧ p x = true) ∧
  ∀ j x, j < k → l !! j = Some x → p x = false.
Proof.
  revert k. induction l as [| a l IH]; intros k; simpl; [discriminate |].
  destruct (p a) eqn:Ha.
  - intros [= <-]. split; [by exists a | intros; lia].
  - destruct (findIndex p l) as [k' |]; simpl; [| discriminate].
    intros [= <-]. destruct (IH k' eq_refl) as [Hk Hbefore].
    split; [done |]. intros [| j] x Hj; simpl.
    + by intros [= <-].
    + apply Hbefore. lia.
Qed.

Lemma findIndex_None l : findIndex p l = None → Forall (λ x, p x = false) l.
Proof.
  induction l as [| a l IH]; simpl; [constructor |].
  destruct (p a) eqn:Ha; [discriminate |].
  destruct (findIndex p l); simpl; [discriminate |]. constructor; auto.
Qed.

Lemma findIndex_lt l k : findIndex p l = Some k → k < length l.
Proof.
  intros H. apply findIndex_Some in H as [(x & Hx & _) _].
  by eapply lookup_lt_Some.
Qed.

End FindIndex.

Lemma statusColumns_app h1 h2 : statusColumns (h1 ++ h2) = statusColumns h1 + statusColumns h2.
Proof. unfold statusColumns. by rewrite filter_app, length_app. Qed.

Lemma statusColumns_none h :
  Forall (λ x, isStatusHeader x = false) h → statusColumns h = 0.
Proof.
  unfold statusColumns. induction 1 as [| x l Hx _ IH]; [done |].
  rewrite filter_cons. destruct (decide _) as [Heq | _]; [congruence | done].
Qed.

Lemma statusColumns_take_first h k :
  findIndex isStatusHeader h = Some k → statusColumns (take k h) = 0.
Proof.
  intros Hk. apply findIndex_Some in Hk as [_ Hbefore].
  apply statusColumns_none, Forall_forall. intros x Hx.
  apply list_elem_of_lookup in Hx as [j Hj].
  pose proof (lookup_lt_Some _ _ _ Hj) as Hlt. rewrite length_take in Hlt.
  rewrite lookup_take_lt in Hj by lia. apply (Hbefore j); [lia | done].
Qed.

(** Splitting a header at its first Status column. *)
Lemma header_split h k :
  findIndex isStatusHeader h = Some k →
  ∃ x, isStatusHeader x = true ∧ h = take k h ++ x :: drop (S k) h ∧
       delete k h = take k h ++ drop (S k) h.
Proof.
  intros Hk. destruct (findIndex_Some _ _ _ Hk) as [(x & Hx & Hpx) _].
  exists x. split; [done |]. split.
  - by rewrite <- (take_drop_middle h k x) at 1.
  - apply delete_take_drop.
Qed.

Lemma statusColumns_first h k :
  findIndex isStatusHeader h = Some k →
  statusColumns h = S (statusColumns (drop (S k) h)) ∧
  statusColumns (delete k h) = statusColumns (drop (S k) h).
Proof.
  intros Hk. destruct (header_split _ _ Hk) as (x & Hpx & Hh & Hd).
  pose proof (statusColumns_take_first _ _ Hk) as H0.
  split.
  - rewrite Hh at 1. rewrite statusColumns_app, H0. simpl.
    unfold statusColumns at 1. rewrite filter_cons.
    destruct (decide _) as [_ | Hn]; [done | congruence].
  - by rewrite Hd, statusColumns_app, H0.
Qed.

Lemma statusColumns_status : statusColumns [CStr "Status"] = 1.
Proof. reflexivity. Qed.

Lemma isStatusHeader_Status : isStatusHeader (CStr "Status") = true.
Proof. reflexivity. Qed.

Lemma headerOf_cons h data : headerOf (h :: data) = h.
Proof. reflexivity. Qed.

Lemma locateStatusColumn_cons h data :
  locateStatusColumn (h :: data) =
    match findIndex isStatusHeader h with
    | None => ((h ++ [CStr "Status"]) :: (padTo (length h + 1) <$> data), length h)
    | Some k =>
        if k + 1 <? length h
        then ((delete k h ++ [CStr "Status"])
                :: (padTo (length h) <$> (delete k <$> data)),
              length h - 1)
        else (h :: data, k)
    end.
Proof.
  unfold locateStatusColumn, removeMisplaced. rewrite headerOf_cons.
  destruct (findIndex isStatusHeader h) as [k |] eqn:Hk.
  - destruct (k + 1 <? length h) eqn:Hlt; [| done].
    apply Nat.ltb_lt in Hlt. simpl. rewrite length_app, length_delete; simpl.
    + repeat f_equal; lia.
    + apply lookup_lt_is_Some. lia.
  - simpl. by rewrite length_app.
Qed.

Lemma locateStatusColumn_header h data :
  headerOf (locateStatusColumn (h :: data)).1 = locatedHeader h ∧
  (locateStatusColumn (h :: data)).2 = length (locatedHeader h) - 1.
Proof.
  rewrite locateStatusColumn_cons. unfold locatedHeader.
  destruct (findIndex isStatusHeader h) as [k |] eqn:Hk.
  - destruct (k + 1 <? length h) eqn:Hlt; simpl.
    + apply Nat.ltb_lt in Hlt. rewrite length_app, length_delete; simpl;
        [split; [done | lia] | apply lookup_lt_is_Some; lia].
    + apply Nat.ltb_ge in Hlt. apply findIndex_lt in Hk. split; [done | lia].
  - simpl. rewrite length_app; simpl. split; [done | lia].
Qed.

Lemma updateRows_header rows results :
  headerOf (updateRows rows results).1 = headerOf (locateStatusColumn rows).1 ∧
  (updateRows rows results).2 = (locateStatusColumn rows).2.
Proof.
  unfold updateRows. destruct (locateStatusColumn rows) as [[| h' data'] idx]; done.
Qed.

(** The located header ends with a Status column and has as many Status
    columns as before, or one when there was none. *)
Lemma locatedHeader_last h :
  ∃ c, last (locatedHeader h) = Some c ∧ isStatusHeader c = true.
Proof.
  unfold locatedHeader. destruct (findIndex isStatusHeader h) as [k |] eqn:Hk.
  - destruct (k + 1 <? length h) eqn:Hlt.
    + exists (CStr "Status"). by rewrite last_snoc.
    + apply Nat.ltb_ge in Hlt. pose proof (findIndex_lt _ _ _ Hk) as Hlt'.
      apply findIndex_Some in Hk as [(x & Hx & Hpx) _]. exists x. split; [| done].
      rewrite last_lookup. rewrite <- Hx. f_equal. lia.
  - exists (CStr "Status"). by rewrite last_snoc.
Qed.

Lemma locatedHeader_statusColumns h :
  statusColumns (locatedHeader h) = Nat.max 1 (statusColumns h).
Proof.
  unfold locatedHeader. destruct (findIndex isStatusHeader h) as [k |] eqn:Hk.
  - destruct (statusColumns_first _ _ Hk) as [Hh Hd].
    destruct (k + 1 <? length h) eqn:Hlt.
    + rewrite statusColumns_app, Hd, statusColumns_status, Hh. lia.
    + rewrite Hh. lia.
  - apply findIndex_None, statusColumns_none in Hk.
    rewrite statusColumns_app, Hk, statusColumns_status. lia.
Qed.

Lemma updateOriginalExcel_inr sheet results sheet' :
  updateOriginalExcel sheet results = inr sheet' →
  ∃ h data, sheetRows sheet = h :: data ∧
    sheetRows sheet' = (updateRows (h :: data) results).1 ∧
    sheetCols sheet' =
      Some (updateCols (sheetCols sheet) (headerOf (sheetRows sheet'))
              (updateRows (h :: data) results).2).
Proof.
  unfold updateOriginalExcel.
  destruct (sheetRows sheet) as [| h data] eqn:Hrows; [discriminate |].
  simpl length. simpl (_ =? _).
  destruct (updateRows (h :: data) results) as [rows' idx] eqn:E.
  intros [= <-]. exists h, data. simpl. by rewrite E.
Qed.

Lemma updateOriginalExcel_total sheet results :
  sheetRows sheet ≠ [] → ∃ sheet', updateOriginalExcel sheet results = inr sheet'.
Proof.
  unfold updateOriginalExcel. destruct (sheetRows sheet) as [| h data]; [done |].
  intros _. simpl length. simpl (_ =? _).
  destruct (updateRows (h :: data) results) as [rows' idx]. eauto.
Qed.

(** C2, as the code has it.  After the Status Writer has run, the last
    header is a Status column (its name equals "status" up to case) and
    the header row has as many Status columns as it had before, or one
    when it had none; so exactly one when the input had at most one. *)
Theorem status_column_last_and_counted sheet results sheet' :
  updateOriginalExcel sheet results = inr sheet' →
  let h := headerOf (sheetRows sheet) in
  let h' := headerOf (sheetRows sheet') in
  (∃ c, last h' = Some c ∧ isStatusHeader c = true) ∧
  statusColumns h' = Nat.max 1 (statusColumns h) ∧
  (statusColumns h ≤ 1 → statusColumns h' = 1).
Proof.
  intros Hrun. apply updateOriginalExcel_inr in Hrun as (h0 & data & Hrows & Hrows' & _).
  rewrite Hrows, Hrows'. cbv zeta. rewrite headerOf_cons.
  rewrite (proj1 (updateRows_header _ _)), (proj1 (locateStatusColumn_header _ _)).
  split; [apply locatedHeader_last |].
  pose proof (locatedHeader_statusColumns h0). split; lia.
Qed.

(** A sheet whose Status column comes first. *)
Lemma status_column_last_and_counted_witness :
  ∃ sheet', updateOriginalExcel misplacedStatusSheet [] = inr sheet' ∧
    headerOf (sheetRows sheet') = [CStr "MRN"; CStr "Status"] ∧
    statusColumns (headerOf (sheetRows sheet')) = 1.
Proof.
  eexists. split; [reflexivity |]. split; [reflexivity |].
  eapply (status_column_last_and_counted misplacedStatusSheet []); [reflexivity |].
  vm_compute. lia.
Defined.

(** C2 as stated fails on a sheet with two Status columns: the first is
    removed, a new one is appended, and two remain. *)
Lemma two_status_columns_remain :
  ∃ sheet', updateOriginalExcel twoStatusSheet [] = inr sheet' ∧
    headerOf (sheetRows sheet') = [CStr "Status"; CStr "Status"] ∧
    statusColumns (headerOf (sheetRows sheet')) = 2.
Proof. eexists. split; [reflexivity |]. split; reflexivity. Qed.

Lemma padTo_full n row : n ≤ length row → padTo n row = row.
Proof.
  intros Hle. unfold padTo. replace (n - length row) with 0 by lia.
  apply app_nil_r.
Qed.

Lemma padTo_short row : padTo (length row + 1) row = row ++ [CStr ""].
Proof. unfold padTo. by replace (length row + 1 - length row) with 1 by lia. Qed.

Lemma cellIsEmpty_notProcessedOr c : cellIsEmpty (notProcessedOr c) = false.
Proof.
  unfold notProcessedOr. destruct (cellIsEmpty c) eqn:E; [reflexivity | done].
Qed.

Lemma notProcessedOr_idemp c : notProcessedOr (notProcessedOr c) = notProcessedOr c.
Proof. unfold notProcessedOr at 1. by rewrite cellIsEmpty_notProcessedOr. Qed.

Lemma statusValue_idemp m i c : statusValue m i (statusValue m i c) = statusValue m i c.
Proof.
  unfold statusValue. destruct (m !! (i + 1)) as [rs |].
  - destruct (0 <? length rs); [done | apply notProcessedOr_idemp].
  - apply notProcessedOr_idemp.
Qed.

(** The loop body on a row that reaches the Status column. *)
Lemma updateRow_full m idx i row c :
  length row = idx + 1 → row !! idx = Some c →
  updateRow m idx i row = <[idx := statusValue m i c]> row.
Proof.
  intros Hlen Hc. unfold updateRow, statusValue, notProcessedOr.
  rewrite padTo_full by lia. rewrite Hc. simpl.
  destruct (m !! (i + 1)) as [rs |];
    [destruct (0 <? length rs); [done |] |];
    (destruct (cellIsEmpty c); [done | by rewrite list_insert_id]).
Qed.

Lemma keptColumn_cons h data :
  keptColumn (h :: data) = true →
  findIndex isStatusHeader h = Some (length h - 1) ∧ 0 < length h ∧
  locatedHeader h = h.
Proof.
  unfold keptColumn, locatedHeader. rewrite headerOf_cons.
  destruct (findIndex isStatusHeader h) as [k |] eqn:Hk; [| discriminate].
  destruct (k + 1 <? length h) eqn:Hlt; [discriminate |]. intros _.
  apply Nat.ltb_ge in Hlt. apply findIndex_lt in Hk as Hlt'.
  split; [f_equal; lia | split; [lia | done]].
Qed.

(** The rows after the Status column has been located: the header of
    [locatedHeader], and under it rows that reach the Status column and
    hold there the prior content of the cell. *)
Lemma locateStatusColumn_rows h data :
  rectangular (h :: data) →
  let idx := length (locatedHeader h) - 1 in
  ∃ data', locateStatusColumn (h :: data) = (locatedHeader h :: data', idx) ∧
    length (locatedHeader h) = idx + 1 ∧
    length data' = length data ∧
    ∀ j d, data !! j = Some d →
      ∃ d', data' !! j = Some d' ∧ length d' = idx + 1 ∧
        d' !! idx = Some (priorCell (h :: data) d) ∧
        (keptColumn (h :: data) = true → d' = d).
Proof.
  intros Hrect idx. unfold rectangular in Hrect. rewrite headerOf_cons in Hrect.
  apply Forall_cons in Hrect as [_ Hrect]. rewrite Forall_forall in Hrect.
  assert (∀ j d, data !! j = Some d → length d = length h) as Hlen.
  { intros j d Hd. apply Hrect. by eapply list_elem_of_lookup_2. }
  subst idx. rewrite locateStatusColumn_cons.
  unfold priorCell, keptColumn, locatedHeader. rewrite headerOf_cons.
  destruct (findIndex isStatusHeader h) as [k |] eqn:Hk.
  - pose proof (findIndex_lt _ _ _ Hk) as Hklt.
    destruct (k + 1 <? length h) eqn:Hlt; simpl.
    + apply Nat.ltb_lt in Hlt.
      assert (length (delete k h ++ [CStr "Status"]) = length h) as Hl.
      { rewrite length_app, length_delete by (apply lookup_lt_is_Some; lia).
        simpl. lia. }
      rewrite Hl. eexists. split; [reflexivity |].
      split; [lia |]. split; [by rewrite !length_fmap |].
      intros j d Hd. specialize (Hlen _ _ Hd).
      assert (length (delete k d) = length h - 1) as Hld
        by (rewrite length_delete; [lia | apply lookup_lt_is_Some; lia]).
      exists (delete k d ++ [CStr ""]).
      split; [| split; [| split; [| done]]].
      * rewrite !list_lookup_fmap, Hd. simpl. f_equal.
        replace (length h) with (length (delete k d) + 1) by lia.
        apply padTo_short.
      * rewrite length_app. simpl. lia.
      * rewrite lookup_app_r by lia.
        by replace (length h - 1 - length (delete k d)) with 0 by lia.
    + apply Nat.ltb_ge in Hlt. assert (k = length h - 1) as -> by lia.
      eexists. split; [reflexivity |]. split; [lia |]. split; [done |].
      intros j d Hd. specialize (Hlen _ _ Hd). exists d.
      split; [done |]. split; [lia |]. split; [| done].
      destruct (d !! (length h - 1)) eqn:E; [done |].
      apply lookup_ge_None in E. lia.
  - simpl. rewrite length_app. simpl.
    replace (length h + 1 - 1) with (length h) by lia.
    eexists. split; [reflexivity |]. split; [lia |].
    split; [by rewrite length_fmap |].
    intros j d Hd. specialize (Hlen _ _ Hd). exists (d ++ [CStr ""]).
    split; [| split; [| split; [| done]]].
    + rewrite list_lookup_fmap, Hd. simpl. f_equal. rewrite <- Hlen.
      apply padTo_short.
    + rewrite length_app. simpl. lia.
    + rewrite lookup_app_r by lia. by replace (length h - length d) with 0 by lia.
Qed.

(** The rows after the Status Writer has run on a rectangular sheet. *)
Lemma updateRows_rows h data results :
  rectangular (h :: data) →
  let idx := length (locatedHeader h) - 1 in
  let m := buildResultsMap results in
  ∃ data', updateRows (h :: data) results = (locatedHeader h :: data', idx) ∧
    length (locatedHeader h) = idx + 1 ∧
    length data' = length data ∧
    ∀ j d, data !! j = Some d →
      ∃ d', data' !! j = Some d' ∧ length d' = idx + 1 ∧
        d' !! idx = Some (statusValue m (S j) (priorCell (h :: data) d)) ∧
        (keptColumn (h :: data) = true →
           d' = <[idx := statusValue m (S j) (priorCell (h :: data) d)]> d).
Proof.
  intros Hrect idx m.
  destruct (locateStatusColumn_rows h data Hrect)
    as (data0 & Hloc & Hh & Hlen0 & Hrows).
  fold idx in Hloc, Hh, Hrows. unfold updateRows. rewrite Hloc. fold m.
  eexists. split; [reflexivity |]. split; [done |].
  split; [by rewrite length_imap |].
  intros j d Hd. destruct (Hrows j d Hd) as (d0 & Hd0 & Hl0 & Hc0 & Hkept).
  exists (<[idx := statusValue m (S j) (priorCell (h :: data) d)]> d0).
  split; [| split; [| split]].
  - rewrite list_lookup_imap, Hd0. simpl. f_equal. by apply updateRow_full.
  - by rewrite length_insert.
  - apply list_lookup_insert_eq. lia.
  - intros Hk. by rewrite (Hkept Hk).
Qed.

Lemma updateRows_rectangular h data results :
  rectangular (h :: data) → rectangular (updateRows (h :: data) results).1.
Proof.
  intros Hrect.
  destruct (updateRows_rows h data results Hrect) as (data' & -> & Hh & Hlen & Hrows).
  simpl. unfold rectangular. rewrite headerOf_cons.
  apply Forall_cons. split; [done |]. apply Forall_forall. intros d' Hd'.
  apply list_elem_of_lookup in Hd' as [j Hj].
  assert (is_Some (data !! j)) as [d Hd].
  { apply lookup_lt_is_Some. rewrite <- Hlen. by eapply lookup_lt_Some. }
  destruct (Hrows j d Hd) as (d'' & Hd'' & Hl & _). congruence.
Qed.

Lemma lastColumn_cons h data :
  lastColumn (h :: data) = (λ row : list Cell, row !! (length h - 1)) <$> data.
Proof. unfold lastColumn. rewrite headerOf_cons. simpl. by rewrite drop_0. Qed.

Lemma statusColumns_elem_of h c :
  c ∈ h → isStatusHeader c = true → 1 ≤ statusColumns h.
Proof.
  intros Hin Hc. unfold statusColumns.
  assert (c ∈ filter (λ x, isStatusHeader x = true) h) as Hf
    by (by apply list_elem_of_filter).
  destruct (filter _ h); [by apply elem_of_nil in Hf | simpl; lia].
Qed.

Lemma keptColumn_statusColumns h data :
  keptColumn (h :: data) = true → statusColumns h = 1.
Proof.
  intros Hk. apply keptColumn_cons in Hk as (Hk & Hpos & _).
  destruct (statusColumns_first _ _ Hk) as [-> _].
  rewrite drop_ge by lia. reflexivity.
Qed.

(** A header that ends with a Status column which is not the first one
    has two Status columns at least. *)
Lemma not_kept_statusColumns h data :
  (∃ c, last h = Some c ∧ isStatusHeader c = true) →
  keptColumn (h :: data) = false → 2 ≤ statusColumns h.
Proof.
  intros (c & Hlast & Hc) Hk. unfold keptColumn in Hk. rewrite headerOf_cons in Hk.
  rewrite last_lookup in Hlast.
  destruct (findIndex isStatusHeader h) as [k |] eqn:Hfi.
  - destruct (k + 1 <? length h) eqn:Hlt; [| discriminate].
    apply Nat.ltb_lt in Hlt.
    destruct (statusColumns_first _ _ Hfi) as [-> _].
    enough (1 ≤ statusColumns (drop (S k) h)) by lia.
    apply (statusColumns_elem_of _ c); [| done].
    apply list_elem_of_lookup. exists (pred (length h) - S k).
    rewrite lookup_drop. rewrite <- Hlast. f_equal. lia.
  - apply findIndex_None in Hfi. rewrite Forall_forall in Hfi.
    assert (c ∈ h) as Hin by (by eapply list_elem_of_lookup_2).
    apply Hfi in Hin. congruence.
Qed.

(** C6. On a rectangular sheet, a second run of the Status Writer with
    the same results succeeds, leaves in the last column what the first
    run left there, and leaves the number of Status columns unchanged;
    when the original header had at most one Status column there is
    exactly one afterwards and the second run changes no row at all. *)
Theorem updateOriginalExcel_idempotent sheet results sheet1 :
  rectangular (sheetRows sheet) →
  updateOriginalExcel sheet results = inr sheet1 →
  ∃ sheet2, updateOriginalExcel sheet1 results = inr sheet2 ∧
    lastColumn (sheetRows sheet2) = lastColumn (sheetRows sheet1) ∧
    statusColumns (headerOf (sheetRows sheet2)) =
      statusColumns (headerOf (sheetRows sheet1)) ∧
    (statusColumns (headerOf (sheetRows sheet)) ≤ 1 →
       statusColumns (headerOf (sheetRows sheet2)) = 1 ∧
       sheetRows sheet2 = sheetRows sheet1).
Proof.
  intros Hrect Hrun1.
  apply updateOriginalExcel_inr in Hrun1 as (h & data & Hrows & Hrows1 & _).
  rewrite Hrows in Hrect. rewrite Hrows, headerOf_cons.
  pose proof (updateRows_rectangular h data results Hrect) as Hrect1.
  destruct (updateRows_rows h data results Hrect)
    as (data1 & Hup1 & Hh1 & Hlen1 & Hdata1).
  rewrite Hup1 in Hrows1, Hrect1. simpl in Hrows1, Hrect1.
  set (h1 := locatedHeader h) in *. set (idx1 := length h1 - 1) in *.
  set (m := buildResultsMap results) in *.
  destruct (updateOriginalExcel_total sheet1 results) as [sheet2 Hrun2];
    [by rewrite Hrows1 |].
  exists sheet2. split; [done |].
  apply updateOriginalExcel_inr in Hrun2 as (h1' & data1' & Hrows1' & Hrows2 & _).
  rewrite Hrows1 in Hrows1'. injection Hrows1' as <- <-.
  destruct (updateRows_rows h1 data1 results Hrect1)
    as (data2 & Hup2 & Hh2 & Hlen2 & Hdata2).
  rewrite Hup2 in Hrows2. simpl in Hrows2.
  set (h2 := locatedHeader h1) in *. set (idx2 := length h2 - 1) in *. fold m in Hdata2.
  rewrite Hrows1, Hrows2, !headerOf_cons, !lastColumn_cons. fold idx1 idx2.
  pose proof (locatedHeader_last h) as Hlast1. fold h1 in Hlast1.
  pose proof (locatedHeader_statusColumns h) as Hcount1. fold h1 in Hcount1.
  pose proof (locatedHeader_statusColumns h1) as Hcount2. fold h2 in Hcount2.
  (* the value the second run leaves under the last header *)
  assert (∀ j d d1, data !! j = Some d → data1 !! j = Some d1 →
            statusValue m (S j) (priorCell (h1 :: data1) d1) =
            statusValue m (S j) (priorCell (h :: data) d)) as Hsame.
  { intros j d d1 Hd Hd1. destruct (Hdata1 j d Hd) as (d1' & Hd1' & _ & Hc1 & _).
    rewrite Hd1 in Hd1'. injection Hd1' as <-.
    destruct (keptColumn (h1 :: data1)) eqn:Hk1.
    - unfold priorCell at 1. rewrite Hk1, headerOf_cons. fold idx1. rewrite Hc1. simpl.
      apply statusValue_idemp.
    - pose proof (not_kept_statusColumns h1 data1 Hlast1 Hk1) as H2.
      unfold priorCell. rewrite Hk1.
      destruct (keptColumn (h :: data)) eqn:Hk; [| done].
      apply keptColumn_statusColumns in Hk. lia. }
  split; [| split; [lia |]].
  - apply list_eq. intros j. rewrite !list_lookup_fmap.
    destruct (data !! j) as [d |] eqn:Hd.
    + destruct (Hdata1 j d Hd) as (d1 & Hd1 & _ & Hc1 & _).
      destruct (Hdata2 j d1 Hd1) as (d2 & Hd2 & _ & Hc2 & _).
      rewrite Hd1, Hd2. simpl. rewrite Hc1, Hc2. do 2 f_equal. by eapply Hsame.
    + apply lookup_ge_None in Hd.
      rewrite (proj2 (lookup_ge_None data1 j)), (proj2 (lookup_ge_None data2 j)); [done | lia..].
  - intros Hle. split; [lia |].
    assert (keptColumn (h1 :: data1) = true) as Hk1.
    { destruct (keptColumn (h1 :: data1)) eqn:Hk1; [done |].
      pose proof (not_kept_statusColumns h1 data1 Hlast1 Hk1). lia. }
    destruct (keptColumn_cons _ _ Hk1) as (_ & _ & Hh12). fold h2 in Hh12.
    rewrite Hh12. f_equal. apply list_eq. intros j.
    destruct (data1 !! j) as [d1 |] eqn:Hd1.
    + destruct (Hdata2 j d1 Hd1) as (d2 & Hd2 & _ & _ & Hkept).
      rewrite Hd2, (Hkept Hk1). f_equal.
      assert (is_Some (data !! j)) as [d Hd].
      { apply lookup_lt_is_Some. rewrite <- Hlen1. by eapply lookup_lt_Some. }
      destruct (Hdata1 j d Hd) as (d1' & Hd1' & _ & Hc1 & _).
      rewrite Hd1 in Hd1'. injection Hd1' as <-.
      rewrite (Hsame j d d1 Hd Hd1). subst idx2. rewrite Hh12. fold idx1.
      by apply list_insert_id.
    + apply lookup_ge_None in Hd1. apply lookup_ge_None. lia.
Qed.

(** A sheet with a misplaced Status column and a result for its second
    data row. *)
Lemma updateOriginalExcel_idempotent_witness :
  rectangular (sheetRows misplacedStatusSheet) ∧
  ∃ sheet1 sheet2,
    updateOriginalExcel misplacedStatusSheet resultsForRow3 = inr sheet1 ∧
    updateOriginalExcel sheet1 resultsForRow3 = inr sheet2 ∧
    lastColumn (sheetRows sheet1) = [Some (CStr "Not Processed"); Some (CStr "Billed")] ∧
    lastColumn (sheetRows sheet2) = lastColumn (sheetRows sheet1).
Proof.
  assert (rectangular (sheetRows misplacedStatusSheet)) as Hrect.
  { unfold rectangular. simpl. repeat constructor. }
  split; [exact Hrect |].
  destruct (updateOriginalExcel_idempotent misplacedStatusSheet resultsForRow3 _ Hrect eq_refl)
    as (sheet2 & Hrun2 & Hlast & _).
  eexists _, sheet2. split; [reflexivity |]. split; [exact Hrun2 |].
  split; [reflexivity | exact Hlast].
Defined.

(** C7 on a Status cell that holds the number 0, in a row without
    results: the cell is not empty, the claim says that it is left
    unchanged, and the test of line 252 takes the falsy 0 for an empty
    cell and overwrites it.  A cell holding a non-empty text is kept. *)
Theorem zero_status_cell_overwritten :
  ∃ sheet', updateOriginalExcel zeroStatusSheet [] = inr sheet' ∧
    sheetRows sheet' =
      [[CStr "MRN"; CStr "Status"];
       [CStr "1001"; CStr "Not Processed"];
       [CStr "1002"; CStr "0"]].
Proof. eexists. split; reflexivity. Qed.

Lemma updateOriginalExcel_statusColumnIndex sheet results sheet' :
  updateOriginalExcel sheet results = inr sheet' →
  ∃ h data, sheetRows sheet = h :: data ∧
    sheetCols sheet' =
      Some (updateCols (sheetCols sheet) (headerOf (sheetRows sheet'))
              (length (headerOf (sheetRows sheet')) - 1)).
Proof.
  intros Hrun. apply updateOriginalExcel_inr in Hrun as (h & data & Hrows & Hrows' & Hcols).
  exists h, data. split; [done |]. rewrite Hcols. do 3 f_equal.
  rewrite Hrows'.
  rewrite (proj2 (updateRows_header _ _)), (proj1 (updateRows_header _ _)).
  by destruct (locateStatusColumn_header h data) as [-> ->].
Qed.




(** * Properties of the automation *)

(** ** Running the constructs *)

Section Runs.
Context {env : Env}.

Lemma bindM_inr {A B} (m : M env A) (k : A → M env B) w a :
  outcome (m w) = inr a →
  bindM m k w =
    mkRun (outcome (k a (after (m w)))) (after (k a (after (m w))))
      (events (m w) ++ events (k a (after (m w)))).
Proof. intros H. unfold bindM. by rewrite H. Qed.


Lemma try_catch_inr {A} (m : M env A) (h : string → M env A) w a :
  outcome (m w) = inr a → try_catch m h w = m w.
Proof. intros H. unfold try_catch. by rewrite H. Qed.

Lemma try_catch_inl {A} (m : M env A) (h : string → M env A) w e :
  outcome (m w) = inl e →
  try_catch m h w =
    mkRun (outcome (h e (after (m w)))) (after (h e (after (m w))))
      (events (m w) ++ events (h e (after (m w)))).
Proof. intros H. unfold try_catch. by rewrite H. Qed.








End Runs.

(** ** Properties kept by sequencing *)

Section Respects.
Context {env : Env} (R : World env → World env → list Event → Prop) `{!Sequential R}.

Lemma respects_ret {A} (a : A) : respects R (ret a).
Proof. intros w. apply seq_nil. Qed.

Lemma respects_throw {A} e : respects R (@throw env A e).
Proof. intros w. apply seq_nil. Qed.

Lemma respects_gets {A} (f : World env → A) : respects R (gets f).
Proof. intros w. apply seq_nil. Qed.

Lemma respects_bind {A B} (m : M env A) (k : A → M env B) :
  respects R m → (∀ a, respects R (k a)) → respects R (bindM m k).
Proof.
  intros Hm Hk w. unfold bindM. destruct (outcome (m w)) as [e | a] eqn:E; simpl.
  - apply Hm.
  - eapply seq_app; [apply Hm | apply Hk].
Qed.

Lemma respects_try_catch {A} (m : M env A) (h : string → M env A) :
  respects R m → (∀ e, respects R (h e)) → respects R (try_catch m h).
Proof.
  intros Hm Hh w. unfold try_catch. destruct (outcome (m w)) as [e | a] eqn:E; simpl.
  - eapply seq_app; [apply Hm | apply Hh].
  - apply Hm.
Qed.

Lemma respects_modify (f : World env → World env) :
  (∀ w, R w (f w) []) → respects R (modify f).
Proof. intros H w. apply H. Qed.

Lemma respects_log (l : LogMsg) : (∀ w, R w w [Log l]) → respects R (log l).
Proof. intros H w. apply H. Qed.

Lemma respects_call (a : Action) :
  (∀ w p e, R w (setPage p w) [Did a e]) → respects R (call a).
Proof. intros H w. unfold call. destruct (perform env a (page w)). apply H. Qed.

Lemma respects_tryStrategiesFrom strategies i n :
  Forall (λ s, ∀ i n, respects R (tryStrategy s i n)) strategies →
  respects R (tryStrategiesFrom strategies i n).
Proof.
  intros Hall. revert i. induction Hall as [| s rest Hs _ IH]; intros i; simpl.
  - apply respects_ret.
  - apply respects_bind; [apply Hs |]. intros [|]; [apply respects_ret | apply IH].
Qed.

Lemma respects_patientsLoop row i todo patientCount :
  (∀ i, respects R (processPatientClaim row i patientCount)) →
  (∀ r, respects R (pushAllResults r)) →
  respects R (call (AWait 1000)) →
  respects R (patientsLoop row i todo patientCount).
Proof.
  intros Hp Hpush Hwait. revert i. induction todo as [| todo IH]; intros i; simpl.
  - apply respects_ret.
  - apply respects_bind; [apply Hp |]. intros r.
    apply respects_bind; [apply Hpush |]. intros _.
    apply respects_bind; [| intros _; apply IH].
    destruct (i <? patientCount - 1); [apply Hwait | apply respects_ret].
Qed.

Lemma respects_rowsLoop rows i n :
  (∀ row i, respects R (rowTurn row i n)) → respects R (rowsLoop rows i n).
Proof.
  intros Hturn. revert i. induction rows as [| row rest IH]; intros i; simpl.
  - apply respects_ret.
  - apply respects_bind; [apply Hturn |]. intros [|]; [apply respects_ret | apply IH].
Qed.

End Respects.

(** One step of a proof that a program built from the constructs
    respects a sequential property. *)
Ltac respects_step :=
  lazymatch goal with
  | |- respects _ (bindM _ _) =>
      apply respects_bind; try typeclasses eauto; [| intros ?]
  | |- respects _ (try_catch _ _) =>
      apply respects_try_catch; try typeclasses eauto; [| intros ?]
  | |- respects _ (ret _) => apply respects_ret; typeclasses eauto
  | |- respects _ (throw _) => apply respects_throw; typeclasses eauto
  | |- respects _ (gets _) => apply respects_gets; typeclasses eauto
  | |- respects _ pageIsClosed => apply respects_gets; typeclasses eauto
  | |- respects _ (modify _) => apply respects_modify
  | |- respects _ (log _) => apply respects_log
  | |- respects _ (call ?a) => apply (respects_call _ a)
  | |- respects _ (if ?b then _ else _) => destruct b eqn:?
  | |- respects _ (tryStrategiesFrom _ _ _) =>
      apply respects_tryStrategiesFrom; try typeclasses eauto;
      unfold customIdStrategies; cbn [fmap list_fmap]; repeat apply Forall_cons_2;
      [intros ? ? .. | apply Forall_nil_2]
  | |- respects _ (patientsLoop _ _ _ _) =>
      apply respects_patientsLoop; try typeclasses eauto; [intros ? | intros ? |]
  | |- respects _ (rowsLoop _ _ _) =>
      apply respects_rowsLoop; try typeclasses eauto; intros ? ?
  end.

Ltac respects_unfold :=
  progress unfold clickClaimsOnce, tryStrategy, tryStrategies,
    clickCustomIdFilter, fillServiceFields, patientSteps, processPatientClaim,
    pushAllResults, navigateToAccountsOnce, openClaimsOnce, applyEntitySourceOnce,
    applyAssessmentOnce, customIdFilterSteps, updateCustomIdFilter, updateMrnFilter,
    appointmentDateFilterSteps, filterAndProcess,
    updateAppointmentDateFilter, processPatients, rowSteps, processRow,
    pushResults, rowTurn, main.

Ltac respects_go :=
  repeat first [ respects_step | respects_unfold ].

#[global] Instance emitsOnly_sequential {env} (S : Event → Prop) :
  Sequential (@emitsOnly env S).
Proof.
  split; unfold emitsOnly.
  - constructor.
  - intros _ _ _ e1 e2 H1 H2. by apply Forall_app.
Qed.

#[global] Instance flagsKept_sequential {env} : Sequential (@flagsKept env).
Proof. split; unfold flagsKept; auto. Qed.

#[global] Instance allResultsKept_sequential {env} : Sequential (@allResultsKept env).
Proof. split; unfold allResultsKept; [done | congruence]. Qed.

(** ** The loop over the strategies *)


Lemma consoleOf_log l evs : consoleOf (Log l :: evs) = Log l :: consoleOf evs.
Proof. reflexivity. Qed.




Section Strategies.
Context {env : Env}.



End Strategies.





(** ** One patient entry *)


Section Patient.
Context {env : Env}.







End Patient.



(** ** The steps of one row *)

#[global] Instance quietly_sequential {env} (c : Event → bool) : Sequential (@quietly env c).
Proof.
  split; unfold quietly.
  - intros w. split; [constructor | done].
  - intros w1 w2 w3 e1 e2 [H1 K1] [H2 K2]. split; [by apply Forall_app | congruence].
Qed.



Section Row.
Context {env : Env}.

















End Row.





(** ** The session gates *)

Lemma attempts_app a e1 e2 : attempts a (e1 ++ e2) = attempts a e1 + attempts a e2.
Proof. unfold attempts. by rewrite filter_app, length_app. Qed.

Lemma completions_app a e1 e2 : completions a (e1 ++ e2) = completions a e1 + completions a e2.
Proof. unfold completions. by rewrite filter_app, length_app. Qed.





Lemma completions_did_some a a' e : completions a [Did a' (Some e)] = 0.
Proof. reflexivity. Qed.

#[global] Instance gateSummary_sequential {env} (g : Gate) : Sequential (@gateSummary env g).
Proof.
  split; unfold gateSummary.
  - intros w. destruct (gateFlag g (flags w)); done.
  - intros w1 w2 w3 e1 e2 H1 H2.
    destruct (gateFlag g (flags w1)).
    + destruct H1 as [Hf H1]. rewrite Hf in H2. destruct H2 as [Hf' H2].
      split; [done |]. rewrite attempts_app. lia.
    + destruct (gateFlag g (flags w2)).
      * destruct H1 as (a & b & -> & Ha & Hb). destruct H2 as [Hf' H2]. rewrite Hf'.
        exists a, (b ++ e2). rewrite <- app_assoc. split; [done |].
        split; [done |]. rewrite attempts_app. lia.
      * destruct (gateFlag g (flags w3)).
        -- destruct H2 as (a & b & -> & Ha & Hb). exists (e1 ++ a), b.
           rewrite <- app_assoc. split; [done |]. split; [| done].
           rewrite completions_app. lia.
        -- rewrite completions_app. lia.
Qed.


Ltac flags_done :=
  intros; unfold flagsKept;
  repeat match goal with w : World _ |- _ => destruct w as [? [? ? ? ?] ? ? ?] end;
  intros [] ?; simpl in *; done.


Section Gates.
Context {env : Env}.





End Gates.


Section Run.
Context {env : Env}.



Lemma processRow_flagsKept havePage row rowIndex :
  respects (@flagsKept env) (processRow havePage row rowIndex).
Proof. respects_go; flags_done. Qed.

Lemma main_flagsKept validRows invalidRows :
  respects (@flagsKept env) (main validRows invalidRows).
Proof.
  unfold main.
  repeat first [ apply processRow_flagsKept | respects_step
               | progress unfold rowTurn, pushResults ];
    flags_done.
Qed.

End Run.



(** * Further properties of the Status Writer *)

Lemma foldl_addResult_lookup results m n :
  foldl addResult m results !! n =
    if n =? 0 then m !! n
    else match resultsOfRow results n with
         | [] => m !! n
         | l => Some (default [] (m !! n) ++ l)
         end.
Proof.
  revert m. induction results as [| r results IH]; intros m; simpl.
  - by destruct (n =? 0).
  - rewrite IH. unfold resultsOfRow. rewrite filter_cons.
    unfold addResult, rowNumOf.
    destruct (n =? 0) eqn:Hn0.
    + apply Nat.eqb_eq in Hn0 as ->.
      destruct (rowNumber r =? 0) eqn:Hr; [done |].
      apply Nat.eqb_neq in Hr. by rewrite lookup_insert_ne.
    + apply Nat.eqb_neq in Hn0.
      destruct (decide (rowNumber r = n)) as [-> | Hne].
      * rewrite (proj2 (Nat.eqb_neq n 0)) by done.
        rewrite lookup_insert_eq. simpl.
        destruct (filter _ results) as [| x l]; [done |].
        by rewrite <- app_assoc.
      * destruct (rowNumber r =? 0); [done |].
        by rewrite lookup_insert_ne.
Qed.

Lemma buildResultsMap_lookup results n :
  buildResultsMap results !! n =
    if (n =? 0) || bool_decide (resultsOfRow results n = []) then None
    else Some (resultsOfRow results n).
Proof.
  unfold buildResultsMap. rewrite foldl_addResult_lookup, lookup_empty.
  destruct (n =? 0); [done |]. simpl.
  by destruct (resultsOfRow results n).
Qed.

(** X1. The results map groups the results by row number.  A falsy row number
    is no key; a key holds the results with that row number, at least
    one, in the order of [results]; and every result with a row number is
    in the group of its row. *)
Theorem buildResultsMap_groups_by_row results :
  buildResultsMap results !! 0 = None ∧
  (∀ n rs, buildResultsMap results !! n = Some rs →
     rs ≠ [] ∧ rs = resultsOfRow results n) ∧
  (∀ r, r ∈ results → rowNumber r ≠ 0 →
     ∃ rs, buildResultsMap results !! rowNumber r = Some rs ∧ r ∈ rs).
Proof.
  split; [by rewrite buildResultsMap_lookup |]. split.
  - intros n rs. rewrite buildResultsMap_lookup.
    destruct (n =? 0); [done |]. simpl.
    destruct (bool_decide (resultsOfRow results n = [])) eqn:He; [done |].
    apply bool_decide_eq_false in He. by intros [= <-].
  - intros r Hin Hrow. rewrite buildResultsMap_lookup.
    rewrite (proj2 (Nat.eqb_neq _ _) Hrow). simpl.
    assert (r ∈ resultsOfRow results (rowNumber r)) as Hr
      by (by apply list_elem_of_filter).
    rewrite bool_decide_eq_false_2; [eauto |].
    intros He. rewrite He in Hr. by apply elem_of_nil in Hr.
Qed.

Lemma statusValue_results results i c :
  statusValue (buildResultsMap results) i c =
    match resultsOfRow results (i + 1) with
    | [] => notProcessedOr c
    | rs => CStr (aggregateStatus rs)
    end.
Proof.
  unfold statusValue. rewrite buildResultsMap_lookup.
  replace (i + 1 =? 0) with false by (symmetry; apply Nat.eqb_neq; lia). simpl.
  destruct (resultsOfRow results (i + 1)) as [| r rs]; [done |].
  rewrite bool_decide_eq_false_2 by done. done.
Qed.

(** The loop body on a row that ends one cell before the Status
    column, or at it. *)
Lemma updateRow_short m idx i row :
  length row = idx →
  updateRow m idx i (padTo (idx + 1) row) = row ++ [statusValue m i (CStr "")].
Proof.
  intros Hlen.
  assert (padTo (idx + 1) row = row ++ [CStr ""]) as Hpad
    by (subst idx; apply padTo_short).
  rewrite Hpad. rewrite (updateRow_full m idx i _ (CStr "")).
  - subst idx. rewrite insert_app_r_alt by lia.
    by replace (length row - length row) with 0 by lia.
  - rewrite length_app. simpl. lia.
  - rewrite lookup_app_r by lia. by replace (idx - length row) with 0 by lia.
Qed.

Lemma delete_last_take {A} (l : list A) : delete (length l - 1) l = take (length l - 1) l.
Proof.
  induction l as [| x l IH]; [done |]. simpl.
  destruct l as [| y l]; [done |]. simpl in *.
  replace (length l - 0) with (length l) in * by lia.
  replace (length l - 0) with (length l) by lia. f_equal.
  rewrite <- IH. done.
Qed.

(** The rows that the Status Writer leaves on a rectangular sheet: under
    the located header, every data row without the cell of the first
    Status column and, at its end, the value of its Status cell. *)
Lemma updateRows_shape h data results :
  rectangular (h :: data) →
  updateRows (h :: data) results =
    (locatedHeader h ::
       imap (λ j d, withoutStatusCell h d ++
                      [statusValue (buildResultsMap results) (S j) (priorCell (h :: data) d)])
            data,
     length (locatedHeader h) - 1).
Proof.
  intros Hrect. unfold rectangular in Hrect. rewrite headerOf_cons in Hrect.
  apply Forall_cons in Hrect as [_ Hrect]. rewrite Forall_forall in Hrect.
  assert (∀ j d, data !! j = Some d → length d = length h) as Hlen.
  { intros j d Hd. apply Hrect. by eapply list_elem_of_lookup_2. }
  unfold updateRows. rewrite locateStatusColumn_cons.
  unfold locatedHeader, withoutStatusCell, priorCell, keptColumn. rewrite headerOf_cons.
  destruct (findIndex isStatusHeader h) as [k |] eqn:Hk.
  - pose proof (findIndex_lt _ _ _ Hk) as Hklt.
    destruct (k + 1 <? length h) eqn:Hlt; simpl.
    + apply Nat.ltb_lt in Hlt.
      assert (length (delete k h ++ [CStr "Status"]) = length h) as Hl.
      { rewrite length_app, length_delete by (apply lookup_lt_is_Some; lia).
        simpl. lia. }
      rewrite Hl. f_equal. f_equal.
      rewrite <- list_fmap_compose, imap_fmap. apply imap_ext.
      intros j d Hd. simpl. specialize (Hlen _ _ Hd).
      assert (length (delete k d) = length h - 1) as Hld
        by (rewrite length_delete; [lia | apply lookup_lt_is_Some; lia]).
      rewrite <- (updateRow_short _ (length h - 1) _ _ Hld).
      by replace (length h - 1 + 1) with (length h) by lia.
    + apply Nat.ltb_ge in Hlt. assert (k = length h - 1) as -> by lia.
      f_equal. f_equal. apply imap_ext. intros j d Hd. simpl.
      specialize (Hlen _ _ Hd).
      assert (is_Some (d !! (length h - 1))) as [c Hc]
        by (apply lookup_lt_is_Some; lia).
      rewrite Hc. simpl.
      rewrite (updateRow_full _ _ _ _ c) by (done || lia).
      rewrite <- Hlen. rewrite delete_last_take.
      rewrite <- (take_drop (length d - 1) d) at 2.
      rewrite insert_app_r_alt by (rewrite length_take; lia).
      rewrite length_take. replace (length d - 1 - (length d - 1) `min` length d) with 0 by lia.
      f_equal. destruct (drop (length d - 1) d) as [| c' [| c'' t]] eqn:Hd'.
      * apply (f_equal length) in Hd'. rewrite length_drop in Hd'. simpl in Hd'. lia.
      * done.
      * apply (f_equal length) in Hd'. rewrite length_drop in Hd'. simpl in Hd'. lia.
  - simpl. rewrite length_app. simpl.
    replace (length h + 1 - 1) with (length h) by lia.
    f_equal. f_equal. rewrite imap_fmap. apply imap_ext. intros j d Hd. simpl.
    specialize (Hlen _ _ Hd). apply updateRow_short. done.
Qed.

Lemma sheet_data_lookup (h : list Cell) (data : list (list Cell)) i :
  (h :: data) !! S i = data !! i.
Proof. done. Qed.

(** X2. On a rectangular sheet, the last cell of the data row at index [i]
    (Excel row [i + 1]) is, after the run, the aggregated status of the
    results whose row number is [i + 1], in the order of [results]; in a
    row without results it is "Not Processed" when the Status cell of
    the row was empty or falsy, and the former content of the cell
    otherwise.  A column that was moved or created counts as empty. *)
Theorem status_cell_value sheet results sheet' :
  rectangular (sheetRows sheet) →
  updateOriginalExcel sheet results = inr sheet' →
  ∀ i row, sheetRows sheet !! S i = Some row →
    ∃ row', sheetRows sheet' !! S i = Some row' ∧
      last row' = Some
        match resultsOfRow results (S i + 1) with
        | [] => notProcessedOr (priorCell (sheetRows sheet) row)
        | rs => CStr (aggregateStatus rs)
        end.
Proof.
  intros Hrect Hrun i row Hrow.
  apply updateOriginalExcel_inr in Hrun as (h & data & Hrows & Hrows' & _).
  rewrite Hrows in Hrect, Hrow |- *. rewrite Hrows'.
  rewrite (updateRows_shape _ _ _ Hrect). simpl.
  rewrite sheet_data_lookup in Hrow.
  eexists. split; [by rewrite list_lookup_imap, Hrow |].
  rewrite last_snoc. f_equal. apply statusValue_results.
Qed.

Lemma status_cell_value_witness :
  rectangular (sheetRows misplacedStatusSheet) ∧
  ∃ sheet',
    updateOriginalExcel misplacedStatusSheet resultsForRow3 = inr sheet' ∧
    ∃ row', sheetRows sheet' !! 2 = Some row' ∧ last row' = Some (CStr "Billed").
Proof.
  assert (rectangular (sheetRows misplacedStatusSheet)) as Hrect.
  { unfold rectangular. simpl. repeat constructor. }
  split; [exact Hrect |]. eexists. split; [reflexivity |].
  exact (status_cell_value misplacedStatusSheet resultsForRow3 _ Hrect eq_refl
           1 [CStr ""; CStr "1002"] eq_refl).
Defined.

Lemma locatedHeader_frame h :
  ∃ c, isStatusHeader c = true ∧ locatedHeader h = withoutStatusCell h h ++ [c].
Proof.
  unfold locatedHeader, withoutStatusCell.
  destruct (findIndex isStatusHeader h) as [k |] eqn:Hk.
  - destruct (k + 1 <? length h) eqn:Hlt.
    + exists (CStr "Status"). split; [apply isStatusHeader_Status | done].
    + apply Nat.ltb_ge in Hlt. pose proof (findIndex_lt _ _ _ Hk) as Hklt.
      assert (k = length h - 1) as -> by lia.
      destruct (findIndex_Some _ _ _ Hk) as [(c & Hc & Hst) _].
      exists c. split; [done |].
      rewrite delete_last_take.
      rewrite <- (take_drop (length h - 1) h) at 1. f_equal.
      apply list_eq. intros [| j]; simpl.
      * by rewrite lookup_drop, Nat.add_0_r.
      * rewrite lookup_drop. apply lookup_ge_None. lia.
  - exists (CStr "Status"). split; [apply isStatusHeader_Status | done].
Qed.

(** X3. The Status Writer keeps the other columns of a rectangular sheet.
    The sheet keeps its number of rows; every row, the header included,
    comes out as the row without the cell of the first Status column of
    the header, when there was one, followed by one cell: a Status
    header in the header row, the status in a data row.  All other cells
    keep their content and their order. *)
Theorem other_columns_kept sheet results sheet' :
  rectangular (sheetRows sheet) →
  updateOriginalExcel sheet results = inr sheet' →
  let h := headerOf (sheetRows sheet) in
  length (sheetRows sheet') = length (sheetRows sheet) ∧
  (∃ c, isStatusHeader c = true ∧
        headerOf (sheetRows sheet') = withoutStatusCell h h ++ [c]) ∧
  ∀ i row, sheetRows sheet !! S i = Some row →
    ∃ c, sheetRows sheet' !! S i = Some (withoutStatusCell h row ++ [c]).
Proof.
  intros Hrect Hrun.
  apply updateOriginalExcel_inr in Hrun as (h & data & Hrows & Hrows' & _).
  rewrite Hrows in Hrect |- *. rewrite Hrows'.
  rewrite (updateRows_shape _ _ _ Hrect). rewrite !headerOf_cons. simpl.
  split; [by rewrite length_imap |]. split; [apply locatedHeader_frame |].
  intros i row Hrow. eexists. by rewrite list_lookup_imap, Hrow.
Qed.

Lemma other_columns_kept_witness :
  rectangular (sheetRows misplacedStatusSheet) ∧
  ∃ sheet',
    updateOriginalExcel misplacedStatusSheet resultsForRow3 = inr sheet' ∧
    ∃ c, sheetRows sheet' !! 1 = Some ([CStr "1001"] ++ [c]).
Proof.
  assert (rectangular (sheetRows misplacedStatusSheet)) as Hrect.
  { unfold rectangular. simpl. repeat constructor. }
  split; [exact Hrect |]. eexists. split; [reflexivity |].
  destruct (other_columns_kept misplacedStatusSheet resultsForRow3 _ Hrect eq_refl)
    as (_ & _ & Hrow).
  exact (Hrow 0 [CStr "old"; CStr "1001"] eq_refl).
Defined.

Lemma updateRows_length rows results :
  length (updateRows rows results).1 = length rows.
Proof.
  destruct rows as [| h data]; [done |].
  unfold updateRows. rewrite locateStatusColumn_cons.
  destruct (findIndex isStatusHeader h) as [k |];
    [destruct (k + 1 <? length h) |]; simpl;
    by rewrite length_imap, ?length_fmap.
Qed.

(** X4. The Status Writer fails on a sheet without any row, the header row
    included, with the message of line 151, and on no other sheet,
    whatever the results are; when it succeeds the sheet has as many
    rows as before. *)
Theorem updateOriginalExcel_fails_on_empty_sheet_only sheet results :
  match updateOriginalExcel sheet results with
  | inl e => sheetRows sheet = [] ∧ e = "No data found in sheet"
  | inr sheet' =>
      sheetRows sheet ≠ [] ∧ length (sheetRows sheet') = length (sheetRows sheet)
  end.
Proof.
  destruct (updateOriginalExcel sheet results) as [e | sheet'] eqn:Hrun.
  - unfold updateOriginalExcel in Hrun.
    destruct (sheetRows sheet) as [| h data]; [by injection Hrun as <- |].
    simpl length in Hrun. simpl (_ =? _) in Hrun.
    by destruct (updateRows (h :: data) results).
  - apply updateOriginalExcel_inr in Hrun as (h & data & Hrows & Hrows' & _).
    rewrite Hrows, Hrows'. split; [done | apply updateRows_length].
Qed.

Lemma append_eq_empty (s t : string) : s +:+ t = "" → s = "".
Proof. by destruct s. Qed.

Lemma statusesOf_truthy results s : s ∈ statusesOf results → s ≠ "".
Proof.
  unfold statusesOf. intros (r & -> & _)%list_elem_of_fmap.
  unfold or_else, truthy. destruct (String.eqb_spec (status r) ""); simpl; [done |].
  done.
Qed.

(** The aggregator never returns the empty string. *)
Lemma aggregateStatus_not_empty results : aggregateStatus results ≠ "".
Proof.
  destruct (decide (length (uniqueStatuses results) ≤ 1)) as [Hle | Hgt].
  - destruct (uniqueStatuses results) as [| s [| s' l]] eqn:HU.
    + apply newSet_nil_inv, statusesOf_nil_inv in HU as ->. done.
    + rewrite (aggregateStatus_single _ _ HU).
      apply (statusesOf_truthy results). apply elem_of_newSet.
      unfold uniqueStatuses in HU. rewrite HU. apply list_elem_of_here.
    + simpl in Hle. lia.
  - rewrite aggregateStatus_mixed by lia.
    repeat case_bool_decide; try done.
    destruct (uniqueStatuses results) as [| s [| s' l]] eqn:HU;
      [simpl in Hgt; lia | simpl in Hgt; lia |].
    unfold join. simpl. intros He. apply append_eq_empty in He.
    apply (statusesOf_truthy results s); [| done].
    apply elem_of_newSet. unfold uniqueStatuses in HU. rewrite HU.
    apply list_elem_of_here.
Qed.

Lemma cellIsEmpty_CStr s : s ≠ "" → cellIsEmpty (CStr s) = false.
Proof.
  intros Hs. unfold cellIsEmpty, cellTruthy, truthy.
  destruct (String.eqb_spec s ""); [done |]. simpl.
  apply bool_decide_eq_false. by intros [= ->].
Qed.

Lemma padTo_lookup n row j :
  length row ≤ j → j < n → padTo n row !! j = Some (CStr "").
Proof.
  intros Hle Hlt. unfold padTo. rewrite lookup_app_r by done.
  apply lookup_replicate. split; [done | lia].
Qed.

Lemma padTo_length n row : n ≤ length (padTo n row).
Proof. unfold padTo. rewrite length_app, length_replicate. lia. Qed.

(** The loop body leaves a Status cell that is not empty, on a row of
    any length. *)
Lemma updateRow_status_cell m idx i row :
  ∃ c, updateRow m idx i row !! idx = Some c ∧ cellIsEmpty c = false.
Proof.
  unfold updateRow.
  pose proof (padTo_length (idx + 1) row) as Hlen.
  set (row1 := padTo (idx + 1) row) in *.
  assert (is_Some (row1 !! idx)) as [c Hc] by (apply lookup_lt_is_Some; lia).
  assert (∀ s, s ≠ "" →
            ∃ c', <[idx := CStr s]> row1 !! idx = Some c' ∧ cellIsEmpty c' = false)
    as Hset.
  { intros s Hs. exists (CStr s). split; [| by apply cellIsEmpty_CStr].
    apply list_lookup_insert_eq. lia. }
  rewrite Hc. simpl.
  destruct (m !! (i + 1)) as [rs |].
  - destruct (0 <? length rs).
    + apply Hset, aggregateStatus_not_empty.
    + destruct (cellIsEmpty c) eqn:He; [by apply Hset | eauto].
  - destruct (cellIsEmpty c) eqn:He; [by apply Hset | eauto].
Qed.

(** X5. After the Status Writer has run, on a sheet of any shape, every data
    row reaches the last column of the header and holds a status there
    that is not empty: rows that were too short are filled up with empty
    cells. *)
Theorem every_data_row_gets_status sheet results sheet' :
  updateOriginalExcel sheet results = inr sheet' →
  let idx := length (headerOf (sheetRows sheet')) - 1 in
  ∀ i row', sheetRows sheet' !! S i = Some row' →
    ∃ c, row' !! idx = Some c ∧ cellIsEmpty c = false.
Proof.
  intros Hrun idx i row' Hrow'. subst idx.
  apply updateOriginalExcel_inr in Hrun as (h & data & Hrows & Hrows' & _).
  rewrite Hrows' in Hrow' |- *.
  rewrite (proj1 (updateRows_header _ _)), (proj1 (locateStatusColumn_header _ _)).
  pose proof (proj2 (updateRows_header (h :: data) results)) as Hidx.
  rewrite (proj2 (locateStatusColumn_header _ _)) in Hidx.
  unfold updateRows in Hrow', Hidx.
  destruct (locateStatusColumn (h :: data)) as [[| h1 data1] idx1] eqn:Hloc;
    simpl in Hrow', Hidx; [done |].
  rewrite list_lookup_imap in Hrow'.
  destruct (data1 !! i) as [d |]; [| done]. injection Hrow' as <-.
  rewrite <- Hidx. apply updateRow_status_cell.
Qed.

Lemma every_data_row_gets_status_witness :
  ∃ sheet', updateOriginalExcel raggedSheet [] = inr sheet' ∧
    sheetRows sheet' !! 1 = Some [CStr "1001"; CStr ""; CStr "Not Processed"] ∧
    ∃ c, [CStr "1001"; CStr ""; CStr "Not Processed"] !! 2 = Some c ∧ cellIsEmpty c = false.
Proof.
  eexists. split; [reflexivity |]. split; [reflexivity |].
  exact (every_data_row_gets_status raggedSheet [] _ eq_refl 0 _ eq_refl).
Defined.

(** X6. On a sheet without column widths every column of the updated sheet
    gets the default width: the list has one default entry per header,
    the Status column included. *)
Theorem column_widths_created_when_missing sheet results sheet' :
  updateOriginalExcel sheet results = inr sheet' →
  sheetCols sheet = None →
  sheetCols sheet' = Some (replicate (length (headerOf (sheetRows sheet'))) defaultCol).
Proof.
  intros Hrun Hnone.
  apply updateOriginalExcel_statusColumnIndex in Hrun as (h & data & _ & ->).
  rewrite Hnone. simpl. f_equal.
  set (h' := headerOf (sheetRows sheet')).
  assert ((λ _ : Cell, defaultCol) <$> h' = replicate (length h') defaultCol) as ->.
  { by apply const_fmap. }
  destruct (decide (length h' - 1 < length h')) as [Hlt | Hge].
  - apply list_insert_id. apply lookup_replicate. done.
  - apply list_insert_ge. rewrite length_replicate. lia.
Qed.

Lemma column_widths_created_when_missing_witness :
  ∃ sheet', updateOriginalExcel raggedSheet [] = inr sheet' ∧
    sheetCols sheet' = Some [defaultCol; defaultCol; defaultCol].
Proof.
  eexists. split; [reflexivity |].
  exact (column_widths_created_when_missing raggedSheet [] _ eq_refl eq_refl).
Defined.

(** * Further properties of the automation *)

(** ** Reasoning about the outcome of a run *)

Section Wp.
Context {env : Env}.
Implicit Types (w : World env).

Lemma wp_ret {A} (a : A) Q E w : Q a w [] → wp (ret a) Q E w.
Proof. done. Qed.

Lemma wp_throw {A} e (Q : A → World env → list Event → Prop) E w :
  E e w [] → wp (throw e) Q E w.
Proof. done. Qed.

Lemma wp_gets {A} (f : World env → A) Q E w : Q (f w) w [] → wp (gets f) Q E w.
Proof. done. Qed.

Lemma wp_modify (f : World env → World env) Q E w : Q tt (f w) [] → wp (modify f) Q E w.
Proof. done. Qed.

Lemma wp_log (l : LogMsg) Q E w : Q tt w [Log l] → wp (log l) Q E w.
Proof. done. Qed.

Lemma wp_call (a : Action) Q E w :
  (∀ p, (∀ v, Q v (setPage p w) [Did a None]) ∧
        (∀ e, E e (setPage p w) [Did a (Some e)])) →
  wp (call a) Q E w.
Proof.
  intros H. unfold wp, call. destruct (perform env a (page w)) as [[e | v] p]; simpl.
  - apply H.
  - apply H.
Qed.

Lemma wp_bind {A B} (m : M env A) (k : A → M env B) Q E w :
  wp m (λ a w1 e1, wp (k a) (λ b w2 e2, Q b w2 (e1 ++ e2))
                             (λ e w2 e2, E e w2 (e1 ++ e2)) w1) E w →
  wp (bindM m k) Q E w.
Proof.
  unfold wp, bindM. destruct (outcome (m w)) as [e | a]; simpl; [done |].
  by destruct (outcome (k a (after (m w)))).
Qed.

Lemma wp_try_catch {A} (m : M env A) (h : string → M env A) Q E w :
  wp m Q (λ e w1 e1, wp (h e) (λ b w2 e2, Q b w2 (e1 ++ e2))
                              (λ e' w2 e2, E e' w2 (e1 ++ e2)) w1) w →
  wp (try_catch m h) Q E w.
Proof.
  unfold wp, try_catch. destruct (outcome (m w)) as [e | a] eqn:Hm; simpl.
  - by destruct (outcome (h e (after (m w)))).
  - by rewrite Hm.
Qed.

Lemma wp_mono {A} (m : M env A) (Q Q' : A → World env → list Event → Prop) E E' w :
  wp m Q E w →
  (∀ a w' evs, Q a w' evs → Q' a w' evs) →
  (∀ e w' evs, E e w' evs → E' e w' evs) →
  wp m Q' E' w.
Proof. unfold wp. destruct (outcome (m w)); auto. Qed.

(** What a run respects holds of its outcome, whatever it is. *)
Lemma wp_respects {A} (R : World env → World env → list Event → Prop) (m : M env A) Q E w :
  respects R m →
  (∀ a w' evs, R w w' evs → Q a w' evs) →
  (∀ e w' evs, R w w' evs → E e w' evs) →
  wp m Q E w.
Proof. intros Hm HQ HE. unfold wp. destruct (outcome (m w)); [apply HE | apply HQ]; apply Hm. Qed.

Lemma wp_outcome {A} (m : M env A) Q E w :
  wp m Q E w →
  (∃ a, outcome (m w) = inr a ∧ Q a (after (m w)) (events (m w))) ∨
  (∃ e, outcome (m w) = inl e ∧ E e (after (m w)) (events (m w))).
Proof. unfold wp. destruct (outcome (m w)); eauto. Qed.

End Wp.

#[global] Instance onlyPage_sequential {env} : Sequential (@onlyPage env).
Proof.
  split; unfold onlyPage; [done |].
  intros w1 w2 w3 _ _ (? & ? & ? & ?) (? & ? & ? & ?). repeat split; congruence.
Qed.

#[global] Instance resultsKept_sequential {env} : Sequential (@resultsKept env).
Proof. split; unfold resultsKept; [done | congruence]. Qed.

Lemma entryInvariant_refl excelRow r : entryInvariant excelRow r r.
Proof. unfold entryInvariant. tauto. Qed.

Lemma entryInvariant_trans excelRow r1 r2 r3 :
  entryInvariant excelRow r1 r2 → entryInvariant excelRow r2 r3 →
  entryInvariant excelRow r1 r3.
Proof.
  unfold entryInvariant.
  intros (? & ? & ? & ? & H12) (? & ? & ? & ? & H23).
  split; [congruence |]. split; [congruence |]. split; [congruence |].
  split; [congruence |]. intros Hb Hs Hs'.
  destruct (H12 Hb Hs Hs') as (Hb2 & Hs2 & Hs2'). by apply H23.
Qed.

#[global] Instance keepsEntry_sequential {env} excelRow : Sequential (@keepsEntry env excelRow).
Proof.
  split; unfold keepsEntry.
  - intros w. split; [apply entryInvariant_refl | done].
  - intros w1 w2 w3 _ _ (H12 & ? & ? & ?) (H23 & ? & ? & ?).
    split; [by eapply entryInvariant_trans |]. repeat split; congruence.
Qed.

(** ** One patient entry always gives a result *)

Lemma entryInvariant_withBillingStatus excelRow r :
  entryInvariant excelRow r (withBillingStatus (targetBillingStatus excelRow) r).
Proof. unfold entryInvariant. simpl. tauto. Qed.

Lemma savedResult_status r total b :
  status (savedResult r total b) =
    if b then
      if String.eqb (billingStatus r) "Billed" then "Billed"
      else if String.eqb (billingStatus r) "Appt. Cancelled" then "Appt. Cancelled"
      else "Success"
    else "Success".
Proof.
  unfold savedResult. destruct b; [| done].
  destruct (String.eqb (billingStatus r) "Billed"); [done |].
  by destruct (String.eqb (billingStatus r) "Appt. Cancelled").
Qed.

Lemma savedResult_fields r total b :
  rowNumber (savedResult r total b) = rowNumber r ∧
  mrn (savedResult r total b) = mrn r ∧
  patientIndex (savedResult r total b) = patientIndex r ∧
  totalPatients (savedResult r total b) = totalPatients r ∧
  billingStatus (savedResult r total b) = billingStatus r ∧
  errorMessage (savedResult r total b) = errorMessage r.
Proof.
  unfold savedResult.
  destruct (if b then _ else _) as [st nt]. done.
Qed.

Lemma entryInvariant_savedResult excelRow r total b :
  entryInvariant excelRow r (savedResult r total b).
Proof.
  unfold entryInvariant.
  destruct (savedResult_fields r total b) as (-> & -> & -> & -> & -> & _).
  repeat split; try done; rewrite savedResult_status;
    destruct H as [Hb | Hb]; rewrite Hb;
    destruct b; simpl; try done;
    destruct (String.eqb_spec (targetBillingStatus excelRow) "Billed") as [-> | ?];
    try done;
    destruct (String.eqb_spec (targetBillingStatus excelRow) "Appt. Cancelled") as [-> | ?];
    done.
Qed.

Lemma entryInvariant_failedResult excelRow e r :
  entryInvariant excelRow r (failedResult e r).
Proof. unfold entryInvariant. simpl. repeat split; try tauto; discriminate. Qed.

(** Close the side conditions of [respects_go] for [keepsEntry]. *)
Ltac entry_done :=
  intros; unfold keepsEntry; simpl;
  first [ split; [apply entryInvariant_refl | done]
        | split; [apply entryInvariant_withBillingStatus | done]
        | split; [apply entryInvariant_savedResult | done]
        | split; [apply entryInvariant_failedResult | done] ].

Section Entry.
Context {env : Env}.

Lemma patientSteps_keepsEntry excelRow i total :
  respects (@keepsEntry env excelRow) (patientSteps excelRow i total).
Proof. respects_go; entry_done. Qed.




End Entry.

Section EntryRun.
Context {env : Env}.

Lemma bindM_modify {A} (f : World env → World env) (k : unit → M env A) w :
  bindM (modify f) k w =
    mkRun (outcome (k tt (f w))) (after (k tt (f w))) (events (k tt (f w))).
Proof. done. Qed.

(** The run of [processPatientClaim]: the steps from the state [w0] with
    the fresh result and, when they threw, the handler of lines
    1193-1209. *)
Lemma processPatientClaim_run excelRow i total (w : World env) :
  let w0 := setResult
    (mkResult (_rowNumber excelRow) (field excelRow "mrn") (i + 1) total "Unknown" "" "" "") w in
  let ps := patientSteps excelRow i total w0 in
  let r := processPatientClaim excelRow i total w in
  (outcome ps = inr tt ∧ outcome r = inr (result (after ps)) ∧
   after r = after ps ∧ events r = events ps) ∨
  (∃ e o, outcome ps = inl e ∧
     outcome r = inr (failedResult e (result (after ps))) ∧
     events r = events ps ++ [Log (LPatientFailed e); Did ACloseModal o] ∧
     flags (after r) = flags (after ps) ∧
     allResults (after r) = allResults (after ps) ∧
     results (after r) = results (after ps)).
Proof.
  intros w0 ps r. subst r. unfold processPatientClaim.
  rewrite bindM_modify. cbn [after outcome events]. fold w0.
  destruct (outcome ps) as [e | []] eqn:Hps.
  - right.
    set (h := λ error : string,
           (modify (λ w1 : World env, setResult (failedResult error (result w1)) w1);;
            log (LPatientFailed error);;
            try_catch (call ACloseModal) (λ _, ret tt))).
    assert (∃ p o, h e (after ps) =
              mkRun (inr tt) (setPage p (setResult (failedResult e (result (after ps))) (after ps)))
                [Log (LPatientFailed e); Did ACloseModal o]) as (p & o & Hh).
    { subst h. cbv beta. unfold bindM, try_catch, call, modify, log, ret. simpl.
      destruct (perform env ACloseModal (page (after ps))) as [[e' | []] p]; simpl; eauto. }
    exists e, o.
    split; [done |].
    rewrite (bindM_inr (try_catch _ _) _ w0 tt);
      rewrite (try_catch_inl _ _ w0 e Hps); fold ps; fold (h e); rewrite Hh; simpl; [| done].
    rewrite app_nil_r. done.
  - left. split; [done |].
    rewrite (bindM_inr (try_catch _ _) _ w0 tt);
      rewrite (try_catch_inr _ _ w0 tt Hps); fold ps; [| done].
    simpl. by rewrite app_nil_r.
Qed.

End EntryRun.


(** ** One row always gives results *)

#[global] Instance rowQuiet_sequential {env} : Sequential (@rowQuiet env).
Proof.
  split; unfold rowQuiet, noCompleted.
  - intros w. split; [constructor | done].
  - intros w1 w2 w3 e1 e2 (? & ? & ?) (? & ? & ?).
    split; [by apply Forall_app |]. split; congruence.
Qed.

(** Close the side conditions of [respects_go] for [rowQuiet]. *)
Ltac rowQuiet_done :=
  intros; unfold rowQuiet, noCompleted; simpl;
  split; [repeat constructor; done | done].

Lemma noCompleted_app e1 e2 : noCompleted e1 → noCompleted e2 → noCompleted (e1 ++ e2).
Proof. apply Forall_app_2. Qed.

Lemma noCompleted_not_in evs n : noCompleted evs → Log (LCompleted n) ∉ evs.
Proof.
  unfold noCompleted. rewrite Forall_forall. intros H Hin. by apply (H _ Hin n).
Qed.

Ltac noCompleted_solve :=
  unfold noCompleted in *;
  repeat first [ assumption | apply Forall_app_2 | apply Forall_nil_2
               | apply Forall_cons_2; [done |] ].

Lemma noCompleted_one ev : (∀ n, ev ≠ Log (LCompleted n)) → noCompleted [ev].
Proof. intros H. by repeat constructor. Qed.

Section Row.
Context {env : Env}.

Lemma navigateToAccountsOnce_rowQuiet : respects (@rowQuiet env) navigateToAccountsOnce.
Proof. respects_go; rowQuiet_done. Qed.

Lemma openClaimsOnce_rowQuiet : respects (@rowQuiet env) openClaimsOnce.
Proof. respects_go; rowQuiet_done. Qed.

Lemma applyEntitySourceOnce_rowQuiet : respects (@rowQuiet env) applyEntitySourceOnce.
Proof. respects_go; rowQuiet_done. Qed.

Lemma applyAssessmentOnce_rowQuiet : respects (@rowQuiet env) applyAssessmentOnce.
Proof. respects_go; rowQuiet_done. Qed.

Lemma updateCustomIdFilter_rowQuiet row : respects (@rowQuiet env) (updateCustomIdFilter row).
Proof. respects_go; rowQuiet_done. Qed.

Lemma updateMrnFilter_rowQuiet row : respects (@rowQuiet env) (updateMrnFilter row).
Proof. respects_go; rowQuiet_done. Qed.

Lemma updateAppointmentDateFilter_rowQuiet row :
  respects (@rowQuiet env) (updateAppointmentDateFilter row).
Proof. respects_go; rowQuiet_done. Qed.

Lemma patientSteps_noCompleted row i total :
  respects (@emitsOnly env (λ ev, ∀ n, ev ≠ Log (LCompleted n))) (patientSteps row i total).
Proof. respects_go; intros; unfold emitsOnly; repeat constructor; done. Qed.

(** What the loop over the entries needs to know of one entry. *)
Lemma wp_processPatientClaim row rowIndex i total Q E (w : World env) :
  (∀ res w' evs,
     belongsTo row rowIndex res → patientIndex res = i + 1 → totalPatients res = total →
     allResults w' = allResults w → results w' = results w → noCompleted evs →
     Q res w' evs) →
  wp (processPatientClaim row i total) Q E w.
Proof.
  intros HQ. unfold wp.
  pose proof (processPatientClaim_run row i total w) as Hrun. cbv zeta in Hrun.
  set (w0 := setResult _ w) in Hrun.
  set (ps := patientSteps row i total w0) in Hrun.
  destruct (patientSteps_keepsEntry row i total w0) as (Hinv & Hall & Hres & Hfl).
  fold ps in Hinv, Hall, Hres, Hfl. simpl in Hall, Hres, Hfl.
  destruct Hinv as (Hrow & Hmrn & Hidx & Htot & _). simpl in Hrow, Hmrn, Hidx, Htot.
  pose proof (patientSteps_noCompleted row i total w0) as Hquiet.
  unfold emitsOnly in Hquiet. fold ps in Hquiet.
  destruct Hrun as [(Hps & -> & -> & ->) | (e & o & Hps & -> & Hev & _ & Hall' & Hres')].
  - apply HQ; try done. split; [done | by left].
  - apply HQ; try done; try congruence.
    + split; [done | by left].
    + rewrite Hev. apply noCompleted_app; [done |]. by repeat constructor.
Qed.


Lemma seq_S_cons i todo : seq i (S todo) = i :: seq (S i) todo.
Proof. done. Qed.

(** The loop over the entries records one result per turn. *)
Lemma wp_patientsLoop row rowIndex n todo : ∀ i (w : World env),
  wp (patientsLoop row i todo n)
    (λ _ w' evs, ∃ l, allResults w' = allResults w ++ l ∧
       patientIndex <$> l = seq (S i) todo ∧ Forall (λ x, totalPatients x = n) l ∧
       Forall (belongsTo row rowIndex) l ∧ results w' = results w ∧ noCompleted evs)
    (λ _ w' evs, ∃ l, allResults w' = allResults w ++ l ∧
       Forall (belongsTo row rowIndex) l ∧ results w' = results w ∧ noCompleted evs) w.
Proof.
  induction todo as [| todo IH]; intros i w; simpl.
  - apply wp_ret. exists []. rewrite app_nil_r. repeat split; constructor.
  - apply wp_bind. apply (wp_processPatientClaim row rowIndex).
    intros res w1 ev1 Hb Hi Ht Hall1 Hres1 Hev1.
    apply wp_bind. unfold pushAllResults. apply wp_modify.
    apply wp_bind.
    assert (∀ (w2 : World env) ev2,
              allResults w2 = allResults w ++ [res] → results w2 = results w →
              noCompleted ev2 →
              wp (patientsLoop row (S i) todo n)
                (λ _ w' e3, ∃ l, allResults w' = allResults w ++ l ∧
                   patientIndex <$> l = S i :: seq (S (S i)) todo ∧
                   Forall (λ x, totalPatients x = n) l ∧
                   Forall (belongsTo row rowIndex) l ∧ results w' = results w ∧
                   noCompleted (ev1 ++ [] ++ ev2 ++ e3))
                (λ _ w' e3, ∃ l, allResults w' = allResults w ++ l ∧
                   Forall (belongsTo row rowIndex) l ∧ results w' = results w ∧
                   noCompleted (ev1 ++ [] ++ ev2 ++ e3)) w2) as Hrest.
    { intros w2 ev2 Hall2 Hres2 Hev2.
      eapply wp_mono; [apply (IH (S i) w2) | |].
      - intros _ w' e3 (l & Hl & Hidx & Htot & Hbel & Hres & He3).
        exists (res :: l). rewrite Hl, Hall2, <- app_assoc. split; [done |].
        split; [rewrite fmap_cons, Hi, Hidx; f_equal; lia |].
        split; [by constructor |]. split; [by constructor |].
        split; [congruence |].
        noCompleted_solve.
      - intros _ w' e3 (l & Hl & Hbel & Hres & He3).
        exists (res :: l). rewrite Hl, Hall2, <- app_assoc. split; [done |].
        split; [by constructor |]. split; [congruence |].
        noCompleted_solve. }
    destruct (i <? n - 1).
    + apply (wp_call (AWait 1000)). intros p. split.
      * intros []. apply Hrest; simpl; [by rewrite Hall1 | done |].
        noCompleted_solve.
      * intros e. exists [res]. simpl. rewrite Hall1. split; [done |].
        split; [by apply Forall_singleton |]. split; [done |].
        noCompleted_solve.
    + apply wp_ret. apply Hrest; simpl; [by rewrite Hall1 | done | constructor].
Qed.

Lemma rowDone_after_quiet row rowIndex rs (w' : World env) e1 e2 :
  noCompleted e1 → rowDone row rowIndex rs tt w' e2 → rowDone row rowIndex rs tt w' (e1 ++ e2).
Proof.
  intros He1 (Hne & Hbel & Hres & Hc).
  split; [done |]. split; [done |]. split; [done |].
  intros n Hin. apply Hc. apply elem_of_app in Hin as [Hin | Hin]; [| done].
  by apply noCompleted_not_in in Hin.
Qed.

Lemma rowThrew_after_quiet row rowIndex rs e (w' : World env) e1 e2 :
  noCompleted e1 → rowThrew row rowIndex rs e w' e2 → rowThrew row rowIndex rs e w' (e1 ++ e2).
Proof.
  intros He1 (Hbel & Hres & Hc). repeat split; try done. by apply noCompleted_app.
Qed.

(** A step that is quiet about the results, followed by the rest of the
    steps of the row. *)
Lemma wp_bind_quiet {A} row rowIndex rs (m : M env A) (k : A → M env unit) (w : World env) :
  allResults w = [] → results w = rs →
  respects rowQuiet m →
  (∀ a w', allResults w' = [] → results w' = rs →
     wp (k a) (rowDone row rowIndex rs) (rowThrew row rowIndex rs) w') →
  wp (bindM m k) (rowDone row rowIndex rs) (rowThrew row rowIndex rs) w.
Proof.
  intros Hall Hres Hm Hk. apply wp_bind. apply (wp_respects rowQuiet); [done | |].
  - intros a w' evs (Hev & Hall' & Hres').
    eapply wp_mono; [apply Hk; congruence | |].
    + intros [] w2 e2. by apply rowDone_after_quiet.
    + intros e w2 e2. by apply rowThrew_after_quiet.
  - intros e w' evs (Hev & Hall' & Hres').
    split; [rewrite Hall', Hall; constructor |]. split; [congruence | done].
Qed.

Lemma belongsTo_rowResult row rowIndex st err nt :
  belongsTo row rowIndex (rowResult row rowIndex st err nt).
Proof. split; [done | by right]. Qed.

Lemma wp_processPatients row rowIndex rs (w : World env) :
  allResults w = [] → results w = rs →
  wp (processPatients row rowIndex) (rowDone row rowIndex rs) (rowThrew row rowIndex rs) w.
Proof.
  intros Hall Hres. unfold processPatients.
  apply wp_bind. apply (wp_call ACountRows). intros p. split.
  - intros n. cbn [Res] in n. apply wp_bind, wp_log. destruct (n =? 0) eqn:Hn.
    + apply wp_bind, wp_log. unfold pushAllResults. apply wp_modify. simpl.
      rewrite Hall. split; [done |]. split; [apply Forall_singleton, belongsTo_rowResult |].
      split; [done |]. intros m Hin.
      rewrite !elem_of_cons in Hin. destruct Hin as [? | [? | [? | Hin]]]; try done.
      by apply elem_of_nil in Hin.
    + apply Nat.eqb_neq in Hn. apply wp_bind.
      eapply wp_mono; [apply (wp_patientsLoop row rowIndex) | |].
      * intros [] w' evs (l & Hl & Hidx & Htot & Hbel & Hres' & Hev).
        apply wp_log. simpl in Hl, Hres'. rewrite Hall in Hl. simpl in Hl.
        split; [| split; [| split]].
        -- rewrite Hl. intros ->. apply (f_equal length) in Hidx.
           rewrite length_seq in Hidx. simpl in Hidx. lia.
        -- by rewrite Hl.
        -- congruence.
        -- intros m Hin. rewrite Hl.
           assert (m = n) as ->; [| done].
           rewrite !elem_of_app, !elem_of_cons in Hin.
           destruct Hin as [[Hin | Hin] | [[Hin | Hin] | [Hin | [Hin | Hin]]]];
             try done; try (by apply elem_of_nil in Hin).
           ++ by apply noCompleted_not_in in Hin.
           ++ by injection Hin.
      * intros e w' evs (l & Hl & Hbel & Hres' & Hev).
        simpl in Hl, Hres'. rewrite Hall in Hl. simpl in Hl.
        split; [by rewrite Hl |]. split; [congruence |]. noCompleted_solve.
  - intros e. split; [simpl; rewrite Hall; constructor |]. split; [done |].
    noCompleted_solve.
Qed.

Lemma wp_rowSteps row rowIndex rs (w : World env) :
  allResults w = [] → results w = rs →
  wp (rowSteps row rowIndex) (rowDone row rowIndex rs) (rowThrew row rowIndex rs) w.
Proof.
  intros Hall Hres. unfold rowSteps, filterAndProcess.
  apply wp_bind_quiet; [done | done | respects_go; rowQuiet_done |].
  intros closed w1 Hall1 Hres1.
  apply wp_bind_quiet; [done | done | respects_go; rowQuiet_done |].
  intros _ w2 Hall2 Hres2.
  apply wp_bind_quiet; [done | done | apply navigateToAccountsOnce_rowQuiet |].
  intros _ w3 Hall3 Hres3.
  apply wp_bind_quiet; [done | done | apply openClaimsOnce_rowQuiet |].
  intros _ w4 Hall4 Hres4.
  apply wp_bind_quiet; [done | done | apply applyEntitySourceOnce_rowQuiet |].
  intros _ w5 Hall5 Hres5.
  apply wp_bind_quiet; [done | done | apply applyAssessmentOnce_rowQuiet |].
  intros _ w6 Hall6 Hres6.
  apply wp_bind_quiet; [done | done | apply updateCustomIdFilter_rowQuiet |].
  intros _ w7 Hall7 Hres7.
  apply wp_bind_quiet; [done | done | apply updateMrnFilter_rowQuiet |].
  intros _ w8 Hall8 Hres8.
  apply wp_bind_quiet; [done | done | apply updateAppointmentDateFilter_rowQuiet |].
  intros _ w9 Hall9 Hres9.
  by apply wp_processPatients.
Qed.

(** [processRow] on any row, in any state. *)
Lemma wp_processRow havePage row rowIndex (w : World env) :
  wp (processRow havePage row rowIndex)
     (λ res w' evs,
        res ≠ [] ∧ Forall (belongsTo row rowIndex) res ∧ results w' = results w ∧
        (∀ n, Log (LCompleted n) ∈ evs → oneResultPerEntry n res))
     (λ _ _ _, False) w.
Proof.
  unfold processRow. apply wp_bind, wp_modify. apply wp_bind, wp_try_catch.
  eapply (wp_mono _ (rowDone row rowIndex (results w)) _
                    (rowThrew row rowIndex (results w))).
  - destruct (DRY_RUN env || negb havePage); [| by apply wp_rowSteps].
    apply wp_bind, wp_log. unfold pushAllResults. apply wp_modify. simpl.
    split; [done |]. split; [apply Forall_singleton, belongsTo_rowResult |].
    split; [done |]. intros n Hin.
    rewrite !elem_of_cons in Hin. destruct Hin as [? | Hin]; [done |].
    by apply elem_of_nil in Hin.
  - intros [] w1 e1 (Hne & Hbel & Hres & Hc). apply wp_gets. simpl.
    split; [done |]. split; [done |]. split; [done |].
    intros n Hin. rewrite app_nil_r in Hin. by apply Hc.
  - intros e w1 e1 (Hbel & Hres & Hc).
    apply wp_bind, wp_log. unfold pushAllResults. apply wp_modify. apply wp_gets. simpl.
    split; [by destruct (allResults w1) |].
    split; [apply Forall_app_2; [done | apply Forall_singleton, belongsTo_rowResult] |].
    split; [done |]. intros n Hin. exfalso.
    rewrite !app_nil_r in Hin. apply elem_of_app in Hin as [Hin | Hin].
    + by apply noCompleted_not_in in Hin.
    + rewrite !elem_of_cons in Hin. destruct Hin as [? | Hin]; [done |].
      by apply elem_of_nil in Hin.
Qed.

End Row.

(** X9. [processRow] never throws.  It returns one result at least, and
    every result it returns has the MRN of the row and its row number
    (the row number that the reader gave, or, for a result of the row as
    a whole and a row without number, its index plus one).  What the
    main function has recorded is not touched. *)
Theorem processRow_always_returns {env} (havePage : bool) (row : Row) (rowIndex : nat)
    (w : World env) :
  let r := processRow havePage row rowIndex w in
  ∃ res, outcome r = inr res ∧ res ≠ [] ∧
    Forall (belongsTo row rowIndex) res ∧
    (_rowNumber row ≠ 0 → Forall (λ x, rowNumber x = _rowNumber row) res) ∧
    results (after r) = results w.
Proof.
  intros r. subst r.
  destruct (wp_outcome _ _ _ _ (wp_processRow havePage row rowIndex w))
    as [(res & Hout & Hne & Hbel & Hres & _) | (e & _ & [])].
  exists res. split; [done |]. split; [done |]. split; [done |]. split; [| done].
  intros Hrow. eapply Forall_impl; [exact Hbel |].
  intros x (_ & [Hx | Hx]); [done |].
  rewrite Hx. unfold rowNumberOr. by rewrite (proj2 (Nat.eqb_neq _ _) Hrow).
Qed.

(** X10. When [processRow] reports that it completed the [n] entries of a
    row, it returns exactly one result per entry, in the order of the
    listing: the positions are 1 to [n], every result knows that there
    are [n], and all are results of the row. *)
Theorem completed_row_has_one_result_per_entry {env} (havePage : bool) (row : Row)
    (rowIndex n : nat) (w : World env) :
  let r := processRow havePage row rowIndex w in
  Log (LCompleted n) ∈ events r →
  ∃ res, outcome r = inr res ∧ length res = n ∧
    patientIndex <$> res = seq 1 n ∧
    Forall (λ x, totalPatients x = n) res ∧
    Forall (belongsTo row rowIndex) res.
Proof.
  intros r Hin. subst r.
  destruct (wp_outcome _ _ _ _ (wp_processRow havePage row rowIndex w))
    as [(res & Hout & Hne & Hbel & Hres & Hc) | (e & _ & [])].
  destruct (Hc n Hin) as [Hidx Htot].
  exists res. split; [done |]. split; [| done].
  apply (f_equal length) in Hidx. by rewrite length_fmap, length_seq in Hidx.
Qed.

Lemma completed_row_has_one_result_per_entry_witness :
  Log (LCompleted 2) ∈ events (processRow true billableRow 0 (@initialWorld twoEntriesEnv tt)) ∧
  ∃ res, outcome (processRow true billableRow 0 (@initialWorld twoEntriesEnv tt)) = inr res ∧
    length res = 2 ∧ patientIndex <$> res = [1; 2].
Proof.
  assert (Log (LCompleted 2) ∈
            events (processRow true billableRow 0 (@initialWorld twoEntriesEnv tt))) as Hin.
  { assert (existsb (λ ev, bool_decide (ev = Log (LCompleted 2)))
              (events (processRow true billableRow 0 (@initialWorld twoEntriesEnv tt))) = true)
      as Hex by (vm_compute; reflexivity).
    apply existsb_exists in Hex as (ev & Hev & Heq).
    apply bool_decide_eq_true in Heq as ->. by apply list_elem_of_In. }
  split; [exact Hin |].
  destruct (completed_row_has_one_result_per_entry true billableRow 0 2
              (@initialWorld twoEntriesEnv tt) Hin) as (res & Hout & Hlen & Hidx & _).
  exists res. split; [exact Hout |]. split; [exact Hlen | exact Hidx].
Defined.

(** ** The main loop *)

Section Main.
Context {env : Env}.

(** One turn of the main loop never throws and records a result of the
    row at least; it leaves the loop only when the page was found
    closed. *)
Lemma wp_rowTurn row i n (w : World env) :
  wp (rowTurn row i n)
     (λ stop w' _, ∃ g, results w' = results w ++ g ∧ g ≠ [] ∧
        Forall (belongsTo row i) g ∧
        ((∀ p, isClosed env p = false) → stop = false))
     (λ _ _ _, False) w.
Proof.
  unfold rowTurn. apply wp_try_catch.
  eapply (wp_mono _
    (λ stop w' _, ∃ g, results w' = results w ++ g ∧ g ≠ [] ∧
        Forall (belongsTo row i) g ∧
        ((∀ p, isClosed env p = false) → stop = false)) _
    (λ _ w' _, ∃ g, results w' = results w ++ g ∧ Forall (belongsTo row i) g)).
  - destruct (DRY_RUN env).
    + apply wp_bind.
      eapply wp_mono; [apply wp_processRow | | by intros ? ? ? []].
      intros res w1 e1 (Hne & Hbel & Hres & _).
      apply wp_bind. unfold pushResults. apply wp_modify. apply wp_ret. simpl.
      exists res. by rewrite Hres.
    + apply wp_bind, wp_gets.
      destruct (isClosed env (page w)) eqn:Hclosed; simpl.
      * apply wp_bind, wp_log. apply wp_bind. unfold pushResults. apply wp_modify.
        apply wp_ret. simpl. eexists. split; [done |]. split; [done |].
        split; [apply Forall_singleton, belongsTo_rowResult |].
        intros Hopen. by rewrite Hopen in Hclosed.
      * apply wp_bind.
        eapply wp_mono; [apply wp_processRow | | by intros ? ? ? []].
        intros res w1 e1 (Hne & Hbel & Hres & _).
        apply wp_bind. unfold pushResults. apply wp_modify. apply wp_bind.
        destruct (i <? n - 1).
        -- apply (wp_call (AWait 2000)). intros p. split.
           ++ intros []. apply wp_ret. simpl. exists res. by rewrite Hres.
           ++ intros e. simpl. exists res. by rewrite Hres.
        -- apply wp_ret, wp_ret. simpl. exists res. by rewrite Hres.
  - done.
  - intros e w1 e1 (g & Hg & Hbel).
    apply wp_bind, wp_log. apply wp_bind. unfold pushResults. apply wp_modify.
    apply wp_bind, wp_gets. simpl.
    assert (∃ g', results w1 ++ [rowResult row i "Failed" e ("Error in main loop: " +:+ e)] =
                  results w ++ g' ∧ g' ≠ [] ∧ Forall (belongsTo row i) g') as Hg'.
    { eexists. rewrite Hg, <- app_assoc. split; [done |].
      split; [by destruct g |].
      apply Forall_app_2; [done | apply Forall_singleton, belongsTo_rowResult]. }
    destruct Hg' as (g' & Hg' & Hne' & Hbel').
    destruct (negb (DRY_RUN env) && isClosed env (page w1)) eqn:Hstop.
    + apply wp_bind, wp_log, wp_ret. simpl. exists g'. repeat split; try done.
      intros Hopen. rewrite Hopen, andb_false_r in Hstop. done.
    + apply wp_bind, wp_log, wp_ret. simpl. exists g'. repeat split; done.
Qed.

Lemma groupedByRow_nil rows i : groupedByRow rows i [].
Proof. split; [simpl; lia | by intros j g Hg]. Qed.

Lemma groupedByRow_cons row rows i g groups :
  g ≠ [] → Forall (belongsTo row i) g → groupedByRow rows (S i) groups →
  groupedByRow (row :: rows) i (g :: groups).
Proof.
  intros Hne Hbel [Hlen Hgroups]. split; [simpl; lia |].
  intros [| j] g' Hg'; simpl in Hg'.
  - injection Hg' as <-. exists row. rewrite Nat.add_0_r. done.
  - destruct (Hgroups j g' Hg') as (row' & Hrow' & Hne' & Hbel').
    exists row'. split; [done |]. split; [done |].
    by replace (i + S j) with (S i + j) by lia.
Qed.

(** The main loop never throws; it records the results row by row. *)
Lemma wp_rowsLoop rows n : ∀ i (w : World env),
  wp (rowsLoop rows i n)
     (λ _ w' _, ∃ groups, results w' = results w ++ concat groups ∧
        groupedByRow rows i groups ∧
        ((∀ p, isClosed env p = false) → length groups = length rows))
     (λ _ _ _, False) w.
Proof.
  induction rows as [| row rows IH]; intros i w; simpl.
  - apply wp_ret. exists []. simpl. rewrite app_nil_r.
    split; [done |]. split; [apply groupedByRow_nil | done].
  - apply wp_bind.
    eapply wp_mono; [apply wp_rowTurn | | by intros ? ? ? []].
    intros stop w1 e1 (g & Hg & Hne & Hbel & Hstop).
    destruct stop.
    + apply wp_ret. exists [g]. simpl. rewrite app_nil_r.
      split; [done |]. split.
      * apply groupedByRow_cons; [done | done | apply groupedByRow_nil].
      * intros Hopen. by specialize (Hstop Hopen).
    + eapply wp_mono; [apply (IH (S i) w1) | | by intros ? ? ? []].
      intros [] w2 e2 (groups & Hgroups & Hgr & Hall).
      exists (g :: groups). simpl. rewrite Hgroups, Hg, <- app_assoc.
      split; [done |]. split; [by apply groupedByRow_cons |].
      intros Hopen. by rewrite (Hall Hopen).
Qed.

Lemma wp_main_tail validRows invalidRows (w : World env) :
  results w = invalidResults invalidRows →
  wp (rowsLoop validRows 0 (length validRows);; gets results)
     (λ res w' _, res = results w' ∧
        ∃ groups, res = invalidResults invalidRows ++ concat groups ∧
          groupedByRow validRows 0 groups ∧
          ((∀ p, isClosed env p = false) → length groups = length validRows))
     (λ _ _ _, False) w.
Proof.
  intros Hres. apply wp_bind.
  eapply wp_mono; [apply wp_rowsLoop | | by intros ? ? ? []].
  intros [] w2 e2 (groups & Hgroups & Hgr & Hall). apply wp_gets.
  split; [done |]. exists groups. by rewrite Hgroups, Hres.
Qed.

(** The main function: it throws only when the login throws, before any
    row is processed. *)
Lemma wp_main validRows invalidRows (w : World env) :
  wp (main validRows invalidRows)
     (λ res w' evs, res = results w' ∧
        (validRows = [] → res = [] ∧ evs = []) ∧
        (validRows ≠ [] →
           ∃ groups, res = invalidResults invalidRows ++ concat groups ∧
             groupedByRow validRows 0 groups ∧
             ((∀ p, isClosed env p = false) → length groups = length validRows)))
     (λ e w' evs, DRY_RUN env = false ∧ validRows ≠ [] ∧
        evs = [Did ALogin (Some e)] ∧ results w' = invalidResults invalidRows) w.
Proof.
  unfold main. apply wp_bind, wp_modify.
  destruct validRows as [| row rows]; simpl (_ =? _).
  - apply wp_gets. simpl. split; [done |]. split; [done | by intros []].
  - set (validRows := row :: rows).
    apply wp_bind. unfold pushResults. apply wp_modify. apply wp_bind.
    assert (∀ (w1 : World env) E ev1 ev2,
              results w1 = invalidResults invalidRows →
              wp (rowsLoop validRows 0 (length validRows);; gets results)
                (λ res w3 e3,
                   res = results w3 ∧
                   (validRows = [] → res = [] ∧ ev1 ++ ev2 ++ e3 = []) ∧
                   (validRows ≠ [] →
                      ∃ groups, res = invalidResults invalidRows ++ concat groups ∧
                        groupedByRow validRows 0 groups ∧
                        ((∀ p, isClosed env p = false) →
                           length groups = length validRows)))
                E w1) as Hrest.
    { intros w1 E ev1 ev2 Hres1.
      eapply wp_mono; [by apply wp_main_tail | | by intros ? ? ? []].
      intros res w3 e3 (Hres & Hgroups). split; [done |]. split; [done |].
      by intros _. }
    destruct (DRY_RUN env) eqn:Hdry.
    + apply wp_ret. by apply Hrest.
    + apply (wp_call ALogin). intros p. split.
      * intros []. by apply Hrest.
      * intros e. done.
Qed.

End Main.



(** X12. The results that the main function returns are, after those of the
    rows that failed validation, the results of the valid rows, row by
    row in the order of the sheet: one group per row that was reached,
    each with one result at least, all of them with the MRN and the row
    number of that row.  When the page never closes every valid row is
    reached.  Without any valid row nothing is done and nothing is
    returned, not even the results of the invalid rows. *)
Theorem results_grouped_by_row {env} (validRows : list Row)
    (invalidRows : list (Row * list string)) (w : World env) (res : list PatientResult) :
  let r := main validRows invalidRows w in
  outcome r = inr res →
  (validRows = [] → res = [] ∧ events r = []) ∧
  (validRows ≠ [] →
     ∃ groups, res = invalidResults invalidRows ++ concat groups ∧
       groupedByRow validRows 0 groups ∧
       ((∀ p, isClosed env p = false) → length groups = length validRows)).
Proof.
  intros r Hout. subst r.
  destruct (wp_outcome _ _ _ _ (wp_main validRows invalidRows w))
    as [(res' & Hout' & _ & Hempty & Hgroups) | (e' & Hout' & _)]; [| congruence].
  rewrite Hout in Hout'. injection Hout' as <-. done.
Qed.

Lemma results_grouped_by_row_witness :
  ∃ res,
    outcome (main [billableRow; cancelledRow] [] (@initialWorld nothingFailsEnv tt)) = inr res ∧
    status <$> res = ["Billed"; "Appt. Cancelled"] ∧
    ∃ groups, res = invalidResults [] ++ concat groups ∧
      groupedByRow [billableRow; cancelledRow] 0 groups ∧
      length groups = 2.
Proof.
  eexists. split; [vm_compute; reflexivity |]. split; [vm_compute; reflexivity |].
  destruct (results_grouped_by_row [billableRow; cancelledRow] []
              (@initialWorld nothingFailsEnv tt) _ ltac:(vm_compute; reflexivity))
    as [_ Hgroups].
  destruct (Hgroups ltac:(discriminate)) as (groups & Hres & Hgr & Hall).
  exists groups. split; [exact Hres |]. split; [exact Hgr |].
  apply Hall. intros p. reflexivity.
Defined.

Section DryRun.
Context {env : Env}.

Lemma bindM_run_modify {A} (f : World env → World env) (k : unit → M env A) w :
  bindM (modify f) k w = k tt (f w).
Proof. unfold bindM, modify. simpl. by destruct (k tt (f w)). Qed.

Lemma bindM_run_ret {A B} (a : A) (k : A → M env B) w : bindM (ret a) k w = k a w.
Proof. unfold bindM, ret. simpl. by destruct (k a w). Qed.

Lemma rowTurn_dry row i n (w : World env) :
  DRY_RUN env = true →
  outcome (rowTurn row i n w) = inr false ∧
  events (rowTurn row i n w) = [Log LDryRun] ∧
  results (after (rowTurn row i n w)) = results w ++ [dryRunResult row i] ∧
  page (after (rowTurn row i n w)) = page w ∧
  flags (after (rowTurn row i n w)) = flags w.
Proof.
  intros Hdry.
  assert (processRow false row i w =
            mkRun (inr [dryRunResult row i]) (setAllResults [dryRunResult row i] w)
              [Log LDryRun]) as Hrow.
  { unfold processRow. rewrite Hdry. reflexivity. }
  unfold rowTurn. rewrite Hdry.
  set (body := (rowResults <- processRow false row i;; pushResults rowResults;; ret false)).
  assert (body w =
            mkRun (inr false)
              (setResults (results w ++ [dryRunResult row i])
                 (setAllResults [dryRunResult row i] w))
              [Log LDryRun]) as Hbody.
  { subst body. unfold bindM at 1. rewrite Hrow. reflexivity. }
  rewrite (try_catch_inr _ _ w false); rewrite Hbody; done.
Qed.

Lemma rowsLoop_dry rows n : ∀ i (w : World env),
  DRY_RUN env = true →
  outcome (rowsLoop rows i n w) = inr tt ∧
  events (rowsLoop rows i n w) = replicate (length rows) (Log LDryRun) ∧
  results (after (rowsLoop rows i n w)) =
    results w ++ imap (λ j row, dryRunResult row (i + j)) rows ∧
  page (after (rowsLoop rows i n w)) = page w ∧
  flags (after (rowsLoop rows i n w)) = flags w.
Proof.
  induction rows as [| row rows IH]; intros i w Hdry; simpl.
  - by rewrite app_nil_r.
  - destruct (rowTurn_dry row i n w Hdry) as (Hout & Hev & Hres & Hpage & Hflags).
    rewrite (bindM_inr _ _ w false Hout). simpl.
    destruct (IH (S i) (after (rowTurn row i n w)) Hdry)
      as (Hout' & Hev' & Hres' & Hpage' & Hflags').
    rewrite Hout', Hev, Hev', Hres', Hres, Hpage', Hpage, Hflags', Hflags.
    rewrite <- app_assoc, Nat.add_0_r. simpl. repeat split; try done.
    do 2 f_equal. apply imap_ext. intros j row' _. simpl. f_equal. lia.
Qed.

End DryRun.

(** X13. A dry run never touches the browser: there is no login and no
    interaction at all, the page and the session flags stay as they
    were, and every valid row gets the one result "Skipped (Dry Run)",
    after the results of the rows that failed validation. *)
Theorem dry_run_touches_nothing {env} (validRows : list Row)
    (invalidRows : list (Row * list string)) (w : World env) :
  DRY_RUN env = true → validRows ≠ [] →
  let r := main validRows invalidRows w in
  outcome r =
    inr (invalidResults invalidRows ++ imap (λ i row, dryRunResult row i) validRows) ∧
  events r = replicate (length validRows) (Log LDryRun) ∧
  page (after r) = page w ∧ flags (after r) = flags w.
Proof.
  intros Hdry Hne r. subst r.
  destruct validRows as [| row rows]; [done |].
  set (validRows := row :: rows).
  set (w1 := setResults ([] ++ invalidResults invalidRows) (setResults [] w)).
  destruct (rowsLoop_dry validRows (length validRows) 0 w1 Hdry)
    as (Hout & Hev & Hres & Hpage & Hflags).
  assert (main validRows invalidRows w =
            (rowsLoop validRows 0 (length validRows);; gets results) w1) as ->.
  { unfold main. rewrite bindM_run_modify. simpl (_ =? _). cbv iota.
    unfold pushResults at 1. rewrite bindM_run_modify. rewrite Hdry.
    by rewrite bindM_run_ret. }
  rewrite (bindM_inr _ _ w1 tt Hout). cbn [outcome after events gets].
  rewrite Hres, Hev, Hpage, Hflags. simpl. rewrite app_nil_r. done.
Qed.

Lemma dry_run_touches_nothing_witness :
  DRY_RUN dryRunEnv = true ∧
  outcome (main [billableRow; cancelledRow] [(fullRow, ["MRN is required"])]
             (@initialWorld dryRunEnv tt)) =
    inr (invalidResults [(fullRow, ["MRN is required"])] ++
         [dryRunResult billableRow 0; dryRunResult cancelledRow 1]).
Proof.
  split; [reflexivity |].
  exact (proj1 (dry_run_touches_nothing [billableRow; cancelledRow]
                  [(fullRow, ["MRN is required"])] (@initialWorld dryRunEnv tt)
                  eq_refl ltac:(discriminate))).
Defined.

(** * From the run to the sheet *)

Lemma elem_of_concat {A} (x : A) (l : list A) (ls : list (list A)) :
  x ∈ l → l ∈ ls → x ∈ concat ls.
Proof.
  intros Hx Hl. induction Hl as [l ls | l l' ls _ IH]; simpl; apply elem_of_app; auto.
Qed.

Lemma groupedByRow_results validRows groups j row (res : list PatientResult) :
  groupedByRow validRows 0 groups → length groups = length validRows →
  validRows !! j = Some row → _rowNumber row ≠ 0 →
  ∃ r, r ∈ concat groups ∧ rowNumber r = _rowNumber row.
Proof.
  intros [_ Hgroups] Hlen Hrow Hnum.
  assert (is_Some (groups !! j)) as [g Hg].
  { apply lookup_lt_is_Some. rewrite Hlen. by eapply lookup_lt_Some. }
  destruct (Hgroups j g Hg) as (row' & Hrow' & Hne & Hbel).
  rewrite Hrow in Hrow'. injection Hrow' as <-.
  destruct g as [| r g]; [done |]. apply Forall_cons in Hbel as [[_ Hr] _].
  exists r. split.
  - apply (elem_of_concat r (r :: g)); [left | by eapply list_elem_of_lookup_2].
  - destruct Hr as [Hr | Hr]; [done |]. rewrite Hr. unfold rowNumberOr.
    by rewrite (proj2 (Nat.eqb_neq _ _) Hnum).
Qed.

(** X15. The run and the Status Writer together.  When the page stays open,
    every valid row gets a status of its own into the sheet: for a valid
    row with the Excel number of a data row of a rectangular sheet, the
    results that the main function returns hold at least one result of
    that row, and the Status Writer leaves their aggregated status in
    the last cell of the row, never "Not Processed" and never what the
    cell held before. *)
Theorem processed_rows_get_their_status {env} (validRows : list Row)
    (invalidRows : list (Row * list string)) (w : World env)
    (res : list PatientResult) (sheet sheet' : Sheet) (j i : nat) (row : Row)
    (cells : list Cell) :
  outcome (main validRows invalidRows w) = inr res →
  (∀ p, isClosed env p = false) →
  validRows !! j = Some row → _rowNumber row = S i + 1 →
  rectangular (sheetRows sheet) → sheetRows sheet !! S i = Some cells →
  updateOriginalExcel sheet res = inr sheet' →
  resultsOfRow res (S i + 1) ≠ [] ∧
  ∃ cells', sheetRows sheet' !! S i = Some cells' ∧
    last cells' = Some (CStr (aggregateStatus (resultsOfRow res (S i + 1)))).
Proof.
  intros Hout Hopen Hrow Hnum Hrect Hcells Hrun.
  assert (resultsOfRow res (S i + 1) ≠ []) as Hne.
  { destruct (wp_outcome _ _ _ _ (wp_main validRows invalidRows w))
      as [(res' & Hout' & _ & _ & Hgroups) | (e' & Hout' & _)]; [| congruence].
    rewrite Hout in Hout'. injection Hout' as <-.
    destruct Hgroups as (groups & -> & Hgr & Hall);
      [intros ->; by rewrite lookup_nil in Hrow |].
    destruct (groupedByRow_results validRows groups j row [] Hgr (Hall Hopen) Hrow)
      as (r & Hin & Hr); [lia |].
    assert (r ∈ resultsOfRow (invalidResults invalidRows ++ concat groups) (S i + 1))
      as Hr'.
    { apply list_elem_of_filter. split; [congruence |]. apply elem_of_app. by right. }
    intros Hnil. rewrite Hnil in Hr'. by apply elem_of_nil in Hr'. }
  split; [done |].
  apply updateOriginalExcel_inr in Hrun as (h & data & Hrows & Hrows' & _).
  rewrite Hrows in Hrect, Hcells. rewrite Hrows'.
  rewrite (updateRows_shape _ _ _ Hrect). simpl.
  rewrite sheet_data_lookup in Hcells.
  eexists. split; [by rewrite list_lookup_imap, Hcells |].
  rewrite last_snoc, statusValue_results. f_equal.
  change (S (i + 1)) with (S i + 1).
  by destruct (resultsOfRow res (S i + 1)).
Qed.

Lemma processed_rows_get_their_status_witness :
  ∃ res sheet',
    outcome (main [billableRow; cancelledRow] [] (@initialWorld nothingFailsEnv tt)) = inr res ∧
    updateOriginalExcel twoRowSheet res = inr sheet' ∧
    ∃ cells', sheetRows sheet' !! 2 = Some cells' ∧
      last cells' = Some (CStr (aggregateStatus (resultsOfRow res 3))).
Proof.
  assert (∃ res, outcome (main [billableRow; cancelledRow] []
                            (@initialWorld nothingFailsEnv tt)) = inr res) as [res Hout].
  { eexists. vm_compute. reflexivity. }
  assert (∃ sheet', updateOriginalExcel twoRowSheet res = inr sheet') as [sheet' Hrun].
  { apply updateOriginalExcel_total. discriminate. }
  exists res, sheet'. split; [exact Hout |]. split; [exact Hrun |].
  refine (proj2 (processed_rows_get_their_status [billableRow; cancelledRow] []
                   (@initialWorld nothingFailsEnv tt) res twoRowSheet sheet' 1 1
                   cancelledRow [CStr "1002"; CStr "No Show"]
                   Hout _ eq_refl eq_refl _ eq_refl Hrun)).
  - intros p. reflexivity.
  - unfold rectangular. simpl. repeat constructor.
Defined.

(** ** Results that refer to no data row *)







(** ** A page that is closed *)

Section ClosedPage.
Context {env : Env}.

Lemma bindM_run_gets {A B} (f : World env → A) (k : A → M env B) w :
  bindM (gets f) k w = k (f w) w.
Proof. unfold bindM, gets. simpl. by destruct (k (f w) w). Qed.

Lemma rowTurn_closed row i n (w : World env) :
  DRY_RUN env = false → isClosed env (page w) = true →
  rowTurn row i n w =
    mkRun (inr true) (setResults (results w ++ [pageClosedResult row i]) w)
      [Log LPageClosed].
Proof.
  intros Hdry Hclosed. unfold rowTurn. rewrite Hdry.
  set (body := (closed <- pageIsClosed;; _)).
  assert (body w =
            mkRun (inr true) (setResults (results w ++ [pageClosedResult row i]) w)
              [Log LPageClosed]) as Hbody.
  { subst body. unfold pageIsClosed. rewrite bindM_run_gets, Hclosed. reflexivity. }
  rewrite (try_catch_inr _ _ w true); rewrite Hbody; done.
Qed.

End ClosedPage.

(** X14. When the main loop finds the page closed at the start of a turn, it
    records one Failed result for the row of that turn, with the message
    "Page closed unexpectedly", and ends: no interaction is attempted
    and the rows that follow get no result at all. *)
Theorem closed_page_stops_the_run {env} (row : Row) (rest : list Row) (i n : nat)
    (w : World env) :
  DRY_RUN env = false → isClosed env (page w) = true →
  let r := rowsLoop (row :: rest) i n w in
  outcome r = inr tt ∧ events r = [Log LPageClosed] ∧
  results (after r) = results w ++ [pageClosedResult row i] ∧
  page (after r) = page w ∧ flags (after r) = flags w.
Proof.
  intros Hdry Hclosed r. subst r. simpl.
  pose proof (rowTurn_closed row i n w Hdry Hclosed) as Hturn.
  rewrite (bindM_inr _ _ w true) by (by rewrite Hturn).
  rewrite Hturn. simpl. done.
Qed.

Lemma closed_page_stops_the_run_witness :
  outcome (rowsLoop [billableRow; cancelledRow] 0 2 (@initialWorld closedPageEnv tt)) = inr tt ∧
  results (after (rowsLoop [billableRow; cancelledRow] 0 2 (@initialWorld closedPageEnv tt))) =
    [pageClosedResult billableRow 0].
Proof.
  destruct (closed_page_stops_the_run billableRow [cancelledRow] 0 2
              (@initialWorld closedPageEnv tt) eq_refl eq_refl) as (Hout & _ & Hres & _).
  split; [exact Hout | exact Hres].
Defined.

(** ** The summaries *)

Lemma includes_Skipped_Success : includesStr "Success" "Skipped" = false.
Proof. reflexivity. Qed.

Lemma includes_Skipped_Failed : includesStr "Failed" "Skipped" = false.
Proof. reflexivity. Qed.

Lemma includes_Skipped_Skipped : includesStr "Skipped" "Skipped" = true.
Proof. reflexivity. Qed.

Lemma summary_cons r results :
  summary (r :: results) =
    mkSummary (S (total (summary results)))
      ((if bool_decide (status r = "Success") then 1 else 0) + success (summary results))
      ((if bool_decide (status r = "Failed") then 1 else 0) + failed (summary results))
      ((if includesStr (status r) "Skipped" then 1 else 0) + skipped (summary results)).
Proof.
  unfold summary. cbn [total success failed skipped length]. rewrite !filter_cons.
  f_equal.
  - by case_bool_decide; destruct (decide _).
  - by case_bool_decide; destruct (decide _).
  - destruct (includesStr (status r) "Skipped") eqn:Hs.
    + destruct (decide _) as [_ | Hn]; [done |]. exfalso. apply Hn. by right.
    + destruct (decide _) as [[Heq | Hin] | _]; [| done | done].
      rewrite Heq in Hs. by rewrite includes_Skipped_Skipped in Hs.
Qed.

(** X16. The summary on the console counts the statuses Success and Failed
    and every status that contains "Skipped"; each result is in one of
    these counts at most, and a result with any other status is in
    none.  So the entries that were saved as Billed or Appt. Cancelled
    are in the total only: a run in which every entry was saved reports
    no success, no failure and nothing skipped. *)
Theorem summary_counts_three_statuses (results : list PatientResult) :
  let s := summary results in
  total s = success s + failed s + skipped s + length (uncounted results) ∧
  (Forall (λ r, status r = "Billed" ∨ status r = "Appt. Cancelled") results →
     success s = 0 ∧ failed s = 0 ∧ skipped s = 0 ∧ uncounted results = results).
Proof.
  intros s. subst s. split.
  - induction results as [| r results IH]; [done |].
    rewrite summary_cons. cbn [total success failed skipped].
    unfold uncounted in *. rewrite filter_cons.
    destruct (decide (status r ≠ "Success" ∧ status r ≠ "Failed" ∧
                      includesStr (status r) "Skipped" = false))
      as [(Hs & Hf & Hk) | Hn].
    + rewrite !bool_decide_eq_false_2, Hk by done. simpl in *; lia.
    + destruct (decide (status r = "Success")) as [Hs | Hs].
      { rewrite Hs, includes_Skipped_Success.
        rewrite bool_decide_eq_true_2, bool_decide_eq_false_2 by done. simpl in *; lia. }
      destruct (decide (status r = "Failed")) as [Hf | Hf].
      { rewrite Hf, includes_Skipped_Failed.
        rewrite bool_decide_eq_false_2, bool_decide_eq_true_2 by done. simpl in *; lia. }
      rewrite !bool_decide_eq_false_2 by done.
      destruct (includesStr (status r) "Skipped") eqn:Hk; [simpl in *; lia |].
      exfalso. by apply Hn.
  - induction 1 as [| r results Hr _ IH]; [done |].
    rewrite summary_cons. cbn [total success failed skipped].
    destruct IH as (-> & -> & -> & IH). unfold uncounted in *. rewrite filter_cons, IH.
    destruct Hr as [Hr | Hr]; rewrite Hr; done.
Qed.

(** X17. The Summary sheet of the backup report counts Success and Failed as
    the console summary does, but as skipped only the status "Skipped"
    itself.  For the results of a dry run, the invalid rows followed by
    one "Skipped (Dry Run)" result per valid row, the console reports
    every result as skipped and the Summary sheet the invalid rows
    only. *)
Theorem report_summary_skips_exact_status (results : list PatientResult) :
  success (reportSummary results) = success (summary results) ∧
  failed (reportSummary results) = failed (summary results) ∧
  skipped (reportSummary results) ≤ skipped (summary results) ∧
  (∀ invalidRows validRows,
     results = invalidResults invalidRows ++ imap (λ i row, dryRunResult row i) validRows →
     skipped (summary results) = total (summary results) ∧
     skipped (reportSummary results) = length invalidRows).
Proof.
  split; [done | split; [done | split]].
  - unfold reportSummary, summary. cbn [skipped].
    induction results as [| r results IH]; [done |]. rewrite !filter_cons.
    destruct (decide (status r = "Skipped")) as [Hr | Hr].
    + destruct (decide _) as [_ | Hn]; [simpl; lia |]. exfalso. apply Hn. by left.
    + destruct (decide _); simpl; lia.
  - intros invalidRows validRows ->. unfold reportSummary, summary.
    cbn [total skipped]. rewrite !filter_app, !length_app.
    assert (∀ l, filter (λ r, status r = "Skipped" ∨ includesStr (status r) "Skipped" = true)
                   (invalidResults l) = invalidResults l ∧
                 filter (λ r, status r = "Skipped") (invalidResults l) = invalidResults l)
      as Hinvalid.
    { intros l. unfold invalidResults.
      induction l as [| x l [IH1 IH2]]; [done |]. rewrite !fmap_cons, !filter_cons.
      simpl. rewrite IH1, IH2. done. }
    assert (∀ (l : list Row) k,
              filter (λ r, status r = "Skipped" ∨ includesStr (status r) "Skipped" = true)
                (imap (λ i row, dryRunResult row (k + i)) l) =
                imap (λ i row, dryRunResult row (k + i)) l ∧
              filter (λ r, status r = "Skipped")
                (imap (λ i row, dryRunResult row (k + i)) l) = []) as Hdry.
    { intros l. induction l as [| row l IH]; intros k; [done |].
      cbn [imap]. rewrite !filter_cons.
      rewrite (imap_ext _ (λ i row, dryRunResult row (S k + i)))
        by (intros; simpl; f_equal; lia).
      destruct (IH (S k)) as [-> ->]. simpl. done. }
    destruct (Hinvalid invalidRows) as [-> ->].
    destruct (Hdry validRows 0) as [Hd1 Hd2]. simpl in Hd1, Hd2. rewrite Hd1, Hd2.
    unfold invalidResults. rewrite length_fmap. simpl. split; lia.
Qed.

(** * Properties of excelReader.js *)

Section ExcelReaderFacts.
Import excelReader.

(** * Properties of the Excel reader *)

(** ** CPT codes *)

Lemma freeOf_nil isSep : freeOf isSep "".
Proof. constructor. Qed.

Lemma freeOf_cons (isSep : ascii → bool) (c : ascii) (s : string) :
  freeOf isSep (String c s) ↔ (isSep c = false) ∧ freeOf isSep s.
Proof. unfold freeOf. simpl. apply (Forall_cons (λ c, isSep c = false)). Qed.

Lemma splitRuns_not_nil isSep b s : splitRuns isSep b s ≠ [].
Proof.
  revert b. induction s as [| c t IH]; intros b; simpl; [done |].
  destruct (isSep c).
  - destruct b; [apply IH | done].
  - by destruct (splitRuns isSep false t).
Qed.


Lemma trimStart_free s : freeOf is_space s → trimStart s = s.
Proof. destruct s as [| c t]; [done |]. intros [Hc _]%freeOf_cons. simpl. by rewrite Hc. Qed.

Lemma trimEnd_free s : freeOf is_space s → trimEnd s = s.
Proof.
  induction s as [| c t IH]; [done |]. intros [Hc Ht]%freeOf_cons. simpl.
  rewrite (IH Ht), Hc. by destruct t.
Qed.

Lemma trim_free s : freeOf is_space s → trim s = s.
Proof. intros H. unfold trim. by rewrite trimStart_free, trimEnd_free. Qed.





Lemma string_app_cons c (t s : string) : String c t +:+ s = String c (t +:+ s).
Proof. done. Qed.

Lemma string_app_nil_l (s : string) : "" +:+ s = s.
Proof. done. Qed.









(** ** Finding the workbook *)

Section Sorting.
Context {A : Type} (key : A → Z).

(** The head of the list sorted by decreasing key: it is the first
    element of the list among those with the greatest key. *)
Lemma sortBy_head (l : list A) :
  match sortBy (λ a b, key b - key a)%Z l with
  | [] => l = []
  | x :: _ =>
      ∃ l1 l2, l = l1 ++ x :: l2 ∧
        Forall (λ y, (key y < key x)%Z) l1 ∧ Forall (λ y, (key y ≤ key x)%Z) l2
  end.
Proof.
  induction l as [| a l IH]; [done |]. simpl.
  destruct (sortBy (λ a b, key b - key a)%Z l) as [| h t] eqn:Hs; simpl.
  - subst l. exists [], []. by repeat split.
  - destruct IH as (l1 & l2 & -> & H1 & H2).
    destruct (key h - key a <=? 0)%Z eqn:Hcmp.
    + apply Z.leb_le in Hcmp. exists [], (l1 ++ h :: l2). split; [done |].
      split; [constructor |]. apply Forall_app. split.
      * eapply Forall_impl; [exact H1 |]. intros y Hy. simpl in Hy. lia.
      * apply Forall_cons_2; [lia |].
        eapply Forall_impl; [exact H2 |]. intros y Hy. simpl in Hy. lia.
    + apply Z.leb_gt in Hcmp. exists (a :: l1), l2. split; [done |].
      split; [| done]. apply Forall_cons_2; [lia | done].
Qed.

End Sorting.

Section Finding.
Variable pathJoin : string → string → string.
Variable mtimeOf : string → Z.

Lemma candidates_excel files f : f ∈ candidates files → f ∈ files ∧ isExcel f = true.
Proof.
  unfold candidates.
  destruct (filter (λ f, isExcel f && negb (isReport f) = true) files) as [| x l] eqn:Hf.
  - by intros [? ?]%list_elem_of_filter.
  - rewrite <- Hf. intros [Hx Hin]%list_elem_of_filter. split; [done |].
    by apply andb_true_iff in Hx as [? _].
Qed.

Lemma candidates_no_report files f g :
  f ∈ candidates files → g ∈ files → isExcel g = true → isReport g = false →
  isReport f = false.
Proof.
  unfold candidates. intros Hf Hg Hge Hgr.
  assert (g ∈ filter (λ f, isExcel f && negb (isReport f) = true) files) as Hin.
  { apply list_elem_of_filter. split; [| done]. by rewrite Hge, Hgr. }
  destruct (filter (λ f, isExcel f && negb (isReport f) = true) files) as [| x l] eqn:Hl.
  - by apply elem_of_nil in Hin.
  - rewrite <- Hl in Hf. apply list_elem_of_filter in Hf as [Hx _].
    apply andb_true_iff in Hx as [_ Hx]. by apply negb_true_iff in Hx.
Qed.

Lemma candidates_nil files :
  candidates files = [] → Forall (λ f, isExcel f = false) files.
Proof.
  unfold candidates.
  destruct (filter (λ f, isExcel f && negb (isReport f) = true) files) as [| x l];
    [| done].
  intros Hnil. apply Forall_forall. intros f Hin.
  destruct (isExcel f) eqn:He; [| done].
  assert (f ∈ filter (λ f, isExcel f = true) files) as Hf
    by (by apply list_elem_of_filter).
  rewrite Hnil in Hf. by apply elem_of_nil in Hf.
Qed.

(** [findExcelFile] in terms of the candidates. *)
Lemma findExcelFile_candidates files directory preferredName :
  findExcelFile pathJoin mtimeOf files directory preferredName =
    match candidates files with
    | [] => inl "No Excel files found in directory"
    | xlsxFiles =>
        let newest :=
          match sortBy (λ a b, mtime b - mtime a)%Z
                  ((λ f, mkFileStat f (pathJoin directory f) (mtimeOf f)) <$> xlsxFiles) with
          | first :: _ => inr (filePath first)
          | [] => inl "Cannot read properties of undefined (reading 'path')"
          end in
        match (if truthy preferredName
               then List.find (λ f, String.eqb (toLowerCase f) (toLowerCase preferredName) ||
                                    includesStr (toLowerCase f) (toLowerCase preferredName))
                      xlsxFiles
               else None) with
        | Some f => if truthy f then inr (pathJoin directory f) else newest
        | None => newest
        end
    end.
Proof.
  unfold findExcelFile, candidates.
  destruct (filter (λ f, isExcel f && negb (isReport f) = true) files) as [| x l]; [| done].
  simpl. by destruct (filter (λ f, isExcel f = true) files).
Qed.

Lemma newest_candidate directory (xlsxFiles : list string) :
  xlsxFiles ≠ [] →
  ∃ f l1 l2, xlsxFiles = l1 ++ f :: l2 ∧
    Forall (λ g, (mtimeOf g < mtimeOf f)%Z) l1 ∧
    Forall (λ g, (mtimeOf g ≤ mtimeOf f)%Z) l2 ∧
    match sortBy (λ a b, mtime b - mtime a)%Z
            ((λ f, mkFileStat f (pathJoin directory f) (mtimeOf f)) <$> xlsxFiles) with
    | first :: _ => inr (filePath first)
    | [] => inl "Cannot read properties of undefined (reading 'path')"
    end = (inr (pathJoin directory f) : string + string).
Proof.
  intros Hne.
  pose proof (sortBy_head mtime
    ((λ f, mkFileStat f (pathJoin directory f) (mtimeOf f)) <$> xlsxFiles)) as Hhead.
  destruct (sortBy _ _) as [| first rest].
  - apply fmap_nil_inv in Hhead. done.
  - destruct Hhead as (s1 & s2 & Heq & H1 & H2).
    apply fmap_app_inv in Heq as (l1 & l2' & -> & Heq & ->).
    symmetry in Heq. apply fmap_cons_inv in Heq as (f & l2 & -> & -> & ->).
    exists f, l1, l2. split; [done |].
    rewrite !Forall_fmap in H1, H2. simpl in *. done.
Qed.






Lemma find_elem_of {A} (p : A → bool) (l : list A) (x : A) :
  List.find p l = Some x → x ∈ l.
Proof. intros [Hin _]%List.find_some. by apply list_elem_of_In. Qed.

End Finding.

(** X20. [findExcelFile] fails exactly when the directory holds no file whose
    name ends in .xlsx or .xls (in any case), with the message of line
    357.  Otherwise it returns the path of an Excel file of the
    directory, and never that of a report (a name that contains
    "report") as long as the directory holds an Excel file that is no
    report. *)
Theorem findExcelFile_returns_an_excel_file (pathJoin : string → string → string)
    (mtimeOf : string → Z) (files : list string) (directory preferredName : string) :
  match findExcelFile pathJoin mtimeOf files directory preferredName with
  | inl e =>
      e = "No Excel files found in directory" ∧ Forall (λ f, isExcel f = false) files
  | inr p =>
      ∃ f, p = pathJoin directory f ∧ f ∈ files ∧ isExcel f = true ∧
        (∀ g, g ∈ files → isExcel g = true → isReport g = false → isReport f = false)
  end.
Proof.
  rewrite findExcelFile_candidates.
  destruct (candidates files) as [| x l] eqn:Hc.
  { split; [done | by apply candidates_nil]. }
  assert (∀ f, f ∈ x :: l →
            ∃ f', pathJoin directory f = pathJoin directory f' ∧ f' ∈ files ∧
              isExcel f' = true ∧
              (∀ g, g ∈ files → isExcel g = true → isReport g = false →
                 isReport f' = false)) as Hok.
  { intros f Hf. rewrite <- Hc in Hf. exists f. split; [done |].
    destruct (candidates_excel _ _ Hf) as [? ?]. split; [done |]. split; [done |].
    intros g. by apply candidates_no_report. }
  destruct (newest_candidate pathJoin mtimeOf directory (x :: l))
    as (f & l1 & l2 & Heq & _ & _ & Hnewest); [done |].
  assert (f ∈ x :: l) as Hf.
  { rewrite Heq. apply elem_of_app. right. left. }
  cbv zeta. rewrite Hnewest.
  destruct (if truthy preferredName then _ else None) as [g |] eqn:Hfind.
  - destruct (truthy g); [| by apply Hok].
    apply Hok. destruct (truthy preferredName); [| done].
    by apply find_elem_of in Hfind.
  - by apply Hok.
Qed.


(** The directory of the examples: the report is left out, and of the
    two workbooks the one modified last is taken, unless the other is
    asked for by name. *)
Lemma findExcelFile_example :
  findExcelFile examplePathJoin exampleMtime exampleFiles "/data" "" =
    inr "/data/February.XLS" ∧
  findExcelFile examplePathJoin exampleMtime exampleFiles "/data" "JAN" =
    inr "/data/january.xlsx".
Proof. split; reflexivity. Qed.

(** ** Dates *)

Lemma daysInMonth_bounds y m : (28 ≤ daysInMonth y m ≤ 31)%Z.
Proof.
  unfold daysInMonth. destruct (m =? 1)%Z; [destruct (isLeapYear y); lia |].
  destruct (_ || _); lia.
Qed.

(** Carrying days never leaves a day before the first, and it changes
    the day whenever it carries. *)
Lemma carryDays_day fuel : ∀ y m d,
  (1 ≤ d)%Z →
  (1 ≤ getDate (carryDays fuel y m d) ≤ d)%Z ∧
  (getDate (carryDays fuel y m d) = d →
     carryDays fuel y m d = mkJsDate y m d ∧ (fuel = 0 ∨ (d ≤ daysInMonth y m)%Z)).
Proof.
  induction fuel as [| fuel IH]; intros y m d Hd; simpl.
  - split; [lia | auto].
  - destruct (d <? 1)%Z eqn:Hlt; [apply Z.ltb_lt in Hlt; lia |].
    destruct (daysInMonth y m <? d)%Z eqn:Hgt.
    + apply Z.ltb_lt in Hgt. pose proof (daysInMonth_bounds y m) as Hb.
      destruct (nextMonth y m) as [y' m'].
      destruct (IH y' m' (d - daysInMonth y m)%Z) as [Hrange _]; [lia |].
      split; [lia |]. intros Heq. lia.
    + apply Z.ltb_ge in Hgt. simpl. split; [lia |]. intros _. split; [done |]. by right.
Qed.

Lemma carryDays_day_zero fuel y m :
  (1 ≤ getDate (carryDays (S fuel) y m 0))%Z.
Proof.
  simpl. destruct (previousMonth y m) as [y' m'].
  pose proof (daysInMonth_bounds y' m') as Hb.
  destruct (carryDays_day fuel y' m' (0 + daysInMonth y' m')%Z) as [Hrange _]; lia.
Qed.

(** The check of lines 227 and 239 passes exactly for a month from 1 to
    12 and a day of that month, in a year that is not one of 0 to 99;
    the date is then the one that was asked for. *)
Lemma checkedDate_spec (year month day : Z) (date : JsDate) :
  (0 ≤ day)%Z →
  checkedDate year month day = Some date ↔
  validDate year month day ∧ ¬ (0 ≤ year ≤ 99)%Z ∧ date = mkJsDate year (month - 1) day.
Proof.
  intros Hday. unfold checkedDate, newDate, validDate. cbv zeta.
  set (year0 := if (0 <=? year)%Z && (year <=? 99)%Z then (1900 + year)%Z else year).
  set (y1 := (year0 + (month - 1) / 12)%Z). set (m1 := ((month - 1) mod 12)%Z).
  split.
  - remember (carryDays 5 y1 m1 day) as d0 eqn:Hd0.
    destruct ((getFullYear d0 =? year)%Z && (getMonth d0 =? month - 1)%Z &&
              (getDate d0 =? day)%Z) eqn:Hcheck; [| done].
    intros Hsome. assert (date = d0) as -> by congruence. clear Hsome.
    rewrite Hd0 in Hcheck |- *. clear Hd0 d0.
    apply andb_true_iff in Hcheck as [Hcheck Hd].
    apply andb_true_iff in Hcheck as [Hy Hm].
    apply Z.eqb_eq in Hy, Hm, Hd.
    destruct (decide (day = 0%Z)) as [-> | Hne].
    { pose proof (carryDays_day_zero 4 y1 m1). lia. }
    destruct (carryDays_day 5 y1 m1 day) as [_ Hsame]; [lia |].
    destruct (Hsame Hd) as [Heq [? | Hle]]; [done |].
    rewrite Heq in Hy, Hm |- *. simpl in Hy, Hm.
    assert (0 ≤ month - 1 < 12)%Z as Hmonth.
    { subst m1. rewrite <- Hm. apply Z.mod_pos_bound. lia. }
    assert ((month - 1) / 12 = 0)%Z as Hdiv by (apply Z.div_small; lia).
    assert (m1 = month - 1)%Z as Hm1 by (subst m1; apply Z.mod_small; lia).
    assert (year0 = year) as Hy0 by (subst y1; lia).
    rewrite Hm1 in Hle |- *. subst y1. rewrite Hdiv, Z.add_0_r, Hy0 in Hle |- *.
    split; [lia |]. split; [| done].
    subst year0. destruct ((0 <=? year)%Z && (year <=? 99)%Z) eqn:Hq; [lia |].
    apply andb_false_iff in Hq as [Hq | Hq]; [apply Z.leb_gt in Hq | apply Z.leb_gt in Hq]; lia.
  - intros ([Hmonth Hd] & Hyear & ->).
    assert (year0 = year) as Hy0.
    { subst year0. destruct ((0 <=? year)%Z && (year <=? 99)%Z) eqn:Hq; [| done].
      apply andb_true_iff in Hq as [Hq1 Hq2]. apply Z.leb_le in Hq1, Hq2. lia. }
    assert (y1 = year) as ->.
    { subst y1. rewrite Hy0, Z.div_small by lia. lia. }
    assert (m1 = month - 1)%Z as -> by (subst m1; apply Z.mod_small; lia).
    assert (carryDays 5 year (month - 1) day = mkJsDate year (month - 1) day) as ->.
    { simpl. destruct (day <? 1)%Z eqn:Hlt; [apply Z.ltb_lt in Hlt; lia |].
      destruct (daysInMonth year (month - 1) <? day)%Z eqn:Hgt; [| done].
      apply Z.ltb_lt in Hgt. lia. }
    simpl. by rewrite !Z.eqb_refl.
Qed.

(** *** The two regular expressions *)

Lemma freeOf_app isSep (a b : string) :
  freeOf isSep a → freeOf isSep b → freeOf isSep (a +:+ b).
Proof.
  intros Ha Hb. induction a as [| c a IH]; [done |].
  apply freeOf_cons in Ha as [Hc Ha]. rewrite string_app_cons.
  apply freeOf_cons. split; [done | by apply IH].
Qed.

Lemma allDigits_cons c s : allDigits (String c s) = isDigit c && allDigits s.
Proof. done. Qed.

Lemma allDigits_app (a b : string) : allDigits (a +:+ b) = allDigits a && allDigits b.
Proof.
  induction a as [| c a IH]; [done |].
  by rewrite string_app_cons, !allDigits_cons, IH, andb_assoc.
Qed.

(** Digits are free of every character that is no digit. *)
Lemma allDigits_free (isSep : ascii → bool) s :
  (∀ c, isDigit c = true → isSep c = false) → allDigits s = true → freeOf isSep s.
Proof.
  intros Hsep. induction s as [| c s IH]; [intros _; apply freeOf_nil |].
  rewrite allDigits_cons. intros [Hc Hs]%andb_true_iff.
  apply freeOf_cons. split; [by apply Hsep | by apply IH].
Qed.

Lemma isDigit_not c (sep : ascii) :
  isDigit sep = false → isDigit c = true → Ascii.eqb c sep = false.
Proof.
  intros Hsep Hc. destruct (Ascii.eqb_spec c sep) as [-> | _]; [congruence | done].
Qed.

Lemma isDigit_not_space c : isDigit c = true → is_space c = false.
Proof.
  unfold isDigit, is_space. intros [H1 H2]%andb_true_iff.
  apply Nat.leb_le in H1, H2.
  destruct (9 <=? nat_of_ascii c) eqn:E1; destruct (nat_of_ascii c <=? 13) eqn:E2;
    destruct (nat_of_ascii c =? 32) eqn:E3; simpl; try done;
    try apply Nat.leb_le in E2; try apply Nat.eqb_eq in E3; lia.
Qed.

Lemma splitChar_free sep s :
  freeOf (λ c, Ascii.eqb c sep) s → splitChar sep s = [s].
Proof.
  induction s as [| c s IH]; [done |]. intros [Hc Hs]%freeOf_cons. simpl.
  by rewrite Hc, (IH Hs).
Qed.

Lemma splitChar_app sep (a b : string) :
  freeOf (λ c, Ascii.eqb c sep) a →
  splitChar sep (a +:+ String sep b) = a :: splitChar sep b.
Proof.
  induction a as [| c a IH]; intros Ha.
  - rewrite string_app_nil_l. simpl. by rewrite Ascii.eqb_refl.
  - apply freeOf_cons in Ha as [Hc Ha]. rewrite string_app_cons. simpl.
    by rewrite Hc, (IH Ha).
Qed.

Lemma digitGroup_digits lo hi s : digitGroup lo hi s = true → allDigits s = true.
Proof. unfold digitGroup. by intros [[? _]%andb_true_iff _]%andb_true_iff. Qed.

Lemma digitGroup_not_empty hi s : digitGroup 1 hi s = true → s ≠ "".
Proof. unfold digitGroup. by intros [[_ ?]%andb_true_iff _]%andb_true_iff ->. Qed.

Section Matching.
Variables (a b c : string) (sep : ascii).
Hypothesis Ha : allDigits a = true.
Hypothesis Hb : allDigits b = true.
Hypothesis Hc : allDigits c = true.
Hypothesis Hsep : isDigit sep = false.

Let text : string := a +:+ String sep (b +:+ String sep c).

Lemma digits_free_sep s : allDigits s = true → freeOf (λ x, Ascii.eqb x sep) s.
Proof. apply allDigits_free. intros x. by apply isDigit_not. Qed.

(** Splitting at the separator gives back the three groups. *)
Lemma splitChar_groups : splitChar sep text = [a; b; c].
Proof.
  unfold text.
  rewrite !splitChar_app, splitChar_free by (by apply digits_free_sep). done.
Qed.

(** Splitting at another character that is no digit gives the text. *)
Lemma splitChar_other other :
  isDigit other = false → Ascii.eqb sep other = false →
  splitChar other text = [text].
Proof.
  intros Ho Hne. apply splitChar_free. unfold text.
  assert (∀ s, allDigits s = true → freeOf (λ x, Ascii.eqb x other) s) as Hfree.
  { intros s. apply allDigits_free. intros x. by apply isDigit_not. }
  apply freeOf_app; [by apply Hfree |]. apply freeOf_cons. split; [done |].
  apply freeOf_app; [by apply Hfree |]. apply freeOf_cons. split; [done |].
  by apply Hfree.
Qed.

Lemma text_not_digits : allDigits text = false.
Proof. unfold text. by rewrite allDigits_app, allDigits_cons, Hsep, andb_false_r. Qed.

Lemma text_trim : is_space sep = false → trim text = text.
Proof.
  intros Hsp. apply trim_free. unfold text.
  assert (∀ s, allDigits s = true → freeOf is_space s) as Hfree.
  { intros s. apply allDigits_free. apply isDigit_not_space. }
  apply freeOf_app; [by apply Hfree |]. apply freeOf_cons. split; [done |].
  apply freeOf_app; [by apply Hfree |]. apply freeOf_cons. split; [done |].
  by apply Hfree.
Qed.

Lemma text_truthy : truthy text = true.
Proof. unfold text. by destruct a. Qed.

End Matching.

Section Parsing.
Variable nativeParse : string → option JsDate.
Variable serialDate : Z → JsDate.

Lemma slashDate_text m d y : slashDate m d y = m +:+ String "/" (d +:+ String "/" y).
Proof. done. Qed.

Lemma dashDate_text y m d : dashDate y m d = y +:+ String "-" (m +:+ String "-" d).
Proof. done. Qed.

(** [parseDate] on a text of the form m/d/yyyy: the checked date or,
    when the check fails, what the engine makes of the text. *)
Lemma parseDate_slash (ms ds ys : string) :
  digitGroup 1 2 ms = true → digitGroup 1 2 ds = true → digitGroup 4 4 ys = true →
  parseDate nativeParse serialDate (slashDate ms ds ys) =
    match checkedDate (parseInt ys) (parseInt ms) (parseInt ds) with
    | Some date => Some date
    | None => nativeParse (slashDate ms ds ys)
    end.
Proof.
  intros Hm Hd Hy.
  pose proof (digitGroup_digits _ _ _ Hm) as Hm'.
  pose proof (digitGroup_digits _ _ _ Hd) as Hd'.
  pose proof (digitGroup_digits _ _ _ Hy) as Hy'.
  rewrite slashDate_text. unfold parseDate.
  rewrite (text_truthy ms ds ys "/") by done. simpl negb. cbv iota.
  rewrite (text_trim ms ds ys "/") by done.
  rewrite (text_truthy ms ds ys "/") by done. simpl negb. cbv iota. cbv zeta.
  unfold matchMDY. rewrite (splitChar_groups ms ds ys "/") by done.
  rewrite Hm, Hd, Hy. simpl andb. cbv iota.
  destruct (checkedDate (parseInt ys) (parseInt ms) (parseInt ds)); [done |].
  unfold matchYMD. rewrite (splitChar_other ms ds ys "/") by done.
  by rewrite (text_not_digits ms ds ys "/") by done.
Qed.

(** [parseDate] on a text of the form yyyy-m-d. *)
Lemma parseDate_dash (ys ms ds : string) :
  digitGroup 4 4 ys = true → digitGroup 1 2 ms = true → digitGroup 1 2 ds = true →
  parseDate nativeParse serialDate (dashDate ys ms ds) =
    match checkedDate (parseInt ys) (parseInt ms) (parseInt ds) with
    | Some date => Some date
    | None => nativeParse (dashDate ys ms ds)
    end.
Proof.
  intros Hy Hm Hd.
  pose proof (digitGroup_digits _ _ _ Hm) as Hm'.
  pose proof (digitGroup_digits _ _ _ Hd) as Hd'.
  pose proof (digitGroup_digits _ _ _ Hy) as Hy'.
  rewrite dashDate_text. unfold parseDate.
  rewrite (text_truthy ys ms ds "-") by done. simpl negb. cbv iota.
  rewrite (text_trim ys ms ds "-") by done.
  rewrite (text_truthy ys ms ds "-") by done. simpl negb. cbv iota. cbv zeta.
  unfold matchMDY. rewrite (splitChar_other ys ms ds "-") by done.
  unfold matchYMD. rewrite (splitChar_groups ys ms ds "-") by done.
  rewrite Hm, Hd, Hy. simpl andb. cbv iota.
  destruct (checkedDate (parseInt ys) (parseInt ms) (parseInt ds)); [done |].
  by rewrite (text_not_digits ys ms ds "-") by done.
Qed.

Lemma parseInt_nonneg s : (0 ≤ parseInt s)%Z.
Proof. unfold parseInt. lia. Qed.




End Parsing.



(** X23. A text m/d/yyyy or yyyy-m-d that names no day of the calendar, or a
    year before 100, is not rejected by [parseDate]: the check of the
    getters fails and the text is handed to the engine's own parser,
    whose answer is returned.  Whether 02/30/2024 is a date is thus left
    to [new Date(str)]. *)
Theorem parseDate_leaves_other_dates_to_engine (nativeParse : string → option JsDate)
    (serialDate : Z → JsDate) (ms ds ys : string) :
  digitGroup 1 2 ms = true → digitGroup 1 2 ds = true → digitGroup 4 4 ys = true →
  ¬ (validDate (parseInt ys) (parseInt ms) (parseInt ds) ∧ (100 ≤ parseInt ys)%Z) →
  parseDate nativeParse serialDate (slashDate ms ds ys) = nativeParse (slashDate ms ds ys) ∧
  parseDate nativeParse serialDate (dashDate ys ms ds) = nativeParse (dashDate ys ms ds).
Proof.
  intros Hm Hd Hy Hinvalid.
  assert (checkedDate (parseInt ys) (parseInt ms) (parseInt ds) = None) as Hchecked.
  { destruct (checkedDate _ _ _) as [date |] eqn:Hc; [| done].
    apply checkedDate_spec in Hc as (Hvalid & Hyear & _); [| apply parseInt_nonneg].
    exfalso. apply Hinvalid. split; [done |].
    pose proof (parseInt_nonneg ys). lia. }
  by rewrite parseDate_slash, parseDate_dash, Hchecked.
Qed.

Lemma parseDate_leaves_other_dates_to_engine_witness :
  parseDate lenientParse exampleSerialDate "02/30/2024" = Some (mkJsDate 2024 2 1) ∧
  parseDate strictParse exampleSerialDate "02/30/2024" = None.
Proof.
  assert (¬ (validDate (parseInt "2024") (parseInt "02") (parseInt "30") ∧
             (100 ≤ parseInt "2024")%Z)) as Hinvalid.
  { intros [[_ [_ Hday]] _]. vm_compute in Hday. by apply Hday. }
  split.
  - exact (proj1 (parseDate_leaves_other_dates_to_engine lenientParse exampleSerialDate
                    "02" "30" "2024" eq_refl eq_refl eq_refl Hinvalid)).
  - exact (proj1 (parseDate_leaves_other_dates_to_engine strictParse exampleSerialDate
                    "02" "30" "2024" eq_refl eq_refl eq_refl Hinvalid)).
Defined.

(** *** Printing and reading numbers *)







(** X25. A text of digits only is taken for an Excel serial number when its
    value lies between 1 and 999999, so that a bare year such as 2024
    counts as the day that lies 2024 days after the Excel epoch;
    otherwise the text is left to the engine.  An empty or blank text is
    no date. *)
Theorem parseDate_digits_are_serial_numbers (nativeParse : string → option JsDate)
    (serialDate : Z → JsDate) :
  (∀ s, allDigits s = true → s ≠ "" →
     parseDate nativeParse serialDate s =
       if (0 <? parseInt s)%Z && (parseInt s <? 1000000)%Z
       then Some (serialDate (parseInt s)) else nativeParse s) ∧
  (∀ s, trim s = "" → parseDate nativeParse serialDate s = None).
Proof.
  split.
  - intros s Hdigits Hne. unfold parseDate.
    assert (truthy s = true) as Htruthy
      by (unfold truthy; by destruct (String.eqb_spec s "")).
    assert (trim s = s) as Htrim.
    { apply trim_free. revert Hdigits. apply allDigits_free, isDigit_not_space. }
    rewrite Htruthy. simpl negb. cbv iota. rewrite Htrim, Htruthy. simpl negb. cbv iota zeta.
    unfold matchMDY, matchYMD.
    rewrite !splitChar_free, Hdigits; [done | |].
    + revert Hdigits. apply allDigits_free. intros x. by apply isDigit_not.
    + revert Hdigits. apply allDigits_free. intros x. by apply isDigit_not.
  - intros s Hblank. unfold parseDate. destruct (truthy s); [| done]. simpl.
    by rewrite Hblank.
Qed.

(** ** Reading and validating rows *)

Lemma field_setField k v row k' :
  field (setField k v row) k' = if decide (k = k') then v else field row k'.
Proof.
  unfold field, setField. simpl. destruct (decide (k = k')) as [-> | Hne].
  - by rewrite lookup_insert_eq.
  - by rewrite lookup_insert_ne.
Qed.

Lemma truthy_true s : truthy s = true ↔ s ≠ "".
Proof. unfold truthy. by destruct (String.eqb_spec s ""). Qed.

Lemma truthy_false s : truthy s = false ↔ s = "".
Proof. unfold truthy. by destruct (String.eqb_spec s ""). Qed.

Lemma or_else_empty a b : or_else a b = "" ↔ a = "" ∧ b = "".
Proof.
  unfold or_else. destruct (truthy a) eqn:Ha.
  - apply truthy_true in Ha. split; [by intros -> | by intros [-> _]].
  - apply truthy_false in Ha. subst a. split; [done | by intros [_ ->]].
Qed.

Lemma namedFields_keys row :
  (namedFields row).*1 = ["mrn"; "customId"; "dos"; "appointmentDate"; "cpt"; "icd"].
Proof. done. Qed.

(** A key that line 445-447 keeps out and that is none of the six named
    fields is no field of a mapped row. *)
Lemma field_mapRow_excluded row k :
  bool_decide (k ∈ excludedKeys) = true →
  bool_decide (k ∈ ["mrn"; "customId"; "dos"; "appointmentDate"; "cpt"; "icd"]) = false →
  field (mapRow row) k = "".
Proof.
  intros Hex%bool_decide_eq_true Hnamed%bool_decide_eq_false.
  unfold field at 1, mapRow. cbn [fields].
  rewrite lookup_union, map_lookup_filter_None_2; [| right; intros v _; simpl; tauto].
  rewrite (left_id None _).
  rewrite not_elem_of_list_to_map_1; [done |]. by rewrite namedFields_keys.
Qed.

Lemma appointmentDateOf_mapRow row : appointmentDateOf (mapRow row) = "".
Proof. unfold appointmentDateOf. by rewrite !field_mapRow_excluded by (vm_compute; reflexivity). Qed.


Section Validated.
Variable nativeParse : string → option JsDate.
Variable serialDate : Z → JsDate.

Lemma mrn_blank s : negb (truthy s) || negb (truthy (trim s)) = bool_decide (trim s = "").
Proof.
  destruct (truthy s) eqn:Hs; simpl.
  - destruct (truthy (trim s)) eqn:Ht; simpl.
    + apply truthy_true in Ht. by rewrite bool_decide_eq_false_2.
    + apply truthy_false in Ht. by rewrite bool_decide_eq_true_2.
  - apply truthy_false in Hs as ->. done.
Qed.

(** The errors of a row, in the order in which lines 299-324 push
    them. *)
Lemma validateRow_errors row :
  errors (validation (validateRow nativeParse serialDate row)) =
    (if bool_decide (trim (field row "mrn") = "") then ["MRN is required"] else []) ++
    (if truthy (field row "dos") then
       match parseDate nativeParse serialDate (field row "dos") with
       | None => ["DOS " +:+ quote +:+ field row "dos" +:+ quote +:+ " is not a valid date"]
       | Some _ => []
       end
     else []) ++
    (if truthy (appointmentDateOf row) then
       match parseDate nativeParse serialDate (appointmentDateOf row) with
       | None => ["Appointment Date " +:+ quote +:+ appointmentDateOf row +:+ quote +:+
                  " is not a valid date"]
       | Some _ => []
       end
     else []) ∧
  isValid (validation (validateRow nativeParse serialDate row)) =
    bool_decide (errors (validation (validateRow nativeParse serialDate row)) = []).
Proof.
  unfold validateRow. rewrite mrn_blank.
  assert (∀ v, appointmentDateOf (setField "dosFormatted" v row) = appointmentDateOf row)
    as Hsame.
  { intros v. unfold appointmentDateOf. by rewrite !field_setField. }
  assert (∀ l : list string, (length l =? 0) = bool_decide (l = [])) as Hlen
    by (by intros []).
  destruct (bool_decide (trim (field row "mrn") = ""));
    destruct (truthy (field row "dos"));
    [destruct (parseDate nativeParse serialDate (field row "dos")) | | destruct (parseDate nativeParse serialDate (field row "dos")) |];
    rewrite ?Hsame;
    (destruct (truthy (appointmentDateOf row));
     [destruct (parseDate nativeParse serialDate (appointmentDateOf row)) |]);
    simpl; rewrite ?app_nil_r; split; done.
Qed.

(** What [validateRow] leaves in the row. *)
Lemma validateRow_row row :
  _rowNumber (validatedRow (validateRow nativeParse serialDate row)) = _rowNumber row ∧
  (∀ k, k ≠ "dosFormatted" → k ≠ "appointmentDateFormatted" →
     field (validatedRow (validateRow nativeParse serialDate row)) k = field row k) ∧
  (truthy (appointmentDateOf row) = false →
     appointmentDateObject (validateRow nativeParse serialDate row) = None ∧
     field (validatedRow (validateRow nativeParse serialDate row)) "appointmentDateFormatted" =
       field row "appointmentDateFormatted") ∧
  (∀ date, truthy (field row "dos") = true → parseDate nativeParse serialDate (field row "dos") = Some date →
     dosDate (validateRow nativeParse serialDate row) = Some date ∧
     field (validatedRow (validateRow nativeParse serialDate row)) "dosFormatted" = formatJsDate date) ∧
  cptCodes (validateRow nativeParse serialDate row) = parseCPTCodes (field row "cpt").
Proof.
  unfold validateRow.
  assert (∀ v, appointmentDateOf (setField "dosFormatted" v row) = appointmentDateOf row)
    as Hsame.
  { intros v. unfold appointmentDateOf. by rewrite !field_setField. }
  assert (∀ s, (if truthy s then parseCPTCodes s else []) = parseCPTCodes s) as Hcpt.
  { intros s. destruct (truthy s) eqn:Hs; [done |]. by apply truthy_false in Hs as ->. }
  destruct (negb (truthy (field row "mrn")) || negb (truthy (trim (field row "mrn"))));
    destruct (truthy (field row "dos"));
    [destruct (parseDate nativeParse serialDate (field row "dos")) | | destruct (parseDate nativeParse serialDate (field row "dos")) |];
    rewrite ?Hsame;
    (destruct (truthy (appointmentDateOf row));
     [destruct (parseDate nativeParse serialDate (appointmentDateOf row)) |]);
    cbn [validatedRow dosDate appointmentDateObject cptCodes];
    rewrite ?Hcpt, ?field_setField; simpl;
    (split; [done |]); (split; [intros k Hk1 Hk2; rewrite ?field_setField;
                               repeat (destruct (decide _); [congruence |]); done |]);
    (split; [by intros |]); (split; [| done]); intros date; try done;
    intros _ [= ->]; done.
Qed.

End Validated.


(** X27. A row that [readExcelFile] has mapped has none of the five
    properties in which [validateRow] looks for the appointment date
    (line 314): the mapping leaves these columns out and stores their
    value under [appointmentDate].  So the appointment date of a row
    read from a sheet is never validated: no [Date] is stored for it, no
    formatted date is added, its only errors are those of the MRN and of
    the service date, and a row whose appointment date is no date is
    valid. *)
Theorem appointment_date_of_read_rows_not_validated (nativeParse : string → option JsDate)
    (serialDate : Z → JsDate) (row : Row) :
  let v := validateRow nativeParse serialDate (mapRow row) in
  appointmentDateOf (mapRow row) = "" ∧
  appointmentDateObject v = None ∧
  field (validatedRow v) "appointmentDate" = field (mapRow row) "appointmentDate" ∧
  field (validatedRow v) "appointmentDateFormatted" =
    field (mapRow row) "appointmentDateFormatted" ∧
  (∀ e, e ∈ errors (validation v) →
     e = "MRN is required" ∨
     e = "DOS " +:+ quote +:+ field (mapRow row) "dos" +:+ quote +:+ " is not a valid date") ∧
  isValid (validation (validateRow nativeParse serialDate (mapRow rowWithBadAppointmentDate)))
    = true.
Proof.
  intros v. subst v.
  pose proof (appointmentDateOf_mapRow row) as Happt.
  destruct (validateRow_errors nativeParse serialDate (mapRow row)) as [Herr _].
  destruct (validateRow_row nativeParse serialDate (mapRow row))
    as (_ & Hkeep & Hnone & _).
  rewrite Happt in Herr, Hnone. simpl in Herr. rewrite app_nil_r in Herr.
  destruct (Hnone eq_refl) as [Hobj Hfmt].
  split; [done |]. split; [done |]. split; [by apply Hkeep |]. split; [done |]. split.
  - intros e. rewrite Herr.
    destruct (bool_decide _); destruct (truthy _);
      try destruct (parseDate _ _ _); simpl; rewrite ?elem_of_cons, ?elem_of_nil; tauto.
  - destruct (validateRow_errors nativeParse serialDate (mapRow rowWithBadAppointmentDate))
      as [Herr' ->].
    rewrite appointmentDateOf_mapRow in Herr'. apply bool_decide_eq_true.
    rewrite Herr'.
    assert (field (mapRow rowWithBadAppointmentDate) "mrn" = "1001") as ->
      by (vm_compute; reflexivity).
    assert (field (mapRow rowWithBadAppointmentDate) "dos" = "") as ->
      by (vm_compute; reflexivity).
    done.
Qed.

Section Loading.
Variable nativeParse : string → option JsDate.
Variable serialDate : Z → JsDate.

Lemma filter_complement_length {A} (p : A → bool) (l : list A) :
  length (filter (λ x, p x = true) l) + length (filter (λ x, p x = false) l) = length l.
Proof.
  induction l as [| x l IH]; [done |]. rewrite !filter_cons.
  destruct (p x) eqn:Hp; simpl.
  - destruct (decide (true = true)); [| done]. destruct (decide (true = false)); [done |].
    simpl. lia.
  - destruct (decide (false = true)); [done |]. destruct (decide (false = false)); [| done].
    simpl. lia.
Qed.

Lemma filter_complement_perm {A} (p : A → bool) (l : list A) :
  filter (λ x, p x = true) l ++ filter (λ x, p x = false) l ≡ₚ l.
Proof.
  induction l as [| x l IH]; [done |]. rewrite !filter_cons.
  destruct (p x) eqn:Hp.
  - destruct (decide (true = true)); [| done]. destruct (decide (true = false)); [done |].
    simpl. by rewrite IH.
  - destruct (decide (false = true)); [done |]. destruct (decide (false = false)); [| done].
    rewrite <- Permutation_middle. by rewrite IH.
Qed.

End Loading.

(** X28. [loadExcelData] puts every row into exactly one of the two lists, in
    the order of the sheet and with its row number: the valid rows,
    whose MRN is not blank, and the invalid rows, each with one error at
    least. *)
Theorem loadExcelData_partitions_rows (nativeParse : string → option JsDate)
    (serialDate : Z → JsDate) (rows : list Row) :
  let validRows := (loadExcelData nativeParse serialDate rows).1 in
  let invalidRows := (loadExcelData nativeParse serialDate rows).2 in
  length validRows + length invalidRows = length rows ∧
  (_rowNumber <$> validRows) ++ (_rowNumber <$> invalidRows.*1) ≡ₚ _rowNumber <$> rows ∧
  sublist (_rowNumber <$> validRows) (_rowNumber <$> rows) ∧
  sublist (_rowNumber <$> invalidRows.*1) (_rowNumber <$> rows) ∧
  Forall (λ row, trim (field row "mrn") ≠ "") validRows ∧
  Forall (λ x, x.2 ≠ []) invalidRows.
Proof.
  intros validRows invalidRows. subst validRows invalidRows.
  unfold loadExcelData. cbn [fst snd].
  set (validated := validateRow nativeParse serialDate <$> rows).
  set (ok := λ v, isValid (validation v)).
  assert (_rowNumber <$> rows = (_rowNumber ∘ validatedRow) <$> validated) as Hnum.
  { subst validated. rewrite <- list_fmap_compose. apply list_fmap_ext.
    intros i row _. simpl.
    by destruct (validateRow_row nativeParse serialDate row) as [-> _]. }
  split; [| split; [| split; [| split; [| split]]]].
  - rewrite !length_fmap.
    etrans; [apply (filter_complement_length ok validated) |]. subst validated.
    by rewrite length_fmap.
  - rewrite Hnum, <- !list_fmap_compose, <- fmap_app.
    apply fmap_Permutation. apply (filter_complement_perm ok validated).
  - rewrite Hnum, <- list_fmap_compose. apply fmap_sublist, sublist_filter.
  - rewrite Hnum, <- !list_fmap_compose. apply fmap_sublist, sublist_filter.
  - apply Forall_fmap, Forall_forall. intros v [Hv Hin]%list_elem_of_filter.
    subst validated. apply list_elem_of_fmap in Hin as (row & -> & _). simpl.
    destruct (validateRow_errors nativeParse serialDate row) as [Herr Hvalid].
    destruct (validateRow_row nativeParse serialDate row) as (_ & Hkeep & _).
    rewrite Hkeep by done. rewrite Hvalid in Hv. apply bool_decide_eq_true in Hv.
    rewrite Hv in Herr. intros Hmrn. rewrite bool_decide_eq_true_2 in Herr by done.
    done.
  - apply Forall_fmap, Forall_forall. intros v [Hv Hin]%list_elem_of_filter.
    subst validated. apply list_elem_of_fmap in Hin as (row & -> & _). simpl.
    destruct (validateRow_errors nativeParse serialDate row) as [_ Hvalid].
    rewrite Hvalid in Hv. by apply bool_decide_eq_false in Hv.
Qed.

(** X29. [readExcelFile] fails on a sheet without data rows, with the message
    of line 419.  Otherwise it returns one row per data row, in order,
    numbered from 2: the row at index [i] gets the number [i + 2], which
    is the Excel number that the Status Writer gives to the data row at
    the same place. *)
Theorem readRows_numbers_rows_from_two (normalizeColumnName : string → string)
    (rows : list (list (string * string))) :
  match readRows normalizeColumnName rows with
  | inl e => rows = [] ∧ e = "No data rows found in sheet"
  | inr read =>
      rows ≠ [] ∧ length read = length rows ∧
      (∀ i row, read !! i = Some row → _rowNumber row = i + 2) ∧
      _rowNumber <$> read = seq 2 (length rows)
  end.
Proof.
  unfold readRows. destruct rows as [| entries rows]; [done |].
  simpl (_ =? _). cbv iota.
  set (all := entries :: rows).
  split; [done |]. split; [by rewrite length_imap |].
  assert (∀ i row,
            imap (λ index e, mapRow (normalizeRow normalizeColumnName index e)) all !! i =
              Some row → _rowNumber row = i + 2) as Hnum.
  { intros i row. rewrite list_lookup_imap.
    destruct (all !! i); [| done]. by intros [= <-]. }
  split; [done |].
  apply list_eq. intros i. rewrite list_lookup_fmap, list_lookup_imap.
  destruct (all !! i) as [e |] eqn:Hi.
  - apply lookup_lt_Some in Hi. rewrite lookup_seq_lt by done.
    cbn [fmap option_fmap option_map mapRow normalizeRow _rowNumber]. f_equal. lia.
  - apply lookup_ge_None in Hi. by rewrite lookup_seq_ge.
Qed.

End ExcelReaderFacts.
